(** * Zoomer: a Stream Deck plugin that toggles Zoom mute / video

    A shallow embedding of the TypeScript sources of the plugin and the
    properties of its toggle controller, retrying executor, state
    detector and keystroke-script generator.

    Layout
    - [JsString]   : the JavaScript string operations the sources use.
    - [Keystroke]  : [generateKeystrokeScript] (zoom-toggle-base.ts and the
                     earlier zoom-video-toggle.ts / zoom-mute-toggle.ts).
    - [Runtime]    : child processes, the display of the key, timers, the
                     fields of the controller instance and a resumption
                     monad [Prog] in which the asynchronous methods are
                     written; a sequential interpreter [run] and an
                     interleaving scheduler [exec].
    - [Monitor]    : class ZoomMonitor (zoom-monitor.ts) and the earlier
                     ZoomAudioMonitor.
    - [ToggleBase] : class ZoomToggleBase with its two subclasses.
    - [VideoToggleV1] : the earlier, self-contained ZoomVideoToggle.
    - [Observe]    : how a run is read: what a process outcome means to the
                     plugin, which operations of the trace are calls of the
                     Detector or of the Executor, the worlds the methods
                     leave.
    - [Guard]      : the discipline of the re-entrancy flag [isUpdating] and
                     the invariant of the event loop.
    - [Cycle]      : what the guard protects: the probes and the updates of
                     the key, tied to the guarded region of [updateState].
    - [Scenarios]  : concrete process outcomes, settings and worlds.
    - [MuteToggleV1] : the earlier, self-contained ZoomMuteToggle.
    - [Schedule]   : the attempts of a key press, the bookkeeping of the
                     periodic timer and its invariant, the budget of
                     launches of the toggle command.
    - the properties, module by module. *)

From Stdlib Require Import Bool Arith Lia List String Ascii.
Import ListNotations.
Open Scope list_scope.
Open Scope string_scope.
Open Scope nat_scope.

(* ===================================================================== *)
(** ** JavaScript strings *)
(* ===================================================================== *)

Module JsString.

(** Strings are sequences of 8-bit characters.  [toLowerCase] and [trim]
    are the JavaScript operations restricted to the ASCII range: letters
    A to Z are lowered, and the white space removed by [trim] is
    TAB, LF, VT, FF, CR and SPACE. *)

Definition dq : string := String "034"%char EmptyString.

Definition lowerChar (c : ascii) : ascii :=
  let n := nat_of_ascii c in
  if (65 <=? n) && (n <=? 90) then ascii_of_nat (n + 32) else c.

Fixpoint toLowerCase (s : string) : string :=
  match s with
  | EmptyString => EmptyString
  | String c r => String (lowerChar c) (toLowerCase r)
  end.

(** [s.split(sep)] for a one-character separator: never the empty list. *)
Fixpoint split (sep : ascii) (s : string) : list string :=
  match s with
  | EmptyString => [EmptyString]
  | String c r =>
      if Ascii.eqb c sep then EmptyString :: split sep r
      else match split sep r with
           | h :: t => String c h :: t
           | [] => [String c EmptyString]
           end
  end.

(** [parts.join(sep)]. *)
Definition join (sep : string) (parts : list string) : string :=
  String.concat sep parts.

Definition isSpace (c : ascii) : bool :=
  let n := nat_of_ascii c in
  ((9 <=? n) && (n <=? 13)) || (n =? 32).

Fixpoint trimStart (s : string) : string :=
  match s with
  | EmptyString => EmptyString
  | String c r => if isSpace c then trimStart r else s
  end.

Fixpoint trimEnd (s : string) : string :=
  match s with
  | EmptyString => EmptyString
  | String c r =>
      match trimEnd r with
      | EmptyString => if isSpace c then EmptyString else String c EmptyString
      | r' => String c r'
      end
  end.

Definition trim (s : string) : string := trimEnd (trimStart s).

(** [s.startsWith(p)]. *)
Definition startsWith (p s : string) : bool := String.prefix p s.

(** JavaScript truthiness of a string. *)
Definition truthy (s : string) : bool :=
  match s with EmptyString => false | _ => true end.

End JsString.

(* ===================================================================== *)
(** ** generateKeystrokeScript *)
(* ===================================================================== *)

Module Keystroke.
Import JsString.

(** What [modifierMap[mod]] evaluates to.  [modifierMap] is an object
    literal, so a lookup that misses its eight own keys continues along
    the prototype chain: of the properties of Object.prototype, the two
    whose names a lower-cased segment can spell are [constructor] (the
    function Object) and [__proto__] (Object.prototype itself).  Every
    other key yields [undefined]. *)
Inductive JsValue : Type :=
| JUndefined
| JString (s : string)
| JObjectConstructor
| JObjectPrototype.

Definition ownModifier (m : string) : option string :=
  if String.eqb m "cmd" then Some "command down"
  else if String.eqb m "command" then Some "command down"
  else if String.eqb m "shift" then Some "shift down"
  else if String.eqb m "opt" then Some "option down"
  else if String.eqb m "option" then Some "option down"
  else if String.eqb m "alt" then Some "option down"
  else if String.eqb m "ctrl" then Some "control down"
  else if String.eqb m "control" then Some "control down"
  else None.

Definition inheritedKey (m : string) : bool :=
  String.eqb m "constructor" || String.eqb m "__proto__".

Definition modifierMap (m : string) : JsValue :=
  match ownModifier m with
  | Some v => JString v
  | None =>
      if String.eqb m "constructor" then JObjectConstructor
      else if String.eqb m "__proto__" then JObjectPrototype
      else JUndefined
  end.

(** The predicate of [.filter(mod => mod)]. *)
Definition jsTruthy (v : JsValue) : bool :=
  match v with
  | JUndefined => false
  | JString s => truthy s
  | JObjectConstructor | JObjectPrototype => true
  end.

(** The string conversion [.join] applies to each element. *)
Definition jsToString (v : JsValue) : string :=
  match v with
  | JUndefined => EmptyString
  | JString s => s
  | JObjectConstructor => "function Object() { [native code] }"
  | JObjectPrototype => "[object Object]"
  end.

Definition generateKeystrokeScript (shortcut : string) : string :=
  let parts := split "+" (toLowerCase shortcut) in
  let key := last parts EmptyString in
  let modifiers := removelast parts in
  let appleScriptModifiers :=
    join ", " (map jsToString (filter jsTruthy (map modifierMap modifiers))) in
  if truthy appleScriptModifiers
  then "keystroke " ++ dq ++ key ++ dq ++ " using {" ++ appleScriptModifiers ++ "}"
  else "keystroke " ++ dq ++ key ++ dq.

(** The command as the documentation of the shortcut format describes it:
    the key is the lower-cased text after the last [+]; the segments before
    it that name a supported modifier are listed in input order, the others
    are dropped; no modifier, no [using] clause. *)
Definition keyOf (shortcut : string) : string :=
  toLowerCase (last (split "+" shortcut) EmptyString).

Definition recognized (shortcut : string) : list string :=
  flat_map (fun seg => match ownModifier (toLowerCase seg) with
                       | Some v => [v]
                       | None => []
                       end)
           (removelast (split "+" shortcut)).

Definition documentedScript (shortcut : string) : string :=
  match recognized shortcut with
  | [] => "keystroke " ++ dq ++ keyOf shortcut ++ dq
  | mods => "keystroke " ++ dq ++ keyOf shortcut ++ dq
            ++ " using {" ++ join ", " mods ++ "}"
  end.

End Keystroke.

(* ===================================================================== *)
(** ** The runtime the controller runs on *)
(* ===================================================================== *)

Module Runtime.
Import JsString.

(** *** Child processes *)

(** How a launched process ends: the [close] event with its exit code
    ([None] is JavaScript's [null], a process killed by a signal) and what
    it wrote, or the [error] event. *)
Inductive ProcOutcome : Type :=
| Closed (code : option nat) (stdout stderr : string)
| SpawnError (message : string).

Inductive ActionKind : Type := MuteAction | VideoAction.

(** The AppleScript texts are opaque to the plugin: a script is kept as the
    name of its template together with the values spliced into it. *)
Inductive Script : Type :=
| CheckMeetingScript
| FrontmostScript
| DetectMuteScript
| DetectVideoScript
| KeyboardScript (activationDelay : nat) (keystroke : string)
| MenubarScript (kind : ActionKind) (fallbackScript : string).

(** [pgrep -f zoom.us] or [osascript -e script]. *)
Inductive Cmd : Type :=
| Pgrep
| Osascript (script : Script).

(** *** Errors *)

Inductive JsError : Type :=
| AppleScriptFailed (code : option nat) (stderr : string)
| AppleScriptNotExecuted (message : string)
| CommandFailed (code : option nat) (stderr : string)
| CommandNotExecuted (message : string)
| ExecSyncError (o : ProcOutcome)
| InvalidShortcut (shortcut : string).

(** *** Detected states, timers, fields *)

Inductive ZoomState : Type := Muted | Unmuted | VideoOn | VideoOff | Unknown.

Definition isUnknown (z : ZoomState) : bool :=
  match z with Unknown => true | _ => false end.

(** The closures handed to [setTimeout] and [setInterval]. *)
Inductive Callback : Type := VerifyCallback | TickCallback.

Record Timer : Type := mkTimer {
  timerId : nat;
  periodic : bool;
  callback : Callback;
  delayMs : nat
}.

(** The fields of the controller instance.  [isUpdating] belongs to
    ZoomToggleBase, [lastKnownState] to the earlier ZoomVideoToggle. *)
Record Fields : Type := mkFields {
  stateCheckInterval : option nat;
  isUpdating : bool;
  lastKnownState : ZoomState
}.

Inductive LogLevel : Type := LogInfo | LogWarn | LogError.

(** *** Operations *)

(** The first four are awaited: the method is suspended until the runtime
    answers.  The others complete synchronously. *)
Inductive Op : Type :=
| Spawn (c : Cmd)
| Sleep (ms : nat)
| SetTitle (t : string)
| SetState (n : nat)
| ExecSync (c : Cmd)
| GetUpdating
| SetUpdating (b : bool)
| GetInterval
| PutInterval (o : option nat)
| GetLastKnown
| PutLastKnown (z : ZoomState)
| SetTimeout (cb : Callback) (ms : nat)
| SetInterval (cb : Callback) (ms : nat)
| ClearInterval (id : nat)
| Console (level : LogLevel) (text : string).

Definition Resp (o : Op) : Type :=
  match o with
  | Spawn _ | ExecSync _ => ProcOutcome
  | GetUpdating => bool
  | GetInterval => option nat
  | GetLastKnown => ZoomState
  | SetInterval _ _ => nat
  | _ => unit
  end.

(** Where a method can be interleaved with others.  The test of
    [isUpdating] and its assignment in [updateState] have no [await]
    between them, and none of the synchronous operations lets another
    method run. *)
Definition suspends (o : Op) : bool :=
  match o with
  | Spawn _ | Sleep _ | SetTitle _ | SetState _ => true
  | _ => false
  end.

(** Reads and writes of the instance fields leave no mark outside. *)
Definition observable (o : Op) : bool :=
  match o with
  | GetUpdating | SetUpdating _ | GetInterval | PutInterval _
  | GetLastKnown | PutLastKnown _ => false
  | _ => true
  end.

(** *** Programs *)

Inductive Prog (A : Type) : Type :=
| Ret (a : A)
| Throw (e : JsError)
| Do (o : Op) (k : Resp o -> Prog A).

Arguments Ret {A} a.
Arguments Throw {A} e.
Arguments Do {A} o k.

Fixpoint bind {A B : Type} (p : Prog A) (f : A -> Prog B) : Prog B :=
  match p with
  | Ret a => f a
  | Throw e => Throw e
  | Do o k => Do o (fun x => bind (k x) f)
  end.

(** [try { p } catch (e) { h e }]. *)
Fixpoint tryCatch {A : Type} (p : Prog A) (h : JsError -> Prog A) : Prog A :=
  match p with
  | Ret a => Ret a
  | Throw e => h e
  | Do o k => Do o (fun x => tryCatch (k x) h)
  end.

(** [try { p } finally { f }]. *)
Fixpoint tryFinally {A : Type} (p : Prog A) (f : Prog unit) : Prog A :=
  match p with
  | Ret a => bind f (fun _ => Ret a)
  | Throw e => bind f (fun _ => Throw e)
  | Do o k => Do o (fun x => tryFinally (k x) f)
  end.

Definition op (o : Op) : Prog (Resp o) := Do o (fun x => Ret x).

Definition when (b : bool) (p : Prog unit) : Prog unit :=
  if b then p else Ret tt.

Fixpoint forEach {A : Type} (l : list A) (body : A -> Prog unit) : Prog unit :=
  match l with
  | [] => Ret tt
  | x :: r => bind (body x) (fun _ => forEach r body)
  end.

Declare Scope prog_scope.
Delimit Scope prog_scope with prog.
Notation "x <- p ;; q" := (bind p (fun x => q))
  (at level 61, p at next level, right associativity) : prog_scope.
Notation "p ;; q" := (bind p (fun _ => q))
  (at level 61, right associativity) : prog_scope.
Open Scope prog_scope.

(** *** The world

    The fields of the controller, the title and the state index shown on the
    key, the timers that are live, the number of processes launched so far
    and the observable operations performed so far, oldest first. *)

Record World : Type := mkWorld {
  fields : Fields;
  title : string;
  button : nat;
  timers : list Timer;
  nextTimer : nat;
  launched : nat;
  trace : list Op
}.

(** The outcome of each process, in launch order: the environment of a run.
    Every property below is stated for an arbitrary environment. *)
Definition Env : Type := nat -> ProcOutcome.

Definition withFields (f : Fields -> Fields) (w : World) : World :=
  mkWorld (f (fields w)) (title w) (button w) (timers w) (nextTimer w)
          (launched w) (trace w).

Definition addTrace (l : list Op) (w : World) : World :=
  mkWorld (fields w) (title w) (button w) (timers w) (nextTimer w) (launched w)
          (trace w ++ l)%list.

Definition record (o : Op) (w : World) : World :=
  if observable o then addTrace [o] w else w.

Arguments record !o w /.

Definition launch (w : World) : World :=
  mkWorld (fields w) (title w) (button w) (timers w) (nextTimer w)
          (S (launched w)) (trace w).

Definition withTitle (t : string) (w : World) : World :=
  mkWorld (fields w) t (button w) (timers w) (nextTimer w) (launched w) (trace w).

Definition withButton (n : nat) (w : World) : World :=
  mkWorld (fields w) (title w) n (timers w) (nextTimer w) (launched w) (trace w).

Definition addTimer (p : bool) (cb : Callback) (ms : nat) (w : World) : World :=
  mkWorld (fields w) (title w) (button w)
          (timers w ++ [mkTimer (nextTimer w) p cb ms])%list
          (S (nextTimer w)) (launched w) (trace w).

Definition dropTimer (id : nat) (w : World) : World :=
  mkWorld (fields w) (title w) (button w)
          (filter (fun t => negb (timerId t =? id)) (timers w))
          (nextTimer w) (launched w) (trace w).

Definition perform (env : Env) (o : Op) (w : World) : Resp o * World :=
  let w := record o w in
  match o return Resp o * World with
  | Spawn _ => (env (launched w), launch w)
  | ExecSync _ => (env (launched w), launch w)
  | Sleep _ => (tt, w)
  | SetTitle t => (tt, withTitle t w)
  | SetState n => (tt, withButton n w)
  | GetUpdating => (isUpdating (fields w), w)
  | SetUpdating b =>
      (tt, withFields (fun f => mkFields (stateCheckInterval f) b (lastKnownState f)) w)
  | GetInterval => (stateCheckInterval (fields w), w)
  | PutInterval o =>
      (tt, withFields (fun f => mkFields o (isUpdating f) (lastKnownState f)) w)
  | GetLastKnown => (lastKnownState (fields w), w)
  | PutLastKnown z =>
      (tt, withFields (fun f => mkFields (stateCheckInterval f) (isUpdating f) z) w)
  | SetTimeout cb ms => (tt, addTimer false cb ms w)
  | SetInterval cb ms => (nextTimer w, addTimer true cb ms w)
  | ClearInterval id => (tt, dropTimer id w)
  | Console _ _ => (tt, w)
  end.

(** *** One method, run to completion *)

Inductive Outcome (A : Type) : Type :=
| Returned (a : A)
| Thrown (e : JsError).

Arguments Returned {A} a.
Arguments Thrown {A} e.

Fixpoint run {A : Type} (env : Env) (p : Prog A) (w : World) : Outcome A * World :=
  match p with
  | Ret a => (Returned a, w)
  | Throw e => (Thrown e, w)
  | Do o k => let (x, w') := perform env o w in run env (k x) w'
  end.

(** *** Interleaved methods

    The event loop runs a method until it awaits, then may run any other
    suspended method, fire any live timer or deliver any event of the host.
    [advance] runs one method up to its next await (or to its end). *)

Fixpoint advance (env : Env) (p : Prog unit) (w : World) : option (Prog unit) * World :=
  match p with
  | Ret _ => (None, w)
  | Throw _ => (None, w)
  | Do o k =>
      let (x, w') := perform env o w in
      if suspends o then (Some (k x), w') else advance env (k x) w'
  end.

Inductive ControlMethod : Type := Keyboard | Menubar.

Record Settings : Type := mkSettings {
  controlMethod : option ControlMethod;
  keyboardShortcut : option string
}.

(** The entry points of a controller class. *)
Record Controller : Type := mkController {
  onWillAppear : Prog unit;
  onWillDisappear : Prog unit;
  onKeyDown : Settings -> Prog unit;
  timerCallback : Callback -> Prog unit
}.

Record Sys : Type := mkSys {
  world : World;
  tasks : list (Prog unit)
}.

Inductive Choice : Type :=
| Resume (i : nat)
| Fire (id : nat)
| KeyDown (s : Settings)
| WillAppear
| WillDisappear.

Definition start (env : Env) (p : Prog unit) (s : Sys) : Sys :=
  match advance env p (world s) with
  | (Some p', w') => mkSys w' (tasks s ++ [p'])%list
  | (None, w') => mkSys w' (tasks s)
  end.

Fixpoint replaceNth {A : Type} (i : nat) (o : option A) (l : list A) : list A :=
  match l, i with
  | [], _ => []
  | _ :: r, 0 => match o with Some y => y :: r | None => r end
  | x :: r, S j => x :: replaceNth j o r
  end.

Definition step (env : Env) (c : Controller) (ch : Choice) (s : Sys) : Sys :=
  match ch with
  | Resume i =>
      match nth_error (tasks s) i with
      | Some p =>
          let (o, w') := advance env p (world s) in
          mkSys w' (replaceNth i o (tasks s))
      | None => s
      end
  | Fire id =>
      match find (fun t => timerId t =? id) (timers (world s)) with
      | Some t =>
          let w := if periodic t then world s else dropTimer id (world s) in
          start env (timerCallback c (callback t)) (mkSys w (tasks s))
      | None => s
      end
  | KeyDown st => start env (onKeyDown c st) s
  | WillAppear => start env (onWillAppear c) s
  | WillDisappear => start env (onWillDisappear c) s
  end.

Definition exec (env : Env) (c : Controller) (sched : list Choice) (s : Sys) : Sys :=
  fold_left (fun s ch => step env c ch s) sched s.

Definition initialWorld : World :=
  mkWorld (mkFields None false Unknown) EmptyString 0 [] 0 0 [].

Definition initialSys : Sys := mkSys initialWorld [].

End Runtime.

(* ===================================================================== *)
(** ** ZoomMonitor (zoom-monitor.ts) *)
(* ===================================================================== *)

Module Monitor.
Import JsString Runtime.

(** [executeAppleScript]: the promise resolves with the trimmed output when
    the process closes with code 0 and rejects otherwise. *)
Definition executeAppleScript (script : Script) : Prog string :=
  Do (Spawn (Osascript script)) (fun o =>
    match o with
    | Closed (Some 0) stdout _ => Ret (trim stdout)
    | Closed code _ stderr => Throw (AppleScriptFailed code (trim stderr))
    | SpawnError message => Throw (AppleScriptNotExecuted message)
    end).

Definition executeCommand (c : Cmd) : Prog string :=
  Do (Spawn c) (fun o =>
    match o with
    | Closed (Some 0) stdout _ => Ret (trim stdout)
    | Closed code _ stderr => Throw (CommandFailed code (trim stderr))
    | SpawnError message => Throw (CommandNotExecuted message)
    end).

Definition detectZoomMuteState : Prog ZoomState :=
  tryCatch
    (result <- executeAppleScript DetectMuteScript ;;
     if String.eqb result "muted" then Ret Muted
     else if String.eqb result "unmuted" then Ret Unmuted
     else
       when (startsWith "error:" result)
            (op (Console LogWarn "Zoom mute detection AppleScript error:")) ;;
       Ret Unknown)
    (fun _ => op (Console LogError "Zoom mute detection failed:") ;; Ret Unknown).

Definition detectZoomVideoState : Prog ZoomState :=
  tryCatch
    (result <- executeAppleScript DetectVideoScript ;;
     if String.eqb result "video_on" then Ret VideoOn
     else if String.eqb result "video_off" then Ret VideoOff
     else
       when (startsWith "error:" result)
            (op (Console LogWarn "Zoom video detection AppleScript error:")) ;;
       Ret Unknown)
    (fun _ => op (Console LogError "Zoom video detection failed:") ;; Ret Unknown).

Inductive Confidence : Type := High | Low.

Record StateWithConfidence : Type := mkState {
  zoomState : ZoomState;
  confidence : Confidence
}.

Definition getAudioState : Prog StateWithConfidence :=
  zoomState <- detectZoomMuteState ;;
  Ret (mkState zoomState (if negb (isUnknown zoomState) then High else Low)).

Definition getVideoState : Prog StateWithConfidence :=
  zoomState <- detectZoomVideoState ;;
  Ret (mkState zoomState (if negb (isUnknown zoomState) then High else Low)).

Definition isZoomRunning : Prog bool :=
  tryCatch
    (result <- executeCommand Pgrep ;; Ret (0 <? String.length result))
    (fun _ => Ret false).

End Monitor.

(** The earlier ZoomAudioMonitor (zoom-audio-monitor.ts), which the earlier
    ZoomVideoToggle uses: the same probes run with the blocking [execSync]. *)
Module AudioMonitor.
Import JsString Runtime.

(** [execSync(cmd).toString()]: the output when the process exits with
    code 0; every other end of the process is thrown. *)
Definition execSync (c : Cmd) : Prog string :=
  Do (ExecSync c) (fun o =>
    match o with
    | Closed (Some 0) stdout _ => Ret stdout
    | _ => Throw (ExecSyncError o)
    end).

Definition detectZoomMuteState : Prog ZoomState :=
  tryCatch
    (out <- execSync (Osascript DetectMuteScript) ;;
     let result := trim out in
     if String.eqb result "muted" then Ret Muted
     else if String.eqb result "unmuted" then Ret Unmuted
     else Ret Unknown)
    (fun _ => op (Console LogError "Zoom mute detection failed:") ;; Ret Unknown).

Definition detectZoomVideoState : Prog ZoomState :=
  tryCatch
    (out <- execSync (Osascript DetectVideoScript) ;;
     let result := trim out in
     if String.eqb result "video_on" then Ret VideoOn
     else if String.eqb result "video_off" then Ret VideoOff
     else Ret Unknown)
    (fun _ => op (Console LogError "Zoom video detection failed:") ;; Ret Unknown).

End AudioMonitor.

(* ===================================================================== *)
(** ** ZoomToggleBase (zoom-toggle-base.ts) and its subclasses *)
(* ===================================================================== *)

Module ToggleBase.
Import JsString Keystroke Runtime.

Record ZoomToggleConfig : Type := mkConfig {
  checkIntervalMs : nat;        (* config.stateCheckInterval *)
  stateUpdateDelay : nat;
  activationDelay : nat;
  maxRetryAttempts : nat;
  retryDelay : nat
}.

Definition defaultConfig : ZoomToggleConfig := mkConfig 1000 1000 100 3 200.

(** The abstract methods a subclass supplies. *)
Record Subclass : Type := mkSubclass {
  getDefaultShortcut : string;
  getMenubarScript : string -> Script;
  detectState : Prog ZoomState;
  setButtonState : ZoomState -> Prog unit;
  getActionType : string
}.

Definition nl : string := String "010"%char EmptyString.
Definition titleNotRunning : string := "Zoom" ++ nl ++ "Not Running".
Definition titleNotInMeeting : string := "Not in" ++ nl ++ "Meeting".
Definition titleError : string := "Error".

Section Base.

Variable config : ZoomToggleConfig.
Variable sub : Subclass.

(** The base class carries its own copies of [executeAppleScript] and
    [executeCommand]; their text is that of ZoomMonitor's. *)
Definition executeAppleScript : Script -> Prog string := Monitor.executeAppleScript.
Definition executeCommand : Cmd -> Prog string := Monitor.executeCommand.

Definition delay (ms : nat) : Prog unit := op (Sleep ms).

Definition isZoomRunning : Prog bool :=
  tryCatch
    (result <- executeCommand Pgrep ;; Ret (0 <? String.length result))
    (fun _ => Ret false).

Definition isInMeeting : Prog bool :=
  tryCatch
    (result <- executeAppleScript CheckMeetingScript ;;
     op (Console LogInfo "isInMeeting") ;;
     Ret (String.eqb result "true"))
    (fun _ => Ret false).

Definition cleanup : Prog unit :=
  i <- op GetInterval ;;
  match i with
  | Some id => op (ClearInterval id) ;; op (PutInterval None)
  | None => Ret tt
  end.

Definition validModifiers : list string :=
  ["cmd"; "command"; "shift"; "opt"; "option"; "alt"; "ctrl"; "control"].

Definition includes (l : list string) (x : string) : bool :=
  existsb (String.eqb x) l.

Definition validateKeyboardShortcut (shortcut : string) : Prog string :=
  if negb (truthy shortcut) then Throw (InvalidShortcut shortcut)
  else
    let parts := split "+" (toLowerCase shortcut) in
    if List.length parts =? 0 then Throw (InvalidShortcut shortcut)
    else
      let modifiers := removelast parts in
      forEach modifiers (fun modifier =>
        when (negb (includes validModifiers modifier))
             (op (Console LogWarn
                    ("Unknown modifier '" ++ modifier ++ "' in shortcut: " ++ shortcut)))) ;;
      Ret shortcut.

(** The script one attempt of [executeToggleAction] hands to osascript. *)
Definition toggleScript (method : ControlMethod) (keyboardShortcut : string) : Script :=
  match method with
  | Menubar => getMenubarScript sub (generateKeystrokeScript keyboardShortcut)
  | Keyboard => KeyboardScript (activationDelay config)
                               (generateKeystrokeScript keyboardShortcut)
  end.

(** The [while (attempt < maxRetryAttempts)] loop.  [fuel] bounds the
    iterations still possible; called with [fuel + attempt >=
    maxRetryAttempts] it is never what ends the loop. *)
Fixpoint retryLoop (method : ControlMethod) (keyboardShortcut : string)
         (fuel attempt : nat) : Prog unit :=
  match fuel with
  | 0 => Ret tt
  | S fuel' =>
      if attempt <? maxRetryAttempts config then
        tryCatch
          (executeAppleScript (toggleScript method keyboardShortcut) ;;
           Ret tt)
          (fun error =>
             let attempt := S attempt in
             if maxRetryAttempts config <=? attempt then Throw error
             else
               delay (retryDelay config * attempt) ;;
               retryLoop method keyboardShortcut fuel' attempt)
      else Ret tt
  end.

Definition executeToggleAction (method : ControlMethod) (keyboardShortcut : string)
  : Prog unit :=
  retryLoop method keyboardShortcut (maxRetryAttempts config) 0.

Definition updateState : Prog unit :=
  updating <- op GetUpdating ;;
  if updating then Ret tt
  else
    op (SetUpdating true) ;;
    tryFinally
      (tryCatch
         (running <- isZoomRunning ;;
          if negb running then op (SetTitle titleNotRunning)
          else
            inMeeting <- isInMeeting ;;
            if negb inMeeting then op (SetTitle titleNotInMeeting)
            else
              detectedState <- detectState sub ;;
              when (negb (isUnknown detectedState))
                   (setButtonState sub detectedState ;;
                    op (SetTitle EmptyString)))
         (fun _ =>
            op (Console LogError
                  ("Failed to update Zoom " ++ getActionType sub ++ " state:")) ;;
            op (SetTitle titleError)))
      (op (SetUpdating false)).

Definition startPeriodicStateCheck : Prog unit :=
  cleanup ;;
  id <- op (SetInterval TickCallback (checkIntervalMs config)) ;;
  op (PutInterval (Some id)).

(** The closure given to [setInterval]. *)
Definition periodicTick : Prog unit :=
  tryCatch
    (running <- isZoomRunning ;;
     if running then
       inMeeting <- isInMeeting ;;
       when inMeeting updateState
     else Ret tt)
    (fun _ => op (Console LogError
                   ("Error in periodic state check for " ++ getActionType sub ++ ":"))).

(** The closure given to [setTimeout] by [onKeyDown]. *)
Definition verification : Prog unit :=
  updateState ;;
  startPeriodicStateCheck.

Definition onWillAppear : Prog unit :=
  updateState ;;
  startPeriodicStateCheck.

Definition onWillDisappear : Prog unit := cleanup.

Definition orDefault {A : Type} (truthyA : A -> bool) (o : option A) (d : A) : A :=
  match o with
  | Some x => if truthyA x then x else d
  | None => d
  end.

Definition onKeyDown (settings : Settings) : Prog unit :=
  tryCatch
    (cleanup ;;
     running <- isZoomRunning ;;
     if negb running then op (SetTitle titleNotRunning)
     else
       let method := orDefault (fun _ => true) (controlMethod settings) Keyboard in
       keyboardShortcut <-
         validateKeyboardShortcut
           (orDefault truthy (keyboardShortcut settings) (getDefaultShortcut sub)) ;;
       executeToggleAction method keyboardShortcut ;;
       op (SetTimeout VerifyCallback (stateUpdateDelay config)))
    (fun _ =>
       op (Console LogError ("Failed to toggle Zoom " ++ getActionType sub ++ ":")) ;;
       op (SetTitle titleError)).

Definition controller : Controller :=
  mkController onWillAppear onWillDisappear onKeyDown
    (fun cb => match cb with
               | VerifyCallback => verification
               | TickCallback => periodicTick
               end).

End Base.

(** *** The two subclasses (zoom-mute-toggle.ts, zoom-video-toggle.ts) *)

Definition ZoomMuteToggle : Subclass :=
  mkSubclass
    "cmd+shift+option+a"
    (MenubarScript MuteAction)
    Monitor.detectZoomMuteState
    (fun state => match state with
                  | Muted => op (SetState 0)
                  | Unmuted => op (SetState 1)
                  | _ => Ret tt
                  end)
    "mute".

Definition ZoomVideoToggle : Subclass :=
  mkSubclass
    "cmd+shift+v"
    (MenubarScript VideoAction)
    Monitor.detectZoomVideoState
    (fun state => match state with
                  | VideoOff => op (SetState 0)
                  | VideoOn => op (SetState 1)
                  | _ => Ret tt
                  end)
    "video".

(** The subclass registered for each of the two actions (plugin.ts). *)
Definition subclass (kind : ActionKind) : Subclass :=
  match kind with
  | MuteAction => ZoomMuteToggle
  | VideoAction => ZoomVideoToggle
  end.

End ToggleBase.

(* ===================================================================== *)
(** ** The earlier ZoomVideoToggle (zoom-video-toggle.ts before the base class) *)
(* ===================================================================== *)

Module VideoToggleV1.
Import JsString Keystroke Runtime.

Definition titleMeeting : string := "Zoom" ++ ToggleBase.nl ++ "Meeting".

Definition execSync : Cmd -> Prog string := AudioMonitor.execSync.

Definition isZoomRunning : Prog bool :=
  tryCatch
    (out <- execSync Pgrep ;; Ret (0 <? String.length (trim out)))
    (fun _ => Ret false).

Definition isInMeeting : Prog bool :=
  tryCatch
    (out <- execSync (Osascript CheckMeetingScript) ;;
     Ret (String.eqb (trim out) "true"))
    (fun _ => Ret false).

Definition isZoomFrontmost : Prog bool :=
  tryCatch
    (out <- execSync (Osascript FrontmostScript) ;;
     Ret (String.eqb (trim out) "true"))
    (fun _ => Ret false).

Definition detectVideoState : Prog ZoomState := AudioMonitor.detectZoomVideoState.

Definition setButtonState (state : ZoomState) : Prog unit :=
  match state with
  | VideoOff => op (SetState 0)
  | _ => op (SetState 1)
  end.

Definition updateState : Prog unit :=
  tryCatch
    (running <- isZoomRunning ;;
     if negb running then
       op (SetTitle ToggleBase.titleNotRunning) ;;
       op (PutLastKnown Unknown)
     else
       inMeeting <- isInMeeting ;;
       if negb inMeeting then
         op (SetTitle ToggleBase.titleNotInMeeting) ;;
         op (PutLastKnown Unknown)
       else
         detectedState <- detectVideoState ;;
         op (Console LogInfo "detectedState") ;;
         if negb (isUnknown detectedState) then
           setButtonState detectedState ;;
           op (PutLastKnown detectedState)
         else
           op (SetTitle titleMeeting))
    (fun _ =>
       op (Console LogError "Failed to update Zoom video state:") ;;
       op (SetTitle ToggleBase.titleError)).

Definition startPeriodicStateCheck : Prog unit :=
  id <- op (SetInterval TickCallback 5000) ;;
  op (PutInterval (Some id)).

Definition periodicTick : Prog unit :=
  running <- isZoomRunning ;;
  if running then
    inMeeting <- isInMeeting ;;
    if inMeeting then
      frontmost <- isZoomFrontmost ;;
      when frontmost updateState
    else Ret tt
  else Ret tt.

Definition verification : Prog unit := updateState.

Definition onWillAppear : Prog unit :=
  updateState ;;
  startPeriodicStateCheck.

Definition onWillDisappear : Prog unit :=
  i <- op GetInterval ;;
  match i with
  | Some id => op (ClearInterval id)
  | None => Ret tt
  end.

(** [lastKnownState === 'video_on' ? 'video_off' : 'video_on']. *)
Definition flipped (lastKnown : ZoomState) : ZoomState :=
  match lastKnown with
  | VideoOn => VideoOff
  | _ => VideoOn
  end.

Definition toggleScript (method : ControlMethod) (keyboardShortcut : string) : Script :=
  match method with
  | Menubar => MenubarScript VideoAction (generateKeystrokeScript keyboardShortcut)
  | Keyboard => KeyboardScript 100 (generateKeystrokeScript keyboardShortcut)
  end.

Definition onKeyDown (settings : Settings) : Prog unit :=
  tryCatch
    (running <- isZoomRunning ;;
     if negb running then op (SetTitle ToggleBase.titleNotRunning)
     else
       let method :=
         ToggleBase.orDefault (fun _ => true) (controlMethod settings) Keyboard in
       let keyboardShortcut :=
         ToggleBase.orDefault truthy (keyboardShortcut settings) "cmd+shift+v" in
       execSync (Osascript (toggleScript method keyboardShortcut)) ;;
       lastKnown <- op GetLastKnown ;;
       let newState := flipped lastKnown in
       setButtonState newState ;;
       op (PutLastKnown newState) ;;
       op (SetTimeout VerifyCallback 800))
    (fun _ =>
       op (Console LogError "Failed to toggle Zoom video:") ;;
       op (SetTitle ToggleBase.titleError)).

Definition controller : Controller :=
  mkController onWillAppear onWillDisappear onKeyDown
    (fun cb => match cb with
               | VerifyCallback => verification
               | TickCallback => periodicTick
               end).

End VideoToggleV1.

(* ===================================================================== *)
(** ** Reading a run: process outcomes and the trace *)
(* ===================================================================== *)

Module Observe.
Import JsString Runtime.

(** What a script or command printed, when its process closed with code 0. *)
Definition scriptOutput (o : ProcOutcome) : option string :=
  match o with
  | Closed (Some 0) stdout _ => Some (trim stdout)
  | _ => None
  end.

Definition succeeded (o : ProcOutcome) : bool :=
  match scriptOutput o with Some _ => true | None => false end.

(** The rejection of [executeAppleScript] for a process that failed. *)
Definition rejection (o : ProcOutcome) : JsError :=
  match o with
  | Closed code _ stderr => AppleScriptFailed code (trim stderr)
  | SpawnError message => AppleScriptNotExecuted message
  end.

(** The availability check: pgrep found a zoom.us process; the menu bar of
    zoom.us has a Meeting item. *)
Definition processPresent (o : ProcOutcome) : bool :=
  match scriptOutput o with
  | Some out => 0 <? String.length out
  | None => false
  end.

Definition sessionActive (o : ProcOutcome) : bool :=
  match scriptOutput o with
  | Some out => String.eqb out "true"
  | None => false
  end.

(** What the probe script reported. *)
Definition muteStateOf (o : ProcOutcome) : ZoomState :=
  match scriptOutput o with
  | Some out => if String.eqb out "muted" then Muted
                else if String.eqb out "unmuted" then Unmuted
                else Unknown
  | None => Unknown
  end.

Definition videoStateOf (o : ProcOutcome) : ZoomState :=
  match scriptOutput o with
  | Some out => if String.eqb out "video_on" then VideoOn
                else if String.eqb out "video_off" then VideoOff
                else Unknown
  | None => Unknown
  end.

(** The operations a run added to the trace. *)
Definition since (w w' : World) : list Op :=
  skipn (List.length (trace w)) (trace w').

Definition isToggleScript (s : Script) : bool :=
  match s with
  | KeyboardScript _ _ | MenubarScript _ _ => true
  | _ => false
  end.

Definition isDetectScript (s : Script) : bool :=
  match s with
  | DetectMuteScript | DetectVideoScript => true
  | _ => false
  end.

(** A call of the Executor: the toggle command is launched. *)
Definition isExecutorCall (o : Op) : bool :=
  match o with
  | Spawn (Osascript s) | ExecSync (Osascript s) => isToggleScript s
  | _ => false
  end.

(** A call of the Detector: a state probe is launched. *)
Definition isDetectorCall (o : Op) : bool :=
  match o with
  | Spawn (Osascript s) | ExecSync (Osascript s) => isDetectScript s
  | _ => false
  end.

Definition isSleep (o : Op) : bool :=
  match o with Sleep _ => true | _ => false end.

Definition isSetState (o : Op) : bool :=
  match o with SetState _ => true | _ => false end.

Definition isSetTimeout (o : Op) : bool :=
  match o with SetTimeout _ _ => true | _ => false end.

(** The attempts of the Executor and the delays between them. *)
Definition executorSteps (l : list Op) : list Op :=
  filter (fun o => isExecutorCall o || isSleep o) l.

(** World after an operation was recorded, after a process was launched. *)
Definition spawned (c : Cmd) (w : World) : World :=
  launch (addTrace [Spawn c] w).

Definition execed (c : Cmd) (w : World) : World :=
  launch (addTrace [ExecSync c] w).

(** What a probe logs on the console. *)
Definition probeLogs (known1 known2 warning failure : string) (o : ProcOutcome)
  : list Op :=
  match scriptOutput o with
  | Some out =>
      if String.eqb out known1 then []
      else if String.eqb out known2 then []
      else if startsWith "error:" out then [Console LogWarn warning] else []
  | None => [Console LogError failure]
  end.

(** The probe script printed one of the two states it knows. *)
Definition recognizedMute (o : ProcOutcome) : bool :=
  match scriptOutput o with
  | Some out => String.eqb out "muted" || String.eqb out "unmuted"
  | None => false
  end.

Definition recognizedVideo (o : ProcOutcome) : bool :=
  match scriptOutput o with
  | Some out => String.eqb out "video_on" || String.eqb out "video_off"
  | None => false
  end.

(** Two invocations of the detector, one after the other. *)
Definition twice {A : Type} (p : Prog A) : Prog (A * A) :=
  (first <- p ;; second <- p ;; Ret (first, second))%prog.

(** The world after [count] more processes were launched and the
    operations [l] were recorded. *)
Definition afterCalls (count : nat) (l : list Op) (w : World) : World :=
  mkWorld (fields w) (title w) (button w) (timers w) (nextTimer w)
          (count + launched w) (trace w ++ l)%list.

(** The world [cleanup] leaves. *)
Definition cleaned (w : World) : World :=
  match stateCheckInterval (fields w) with
  | Some id =>
      withFields (fun f => mkFields None (isUpdating f) (lastKnownState f))
                 (dropTimer id (addTrace [ClearInterval id] w))
  | None => w
  end.

(** What [isInMeeting] of the base class logs. *)
Definition meetingLogs (o : ProcOutcome) : list Op :=
  if succeeded o then [Console LogInfo "isInMeeting"] else [].

(** The warnings of [validateKeyboardShortcut]. *)
Definition validateLogs (shortcut : string) : list Op :=
  flat_map (fun modifier =>
              if negb (ToggleBase.includes ToggleBase.validModifiers modifier)
              then [Console LogWarn
                      ("Unknown modifier '" ++ modifier ++ "' in shortcut: " ++ shortcut)]
              else [])
           (removelast (split "+" (toLowerCase shortcut))).

(** [n] failed attempts of the Executor, each followed by its delay; the
    first of them is attempt number [attempt + 1]. *)
Fixpoint backoffSteps (script : Cmd) (retryDelay n attempt : nat) : list Op :=
  match n with
  | 0 => []
  | S n' => Spawn script :: Sleep (retryDelay * S attempt)
            :: backoffSteps script retryDelay n' (S attempt)
  end.

(** The control method and the shortcut [onKeyDown] reads from the settings. *)
Definition methodOf (settings : Settings) : ControlMethod :=
  ToggleBase.orDefault (fun _ => true) (controlMethod settings) Keyboard.

Definition shortcutOf (sub : ToggleBase.Subclass) (settings : Settings) : string :=
  ToggleBase.orDefault truthy (keyboardShortcut settings)
                       (ToggleBase.getDefaultShortcut sub).

(** What [cleanup] adds to the trace. *)
Definition cleanupSteps (w : World) : list Op :=
  match stateCheckInterval (fields w) with
  | Some id => [ClearInterval id]
  | None => []
  end.

(** Taking and releasing the guard of [updateState]. *)
Definition acquired (w : World) : World :=
  withFields (fun f => mkFields (stateCheckInterval f) true (lastKnownState f)) w.

Definition released (w : World) : World :=
  withFields (fun f => mkFields (stateCheckInterval f) false (lastKnownState f)) w.

(** The probe of each subclass: its script, what it reports, what it logs. *)
Definition detectScript (kind : ActionKind) : Script :=
  match kind with
  | MuteAction => DetectMuteScript
  | VideoAction => DetectVideoScript
  end.

Definition stateOf (kind : ActionKind) (o : ProcOutcome) : ZoomState :=
  match kind with
  | MuteAction => muteStateOf o
  | VideoAction => videoStateOf o
  end.

Definition detectLogs (kind : ActionKind) (o : ProcOutcome) : list Op :=
  match kind with
  | MuteAction => probeLogs "muted" "unmuted"
                    "Zoom mute detection AppleScript error:"
                    "Zoom mute detection failed:" o
  | VideoAction => probeLogs "video_on" "video_off"
                     "Zoom video detection AppleScript error:"
                     "Zoom video detection failed:" o
  end.

(** The result of the Detector in the update cycle of ZoomToggleBase that
    starts in world [w]: the cycle reaches the probe when the guard is free,
    pgrep finds Zoom and the meeting check says true; the probe is then the
    third process launched. *)
Definition detectedIn (kind : ActionKind) (env : Env) (w : World) : option ZoomState :=
  if negb (isUpdating (fields w))
     && processPresent (env (launched w))
     && sessionActive (env (1 + launched w))
  then Some (stateOf kind (env (2 + launched w)))
  else None.

(** The world in which the probe of an update cycle is launched, and the one
    it leaves. *)
Definition beforeProbe (env : Env) (w : World) : World :=
  addTrace (meetingLogs (env (1 + launched w)))
           (spawned (Osascript CheckMeetingScript) (spawned Pgrep (acquired w))).

Definition afterProbe (kind : ActionKind) (env : Env) (w : World) : World :=
  addTrace (detectLogs kind (env (2 + launched w)))
           (spawned (Osascript (detectScript kind)) (beforeProbe env w)).

(** The same for the earlier ZoomVideoToggle, which has no guard. *)
Definition detectedInV1 (env : Env) (w : World) : option ZoomState :=
  if processPresent (env (launched w)) && sessionActive (env (1 + launched w))
  then Some (videoStateOf (env (2 + launched w)))
  else None.

(** What the earlier ZoomAudioMonitor logs for a probe. *)
Definition probeLogsV1 (o : ProcOutcome) : list Op :=
  if succeeded o then [] else [Console LogError "Zoom video detection failed:"].

(** The availability check of an update cycle or a tick that starts in [w]. *)
Definition available (env : Env) (w : World) : bool :=
  processPresent (env (launched w)) && sessionActive (env (1 + launched w)).

(** The title shown for a resource that is not available. *)
Definition unavailableTitle (env : Env) (w : World) : string :=
  if processPresent (env (launched w))
  then ToggleBase.titleNotInMeeting
  else ToggleBase.titleNotRunning.

Definition isSetInterval (o : Op) : bool :=
  match o with SetInterval _ _ => true | _ => false end.

(** The world [startPeriodicStateCheck] leaves. *)
Definition polling (config : ToggleBase.ZoomToggleConfig) (w : World) : World :=
  withFields
    (fun f => mkFields (Some (nextTimer w)) (isUpdating f) (lastKnownState f))
    (addTimer true TickCallback (ToggleBase.checkIntervalMs config)
       (addTrace [SetInterval TickCallback (ToggleBase.checkIntervalMs config)]
                 (cleaned w))).

(** The shortcut the earlier ZoomVideoToggle reads from the settings. *)
Definition shortcutOfV1 (settings : Settings) : string :=
  ToggleBase.orDefault truthy (keyboardShortcut settings) "cmd+shift+v".

Definition pendingTimeouts (w : World) : list Timer :=
  filter (fun t => negb (periodic t)) (timers w).

Definition periodicTimers (w : World) : list Timer :=
  filter periodic (timers w).

(** The index [setButtonState] shows for a state. *)
Definition buttonOf (z : ZoomState) : nat :=
  match z with
  | Muted | VideoOff => 0
  | _ => 1
  end.

End Observe.

(* ===================================================================== *)
(** ** The re-entrancy guard [isUpdating] *)
(* ===================================================================== *)

Module Guard.
Import Runtime.

(** Where a method stands with respect to the guard:
    - [Held]: it has set [isUpdating] and not yet reset it;
    - [Free]: it has just read [isUpdating] as false and has not awaited
      since, so that no other method can have run;
    - [Idle]: otherwise. *)
Inductive Mode : Type := Idle | Free | Held.

Definition held (m : Mode) : bool :=
  match m with Held => true | _ => false end.

Definition modeOf (h : bool) : Mode := if h then Held else Idle.

Definition afterOp (o : Op) (m : Mode) : Mode :=
  match m with
  | Free => if suspends o then Idle else Free
  | _ => m
  end.

Definition isGuardOp (o : Op) : bool :=
  match o with
  | GetUpdating | SetUpdating _ => true
  | _ => false
  end.

(** [guarded m hr ht p]: started in mode [m], the program [p] sets the guard
    only when it has just seen it free, resets it only when it holds it, and
    holds it at its end exactly when [hr] says so (on return) or [ht] (on an
    exception). *)
Fixpoint guarded {A : Type} (m : Mode) (hr ht : bool) (p : Prog A) : Prop :=
  match p with
  | Ret _ => held m = hr
  | Throw _ => held m = ht
  | Do o k =>
      match o as o' return (Resp o' -> Prog A) -> Prop with
      | GetUpdating => fun k =>
          match m with
          | Idle => guarded Idle hr ht (k true) /\ guarded Free hr ht (k false)
          | _ => forall b, guarded m hr ht (k b)
          end
      | SetUpdating true => fun k => m = Free /\ guarded Held hr ht (k tt)
      | SetUpdating false => fun k => m = Held /\ guarded Idle hr ht (k tt)
      | o' => fun k => forall x, guarded (afterOp o' m) hr ht (k x)
      end k
  end.

(** A whole method: whatever way it ends, it does not keep the guard. *)
Definition disciplined (m : Mode) (p : Prog unit) : Prop :=
  guarded m false false p.

(** A suspended method that is inside the guarded region of [updateState]. *)
Definition inCycle (p : Prog unit) : Prop := disciplined Held p.

(** A program that never touches the guard. *)
Fixpoint neutral {A : Type} (p : Prog A) : Prop :=
  match p with
  | Ret _ | Throw _ => True
  | Do o k => isGuardOp o = false /\ forall x, neutral (k x)
  end.

(** Every operation has an answer. *)
Definition someResp (o : Op) : Resp o :=
  match o return Resp o with
  | Spawn _ | ExecSync _ => SpawnError EmptyString
  | GetUpdating => false
  | GetInterval => None
  | GetLastKnown => Unknown
  | SetInterval _ _ => 0
  | Sleep _ | SetTitle _ | SetState _ | SetUpdating _ | PutInterval _
  | PutLastKnown _ | SetTimeout _ _ | ClearInterval _ | Console _ _ => tt
  end.

Definition b2n (b : bool) : nat := if b then 1 else 0.

Definition holders (hs : list bool) : nat := count_occ bool_dec hs true.

(** The invariant of the event loop: each suspended method is disciplined,
    and the guard is set exactly when one of them holds it. *)
Definition Inv (s : Sys) : Prop :=
  exists hs : list bool,
    Forall2 (fun h p => disciplined (modeOf h) p) hs (tasks s) /\
    holders hs = b2n (isUpdating (fields (world s))).

Definition disciplinedController (c : Controller) : Prop :=
  disciplined Idle (onWillAppear c) /\
  disciplined Idle (onWillDisappear c) /\
  (forall st, disciplined Idle (onKeyDown c st)) /\
  (forall cb, disciplined Idle (timerCallback c cb)).

Definition neutralSubclass (sub : ToggleBase.Subclass) : Prop :=
  neutral (ToggleBase.detectState sub) /\
  forall z, neutral (ToggleBase.setButtonState sub z).

End Guard.

(* ===================================================================== *)
(** ** What the guard protects: probes and updates of the key *)
(* ===================================================================== *)

Module Cycle.
Import Runtime Observe Guard.

(** The two operations of an update cycle that the guard is there for: the
    launch of a state probe and the change of the state shown on the key. *)
Definition isCycleOp (o : Op) : bool := isDetectorCall o || isSetState o.

Definition isGuardTest (o : Op) : bool :=
  match o with GetUpdating => true | _ => false end.

(** [shielded m p]: started in mode [m], the program [p] launches a probe
    or changes the state of the key only while it holds the guard, and it
    awaits each of them.  The modes change as in [guarded]. *)
Fixpoint shielded {A : Type} (m : Mode) (p : Prog A) : Prop :=
  match p with
  | Ret _ | Throw _ => True
  | Do o k =>
      (isCycleOp o = true -> m = Held /\ suspends o = true) /\
      match o as o' return (Resp o' -> Prog A) -> Prop with
      | GetUpdating => fun k =>
          match m with
          | Idle => shielded Idle (k true) /\ shielded Free (k false)
          | _ => forall b, shielded m (k b)
          end
      | SetUpdating true => fun k => shielded Held (k tt)
      | SetUpdating false => fun k => shielded Idle (k tt)
      | o' => fun k => forall x, shielded (afterOp o' m) (k x)
      end k
  end.

(** A suspended method is committed when some answers of the runtime lead
    it to a probe or to an update of the key without another test of the
    guard on the way: it is past the availability check of an update cycle,
    or on its way through it. *)
Inductive committed : Prog unit -> Prop :=
| committed_now o k : isCycleOp o = true -> committed (Do o k)
| committed_later o k x :
    isGuardTest o = false -> committed (k x) -> committed (Do o k).

(** A program that neither touches the guard nor does what it protects. *)
Definition disturbs (o : Op) : bool := isGuardOp o || isCycleOp o.

(** Inside the guarded region: the guard is not touched, and a probe or an
    update of the key is awaited. *)
Definition unawaited (o : Op) : bool :=
  isGuardOp o || (isCycleOp o && negb (suspends o)).

(** The guarded body of [updateState]: availability check, probe, update of
    the key. *)
Definition cycleBody (sub : ToggleBase.Subclass) : Prog unit :=
  tryCatch
    (running <- ToggleBase.isZoomRunning ;;
     if negb running then op (SetTitle ToggleBase.titleNotRunning)
     else
       inMeeting <- ToggleBase.isInMeeting ;;
       if negb inMeeting then op (SetTitle ToggleBase.titleNotInMeeting)
       else
         detectedState <- ToggleBase.detectState sub ;;
         when (negb (isUnknown detectedState))
              (ToggleBase.setButtonState sub detectedState ;;
               op (SetTitle EmptyString)))
    (fun _ =>
       op (Console LogError
             ("Failed to update Zoom " ++ ToggleBase.getActionType sub ++ " state:")) ;;
       op (SetTitle ToggleBase.titleError)).

(** The world with the guard forced to [b]. *)
Definition withGuard (b : bool) (w : World) : World :=
  withFields (fun f => mkFields (stateCheckInterval f) b (lastKnownState f)) w.

(** The invariant of the event loop, with what the guard protects: each
    suspended method is disciplined and shielded, and the guard is set
    exactly when one of them holds it. *)
Definition ShieldInv (s : Sys) : Prop :=
  exists hs : list bool,
    Forall2 (fun h p => disciplined (modeOf h) p /\ shielded (modeOf h) p)
            hs (tasks s) /\
    holders hs = b2n (isUpdating (fields (world s))).

(** The position, among the suspended methods, of the method that a choice
    of the event loop runs: the one resumed, or the new one. *)
Definition stepTask (ch : Choice) (s : Sys) : nat :=
  match ch with
  | Resume i => i
  | _ => List.length (tasks s)
  end.

Definition shieldedController (c : Controller) : Prop :=
  (disciplined Idle (onWillAppear c) /\ shielded Idle (onWillAppear c)) /\
  (disciplined Idle (onWillDisappear c) /\ shielded Idle (onWillDisappear c)) /\
  (forall st, disciplined Idle (onKeyDown c st) /\ shielded Idle (onKeyDown c st)) /\
  (forall cb, disciplined Idle (timerCallback c cb) /\
              shielded Idle (timerCallback c cb)).

End Cycle.

(* ===================================================================== *)
(** ** Scenarios: concrete process outcomes and settings *)
(* ===================================================================== *)

Module Scenarios.
Import Runtime.

(** pgrep printed a process id. *)
Definition running : ProcOutcome := Closed (Some 0) "4242" "".

(** A script that ran and printed nothing, one that printed true, and one
    that osascript rejected. *)
Definition ok : ProcOutcome := Closed (Some 0) "" "".
Definition yes : ProcOutcome := Closed (Some 0) "true" "".
Definition failure : ProcOutcome := Closed (Some 1) "" "execution error".

Definition noSettings : Settings := mkSettings None None.

(** Zoom runs; the toggle command fails twice and then succeeds. *)
Definition envFailTwice : Env :=
  fun i => match i with
           | 0 => running
           | 1 | 2 => failure
           | _ => ok
           end.

(** Zoom runs; the toggle command fails every time. *)
Definition envAlwaysFail : Env :=
  fun i => match i with
           | 0 => running
           | _ => failure
           end.

(** No zoom.us process: pgrep exits with code 1. *)
Definition envAbsent : Env := fun _ => Closed (Some 1) "" "".

(** Zoom runs, a meeting is on, and the probe reports no known state. *)
Definition envProbeUnknown : Env :=
  fun i => match i with
           | 0 => running
           | 1 => yes
           | _ => Closed (Some 0) "no_meeting" ""
           end.

(** A key that shows state 1 (unmuted, video on), confirmed as video on. *)
Definition worldOn : World :=
  mkWorld (mkFields None false VideoOn) EmptyString 1 [] 0 0 [].

(** Zoom runs and every script succeeds without output. *)
Definition envToggleOk : Env :=
  fun i => match i with
           | 0 => running
           | _ => ok
           end.

(** Zoom runs, the toggle command succeeds, and the verification that
    follows finds Zoom in a meeting with the video off. *)
Definition envToggleThenVideoOff : Env :=
  fun i => match i with
           | 0 => running
           | 1 => ok
           | 2 => running
           | 3 => yes
           | _ => Closed (Some 0) "video_off" ""
           end.

(** Every process prints a process id and exits with code 0. *)
Definition envRunning : Env := fun _ => running.

(** A detection that succeeds, then one whose script reports no meeting. *)
Definition envMutedThenNoMeeting : Env :=
  fun i => match i with
           | 0 => Closed (Some 0) "muted" ""
           | _ => Closed (Some 0) "no_meeting" ""
           end.

End Scenarios.

(* ===================================================================== *)
(** ** The earlier ZoomMuteToggle (zoom-mute-toggle.ts before the base class) *)
(* ===================================================================== *)

Module MuteToggleV1.
Import JsString Keystroke Runtime.

Definition execSync : Cmd -> Prog string := AudioMonitor.execSync.

Definition isZoomRunning : Prog bool :=
  tryCatch
    (out <- execSync Pgrep ;; Ret (0 <? String.length (trim out)))
    (fun _ => Ret false).

Definition isInMeeting : Prog bool :=
  tryCatch
    (out <- execSync (Osascript CheckMeetingScript) ;;
     Ret (String.eqb (trim out) "true"))
    (fun _ => Ret false).

(** This class already uses the asynchronous ZoomMonitor. *)
Definition detectMuteState : Prog ZoomState := Monitor.detectZoomMuteState.

Definition setButtonState (state : ZoomState) : Prog unit :=
  match state with
  | Muted => op (SetState 0)
  | _ => op (SetState 1)
  end.

Definition updateState : Prog unit :=
  tryCatch
    (running <- isZoomRunning ;;
     if negb running then op (SetTitle ToggleBase.titleNotRunning)
     else
       inMeeting <- isInMeeting ;;
       if negb inMeeting then op (SetTitle ToggleBase.titleNotInMeeting)
       else
         detectedState <- detectMuteState ;;
         when (negb (isUnknown detectedState)) (setButtonState detectedState))
    (fun _ =>
       op (Console LogError "Failed to update Zoom mute state:") ;;
       op (SetTitle ToggleBase.titleError)).

Definition startPeriodicStateCheck : Prog unit :=
  id <- op (SetInterval TickCallback 500) ;;
  op (PutInterval (Some id)).

Definition periodicTick : Prog unit :=
  running <- isZoomRunning ;;
  if running then
    inMeeting <- isInMeeting ;;
    when inMeeting updateState
  else Ret tt.

Definition verification : Prog unit := updateState.

Definition onWillAppear : Prog unit :=
  updateState ;;
  startPeriodicStateCheck.

Definition onWillDisappear : Prog unit :=
  i <- op GetInterval ;;
  match i with
  | Some id => op (ClearInterval id)
  | None => Ret tt
  end.

Definition toggleScript (method : ControlMethod) (keyboardShortcut : string) : Script :=
  match method with
  | Menubar => MenubarScript MuteAction (generateKeystrokeScript keyboardShortcut)
  | Keyboard => KeyboardScript 100 (generateKeystrokeScript keyboardShortcut)
  end.

Definition onKeyDown (settings : Settings) : Prog unit :=
  tryCatch
    (running <- isZoomRunning ;;
     if negb running then op (SetTitle ToggleBase.titleNotRunning)
     else
       let method :=
         ToggleBase.orDefault (fun _ => true) (controlMethod settings) Keyboard in
       let keyboardShortcut :=
         ToggleBase.orDefault truthy (keyboardShortcut settings) "cmd+shift+option+a" in
       execSync (Osascript (toggleScript method keyboardShortcut)) ;;
       op (SetTimeout VerifyCallback 500))
    (fun _ =>
       op (Console LogError "Failed to toggle Zoom mute:") ;;
       op (SetTitle ToggleBase.titleError)).

Definition controller : Controller :=
  mkController onWillAppear onWillDisappear onKeyDown
    (fun cb => match cb with
               | VerifyCallback => verification
               | TickCallback => periodicTick
               end).

End MuteToggleV1.

(** The two state queries of the earlier ZoomAudioMonitor. *)
Module AudioMonitorStates.
Import Runtime.

Definition getAudioState : Prog Monitor.StateWithConfidence :=
  zoomState <- AudioMonitor.detectZoomMuteState ;;
  Ret (Monitor.mkState zoomState
         (if negb (isUnknown zoomState) then Monitor.High else Monitor.Low)).

Definition getVideoState : Prog Monitor.StateWithConfidence :=
  zoomState <- AudioMonitor.detectZoomVideoState ;;
  Ret (Monitor.mkState zoomState
         (if negb (isUnknown zoomState) then Monitor.High else Monitor.Low)).

End AudioMonitorStates.

(* ===================================================================== *)
(** ** Reading a run, continued: attempts, timers *)
(* ===================================================================== *)

Module Schedule.
Import JsString Runtime Observe.

(** The number of processes, counted from launch number [from] and up to
    [limit] of them, that fail before the first one that succeeds. *)
Fixpoint failuresBefore (env : Env) (from limit : nat) : nat :=
  match limit with
  | 0 => 0
  | S l => if succeeded (env from) then 0
           else S (failuresBefore env (S from) l)
  end.

(** The ids of the periodic timers that are live. *)
Definition periodicIds (w : World) : list nat :=
  map timerId (periodicTimers w).

(** The periodic timer that is live is the one the controller remembers. *)
Definition onePeriodic (w : World) : Prop :=
  periodicIds w = match stateCheckInterval (fields w) with
                  | Some id => [id]
                  | None => []
                  end.

(** Timer ids are handed out once and in increasing order. *)
Definition freshIds (w : World) : Prop :=
  NoDup (map timerId (timers w)) /\
  forall t, In t (timers w) -> timerId t < nextTimer w.

(** Where a method stands in the bookkeeping of the periodic timer:
    - [TIdle]: the bookkeeping is consistent;
    - [TKnown i]: it is, and the method has read or written
      [stateCheckInterval] as [i] and has not awaited since;
    - [TCleared id]: the timer [id] was cleared and [stateCheckInterval] is
      not yet reset;
    - [TArmed id]: the timer [id] was started and is not yet stored. *)
Inductive TMode : Type :=
| TIdle
| TKnown (i : option nat)
| TCleared (id : nat)
| TArmed (id : nat).

Definition consistent (m : TMode) : Prop :=
  match m with
  | TIdle | TKnown _ => True
  | _ => False
  end.

Definition holdsT (m : TMode) (w : World) : Prop :=
  match m with
  | TIdle => onePeriodic w
  | TKnown i => onePeriodic w /\ stateCheckInterval (fields w) = i
  | TCleared id => stateCheckInterval (fields w) = Some id /\ periodicIds w = []
  | TArmed id => stateCheckInterval (fields w) = None /\ periodicIds w = [id]
  end.

Definition afterT (o : Op) (m : TMode) : TMode :=
  match m with
  | TKnown _ => if suspends o then TIdle else m
  | _ => m
  end.

(** [timed m Q p]: started in mode [m], the program [p] clears only the
    timer it has read from [stateCheckInterval], resets the field right
    after, starts a timer only when it knows that none is stored and stores
    it right after; it awaits and throws only in a consistent mode, and
    returns in a mode that satisfies [Q]. *)
Fixpoint timed {A : Type} (m : TMode) (Q : TMode -> Prop) (p : Prog A) : Prop :=
  match p with
  | Ret _ => Q m
  | Throw _ => consistent m
  | Do o k =>
      match o as o' return (Resp o' -> Prog A) -> Prop with
      | GetInterval => fun k =>
          match m with
          | TIdle => forall x, timed (TKnown x) Q (k x)
          | TKnown i => timed (TKnown i) Q (k i)
          | _ => False
          end
      | ClearInterval id => fun k =>
          m = TKnown (Some id) /\ timed (TCleared id) Q (k tt)
      | PutInterval None => fun k =>
          match m with
          | TCleared _ => timed (TKnown None) Q (k tt)
          | _ => False
          end
      | PutInterval (Some id) => fun k =>
          m = TArmed id /\ timed (TKnown (Some id)) Q (k tt)
      | SetInterval _ _ => fun k =>
          m = TKnown None /\ forall x, timed (TArmed x) Q (k x)
      | o' => fun k => consistent m /\ forall x, timed (afterT o' m) Q (k x)
      end k
  end.

(** The operations on the periodic timer and its field, and these together
    with [setTimeout]. *)
Definition isIntervalOp (o : Op) : bool :=
  match o with
  | GetInterval | PutInterval _ | SetInterval _ _ | ClearInterval _ => true
  | _ => false
  end.

Definition isTimerOp (o : Op) : bool :=
  match o with
  | SetTimeout _ _ => true
  | _ => isIntervalOp o
  end.

(** An attempt of the Executor or a delay between two attempts. *)
Definition isExecutorStep (o : Op) : bool := isExecutorCall o || isSleep o.

(** The operations that only a key press or the bookkeeping of the timers
    performs. *)
Definition isActivationOp (o : Op) : bool := isTimerOp o || isExecutorStep o.

(** A program none of whose operations is one of [bad]. *)
Fixpoint avoids {A : Type} (bad : Op -> bool) (p : Prog A) : Prop :=
  match p with
  | Ret _ | Throw _ => True
  | Do o k => bad o = false /\ forall x, avoids bad (k x)
  end.

(** A program that leaves the timers and [stateCheckInterval] alone. *)
Definition timerFree {A : Type} (p : Prog A) : Prop := avoids isTimerOp p.

Definition intervalFree {A : Type} (p : Prog A) : Prop := avoids isIntervalOp p.

(** The invariant of the event loop for the periodic timer. *)
Definition TimerInv (s : Sys) : Prop :=
  onePeriodic (world s) /\ freshIds (world s) /\
  Forall (timed TIdle consistent) (tasks s).

(** The time a run spends in [delay]. *)
Definition sleepMs (o : Op) : nat :=
  match o with Sleep ms => ms | _ => 0 end.

Definition totalSleep (l : list Op) : nat := list_sum (map sleepMs l).

(** Every entry point of the controller returns normally: no promise a
    handler returns is ever rejected. *)
Definition neverRejects (c : Controller) : Prop :=
  forall env w,
    fst (run env (onWillAppear c) w) = Returned tt /\
    fst (run env (onWillDisappear c) w) = Returned tt /\
    (forall settings, fst (run env (onKeyDown c settings) w) = Returned tt) /\
    (forall cb, fst (run env (timerCallback c cb) w) = Returned tt).

Definition isKeyDown (ch : Choice) : bool :=
  match ch with KeyDown _ => true | _ => false end.

(** The handlers other than [onKeyDown] contain no step of the Executor. *)
Definition quietController (c : Controller) : Prop :=
  avoids isExecutorStep (onWillAppear c) /\
  avoids isExecutorStep (onWillDisappear c) /\
  forall cb, avoids isExecutorStep (timerCallback c cb).

Definition QuietInv (s : Sys) : Prop :=
  filter isExecutorStep (trace (world s)) = [] /\
  Forall (avoids isExecutorStep) (tasks s).

(** [atMost n p]: on every path the program [p] launches the toggle command
    at most [n] times. *)
Fixpoint atMost {A : Type} (n : nat) (p : Prog A) : Prop :=
  match p with
  | Ret _ | Throw _ => True
  | Do o k =>
      if isExecutorCall o
      then match n with
           | 0 => False
           | S n' => forall x, atMost n' (k x)
           end
      else forall x, atMost n (k x)
  end.

(** Only [onKeyDown] has a budget of launches. *)
Definition budgetedController (limit : nat) (c : Controller) : Prop :=
  atMost 0 (onWillAppear c) /\
  atMost 0 (onWillDisappear c) /\
  (forall st, atMost limit (onKeyDown c st)) /\
  (forall cb, atMost 0 (timerCallback c cb)).

Definition launches (w : World) : nat :=
  List.length (filter isExecutorCall (trace w)).

(** The launches made and those the suspended methods can still make are
    covered by the key presses so far. *)
Definition LaunchInv (limit presses : nat) (s : Sys) : Prop :=
  exists bs : list nat,
    Forall2 (fun b p => atMost b p) bs (tasks s) /\
    launches (world s) + list_sum bs <= limit * presses.

Definition timedController (c : Controller) : Prop :=
  timed TIdle consistent (onWillAppear c) /\
  timed TIdle consistent (onWillDisappear c) /\
  (forall st, timed TIdle consistent (onKeyDown c st)) /\
  (forall cb, timed TIdle consistent (timerCallback c cb)).

End Schedule.

Module EarlierObserve.
Import JsString Runtime Observe.

(** The shortcut the earlier ZoomMuteToggle reads from the settings. *)
Definition shortcutOfMuteV1 (settings : Settings) : string :=
  ToggleBase.orDefault truthy (keyboardShortcut settings) "cmd+shift+option+a".

(** What the catch block of a key press adds to the trace. *)
Definition toggleFailure (what : string) : list Op :=
  [Console LogError ("Failed to toggle Zoom " ++ what ++ ":");
   SetTitle ToggleBase.titleError].

(** [n] appearances of the action, one after the other. *)
Fixpoint appearances (env : Env) (appear : Prog unit) (n : nat) (w : World) : World :=
  match n with
  | 0 => w
  | S n' => appearances env appear n' (snd (run env appear w))
  end.

End EarlierObserve.

Module MoreScenarios.
Import Runtime.

(** A subclass whose probe and whose display both fail. *)
Definition failingSubclass : ToggleBase.Subclass :=
  ToggleBase.mkSubclass
    EmptyString
    (MenubarScript MuteAction)
    (Throw (AppleScriptNotExecuted "probe"))
    (fun _ => Throw (AppleScriptNotExecuted "display"))
    "failing".

(** Zoom runs, a meeting is on, and the probe sees the video off. *)
Definition envVideoOff : Env :=
  fun i => match i with
           | 0 => Scenarios.running
           | 1 => Scenarios.yes
           | _ => Closed (Some 0) "video_off" ""
           end.

(** Zoom runs, a meeting is on, and another application is frontmost. *)
Definition envInBackground : Env :=
  fun i => match i with
           | 0 => Scenarios.running
           | 1 => Scenarios.yes
           | _ => Closed (Some 0) "false" ""
           end.

(** A key that still shows the title of the time before the meeting. *)
Definition worldNotInMeeting : World :=
  mkWorld (mkFields None false Unknown) ToggleBase.titleNotInMeeting 0 [] 0 0 [].

End MoreScenarios.

(* ===================================================================== *)
(** * Properties *)
(* ===================================================================== *)

(** ** generateKeystrokeScript *)

Module KeystrokeFacts.
Import JsString Keystroke.

Lemma lowerChar_plus (c : ascii) :
  Ascii.eqb (lowerChar c) "+" = Ascii.eqb c "+".
Proof.
  destruct c as [[] [] [] [] [] [] [] []]; reflexivity.
Qed.

Lemma split_nonempty (sep : ascii) (s : string) : split sep s <> [].
Proof.
  destruct s as [|c r]; simpl; [discriminate|].
  destruct (Ascii.eqb c sep); [discriminate|].
  destruct (split sep r); discriminate.
Qed.

Lemma split_toLowerCase (s : string) :
  split "+" (toLowerCase s) = map toLowerCase (split "+" s).
Proof.
  induction s as [|c r IH]; simpl; [reflexivity|].
  rewrite lowerChar_plus, IH.
  destruct (Ascii.eqb c "+"); [reflexivity|].
  destruct (split "+" r); reflexivity.
Qed.

Lemma last_map_lower (l : list string) :
  last (map toLowerCase l) EmptyString = toLowerCase (last l EmptyString).
Proof.
  induction l as [|x [|y r] IH]; try reflexivity.
  exact IH.
Qed.

Lemma removelast_map_lower (l : list string) :
  removelast (map toLowerCase l) = map toLowerCase (removelast l).
Proof.
  induction l as [|x [|y r] IH]; try reflexivity.
  change (toLowerCase x :: removelast (map toLowerCase (y :: r))
          = toLowerCase x :: map toLowerCase (removelast (y :: r))).
  now rewrite IH.
Qed.

Lemma ownModifier_truthy (m v : string) :
  ownModifier m = Some v -> truthy v = true.
Proof.
  unfold ownModifier.
  repeat match goal with
         | |- context [if ?b then _ else _] => destruct b
         end; intros H; inversion H; reflexivity.
Qed.

Lemma truthy_app (a b : string) : truthy a = true -> truthy (a ++ b) = true.
Proof. destruct a; [discriminate | reflexivity]. Qed.

Lemma truthy_join (l : list string) :
  Forall (fun v => truthy v = true) l -> l <> [] ->
  truthy (join ", " l) = true.
Proof.
  intros Hl Hne. destruct l as [|x r]; [congruence|].
  inversion Hl as [|? ? Hx _]; subst.
  destruct r as [|y r']; [exact Hx|].
  unfold join.
  change (truthy (x ++ (", " ++ String.concat ", " (y :: r'))) = true).
  now apply truthy_app.
Qed.

(** The modifiers the code keeps are the recognized ones, as long as no
    segment spells a property inherited from Object.prototype. *)
Lemma kept_modifiers (segs : list string) :
  forallb (fun seg => negb (inheritedKey (toLowerCase seg))) segs = true ->
  map jsToString (filter jsTruthy (map modifierMap (map toLowerCase segs)))
  = flat_map (fun seg => match ownModifier (toLowerCase seg) with
                         | Some v => [v]
                         | None => []
                         end) segs.
Proof.
  induction segs as [|seg r IH]; simpl; [reflexivity|].
  intros H. apply andb_true_iff in H as [Hseg Hr].
  specialize (IH Hr).
  assert (Hm : modifierMap (toLowerCase seg)
               = match ownModifier (toLowerCase seg) with
                 | Some v => JString v
                 | None => JUndefined
                 end).
  { unfold modifierMap, inheritedKey in *.
    apply negb_true_iff, orb_false_iff in Hseg as [H1 H2].
    now rewrite H1, H2. }
  rewrite Hm.
  destruct (ownModifier (toLowerCase seg)) as [v|] eqn:Hown; simpl.
  - rewrite (ownModifier_truthy _ _ Hown). simpl. now rewrite IH.
  - exact IH.
Qed.

Lemma recognized_truthy (segs : list string) :
  Forall (fun v => truthy v = true)
         (flat_map (fun seg => match ownModifier (toLowerCase seg) with
                               | Some v => [v]
                               | None => []
                               end) segs).
Proof.
  induction segs as [|seg r IH]; simpl; [constructor|].
  destruct (ownModifier (toLowerCase seg)) as [v|] eqn:Hown; simpl; [|exact IH].
  constructor; [exact (ownModifier_truthy _ _ Hown) | exact IH].
Qed.

(** Away from the two inherited names the code computes the documented
    command. *)
Lemma generateKeystrokeScript_documented (shortcut : string) :
  forallb (fun seg => negb (inheritedKey (toLowerCase seg)))
          (removelast (split "+" shortcut)) = true ->
  generateKeystrokeScript shortcut = documentedScript shortcut.
Proof.
  intros H. unfold generateKeystrokeScript, documentedScript, keyOf, recognized.
  cbv zeta.
  rewrite split_toLowerCase, last_map_lower, removelast_map_lower.
  rewrite (kept_modifiers _ H).
  pose proof (recognized_truthy (removelast (split "+" shortcut))) as Ht.
  destruct (flat_map _ (removelast (split "+" shortcut))) as [|v r] eqn:E.
  - reflexivity.
  - rewrite truthy_join; [reflexivity | exact Ht | discriminate].
Qed.

Lemma generateKeystrokeScript_documented_witness :
  generateKeystrokeScript "Cmd+Shift+foo+V" = documentedScript "Cmd+Shift+foo+V".
Proof.
  apply (generateKeystrokeScript_documented "Cmd+Shift+foo+V"). reflexivity.
Defined.

(** C10 (the code departs from the claim). A modifier segment that spells
    [constructor] is not one of the recognized modifiers, yet it is not
    dropped: the lookup finds the function Object on the prototype chain,
    the filter keeps it, and the command carries a [using] clause, where
    the claim promises the bare [keystroke] command. *)
Theorem generateKeystrokeScript_inherited_key :
  recognized "constructor+a" = [] /\
  documentedScript "constructor+a" = "keystroke " ++ dq ++ "a" ++ dq /\
  generateKeystrokeScript "constructor+a"
  = "keystroke " ++ dq ++ "a" ++ dq ++ " using {function Object() { [native code] }}" /\
  generateKeystrokeScript "__proto__+a"
  = "keystroke " ++ dq ++ "a" ++ dq ++ " using {[object Object]}".
Proof. repeat split. Qed.

End KeystrokeFacts.

(** ** Running programs *)

Module RuntimeFacts.
Import JsString Runtime Observe.

Lemma run_bind {A B : Type} env (p : Prog A) (f : A -> Prog B) w :
  run env (bind p f) w
  = match run env p w with
    | (Returned a, w') => run env (f a) w'
    | (Thrown e, w') => (Thrown e, w')
    end.
Proof.
  revert w. induction p as [a|e|o k IH]; intros w; simpl; try reflexivity.
  destruct (perform env o w) as [x w']. apply IH.
Qed.

Lemma run_tryCatch {A : Type} env (p : Prog A) h w :
  run env (tryCatch p h) w
  = match run env p w with
    | (Returned a, w') => (Returned a, w')
    | (Thrown e, w') => run env (h e) w'
    end.
Proof.
  revert w. induction p as [a|e|o k IH]; intros w; simpl; try reflexivity.
  destruct (perform env o w) as [x w']. apply IH.
Qed.

Lemma run_tryFinally {A : Type} env (p : Prog A) f w :
  run env (tryFinally p f) w
  = match run env p w with
    | (Returned a, w') =>
        match run env f w' with
        | (Returned _, w'') => (Returned a, w'')
        | (Thrown e, w'') => (Thrown e, w'')
        end
    | (Thrown e, w') =>
        match run env f w' with
        | (Returned _, w'') => (Thrown e, w'')
        | (Thrown e', w'') => (Thrown e', w'')
        end
    end.
Proof.
  revert w. induction p as [a|e|o k IH]; intros w; simpl.
  - rewrite run_bind. destruct (run env f w) as [[u|e] w']; reflexivity.
  - rewrite run_bind. destruct (run env f w) as [[u|e'] w']; reflexivity.
  - destruct (perform env o w) as [x w']. apply IH.
Qed.

Lemma run_op env o w :
  run env (op o) w = (Returned (fst (perform env o w)), snd (perform env o w)).
Proof. unfold op; simpl. destruct (perform env o w); reflexivity. Qed.

Lemma since_app w w' l : trace w' = (trace w ++ l)%list -> since w w' = l.
Proof.
  intros H. unfold since. rewrite H.
  rewrite skipn_app, skipn_all, Nat.sub_diag. reflexivity.
Qed.

Lemma addTrace_addTrace l1 l2 w :
  addTrace l2 (addTrace l1 w) = addTrace (l1 ++ l2) w.
Proof. unfold addTrace; simpl. now rewrite app_assoc. Qed.

Lemma addTrace_nil_spawned c w : addTrace [] (spawned c w) = spawned c w.
Proof. unfold spawned, addTrace, launch; simpl. now rewrite app_nil_r. Qed.

Lemma addTrace_nil_execed c w : addTrace [] (execed c w) = execed c w.
Proof. unfold execed, addTrace, launch; simpl. now rewrite app_nil_r. Qed.

(** Every operation only extends the trace. *)
Lemma perform_trace env o w :
  exists l, trace (snd (perform env o w)) = (trace w ++ l)%list.
Proof.
  destruct o; simpl;
    first [ now exists [] ; rewrite app_nil_r | eexists; reflexivity ].
Qed.

Lemma run_trace {A : Type} env (p : Prog A) w :
  exists l, trace (snd (run env p w)) = (trace w ++ l)%list.
Proof.
  revert w. induction p as [a|e|o k IH]; intros w; simpl.
  - exists []. now rewrite app_nil_r.
  - exists []. now rewrite app_nil_r.
  - destruct (perform_trace env o w) as [l1 H1].
    destruct (perform env o w) as [x w1]. simpl in H1.
    destruct (IH x w1) as [l2 H2].
    exists (l1 ++ l2)%list. now rewrite H2, H1, app_assoc.
Qed.

End RuntimeFacts.

(** ** The detector *)

Module MonitorFacts.
Import JsString Runtime Observe RuntimeFacts.

Lemma run_executeAppleScript env s w :
  run env (Monitor.executeAppleScript s) w
  = (match scriptOutput (env (launched w)) with
     | Some out => Returned out
     | None => Thrown (rejection (env (launched w)))
     end, spawned (Osascript s) w).
Proof.
  unfold Monitor.executeAppleScript; simpl.
  destruct (env (launched w)) as [[[|n]|] out err|msg]; reflexivity.
Qed.

Lemma run_executeCommand env c w :
  exists r, run env (Monitor.executeCommand c) w = (r, spawned c w) /\
            match r with
            | Returned out => scriptOutput (env (launched w)) = Some out
            | Thrown _ => scriptOutput (env (launched w)) = None
            end.
Proof.
  unfold Monitor.executeCommand; simpl.
  destruct (env (launched w)) as [[[|n]|] out err|msg];
    eexists; split; reflexivity.
Qed.

Lemma run_detectZoomMuteState env w :
  run env Monitor.detectZoomMuteState w
  = (Returned (muteStateOf (env (launched w))),
     addTrace (probeLogs "muted" "unmuted"
                 "Zoom mute detection AppleScript error:"
                 "Zoom mute detection failed:" (env (launched w)))
              (spawned (Osascript DetectMuteScript) w)).
Proof.
  unfold Monitor.detectZoomMuteState.
  rewrite run_tryCatch, run_bind, run_executeAppleScript.
  unfold muteStateOf, probeLogs.
  destruct (scriptOutput (env (launched w))) as [out|]; [|reflexivity].
  destruct (String.eqb out "muted");
    [simpl; now rewrite addTrace_nil_spawned|].
  destruct (String.eqb out "unmuted");
    [simpl; now rewrite addTrace_nil_spawned|].
  destruct (startsWith "error:" out); simpl;
    [reflexivity | now rewrite addTrace_nil_spawned].
Qed.

Lemma run_detectZoomVideoState env w :
  run env Monitor.detectZoomVideoState w
  = (Returned (videoStateOf (env (launched w))),
     addTrace (probeLogs "video_on" "video_off"
                 "Zoom video detection AppleScript error:"
                 "Zoom video detection failed:" (env (launched w)))
              (spawned (Osascript DetectVideoScript) w)).
Proof.
  unfold Monitor.detectZoomVideoState.
  rewrite run_tryCatch, run_bind, run_executeAppleScript.
  unfold videoStateOf, probeLogs.
  destruct (scriptOutput (env (launched w))) as [out|]; [|reflexivity].
  destruct (String.eqb out "video_on");
    [simpl; now rewrite addTrace_nil_spawned|].
  destruct (String.eqb out "video_off");
    [simpl; now rewrite addTrace_nil_spawned|].
  destruct (startsWith "error:" out); simpl;
    [reflexivity | now rewrite addTrace_nil_spawned].
Qed.

Lemma run_getAudioState env w :
  fst (run env Monitor.getAudioState w)
  = Returned (Monitor.mkState (muteStateOf (env (launched w)))
                (if recognizedMute (env (launched w))
                 then Monitor.High else Monitor.Low)).
Proof.
  unfold Monitor.getAudioState.
  rewrite run_bind, run_detectZoomMuteState. simpl.
  unfold muteStateOf, recognizedMute.
  destruct (scriptOutput (env (launched w))) as [out|]; [|reflexivity].
  destruct (String.eqb out "muted"); [reflexivity|].
  destruct (String.eqb out "unmuted"); reflexivity.
Qed.

Lemma run_getVideoState env w :
  fst (run env Monitor.getVideoState w)
  = Returned (Monitor.mkState (videoStateOf (env (launched w)))
                (if recognizedVideo (env (launched w))
                 then Monitor.High else Monitor.Low)).
Proof.
  unfold Monitor.getVideoState.
  rewrite run_bind, run_detectZoomVideoState. simpl.
  unfold videoStateOf, recognizedVideo.
  destruct (scriptOutput (env (launched w))) as [out|]; [|reflexivity].
  destruct (String.eqb out "video_on"); [reflexivity|].
  destruct (String.eqb out "video_off"); reflexivity.
Qed.

Lemma unknown_unless_recognized_mute o :
  isUnknown (muteStateOf o) = negb (recognizedMute o).
Proof.
  unfold muteStateOf, recognizedMute.
  destruct (scriptOutput o) as [out|]; [|reflexivity].
  destruct (String.eqb out "muted"); [reflexivity|].
  destruct (String.eqb out "unmuted"); reflexivity.
Qed.

Lemma unknown_unless_recognized_video o :
  isUnknown (videoStateOf o) = negb (recognizedVideo o).
Proof.
  unfold videoStateOf, recognizedVideo.
  destruct (scriptOutput o) as [out|]; [|reflexivity].
  destruct (String.eqb out "video_on"); [reflexivity|].
  destruct (String.eqb out "video_off"); reflexivity.
Qed.

(** C8. Whatever way the probe process ends, [detectZoomMuteState] and
    [detectZoomVideoState] return a value and never throw: the state the
    script printed when it is one of the two known words, and Unknown for
    every other end of the process (a rejected launch, an exit code that
    is not 0, any other output such as no_meeting or an error text);
    [getAudioState] and [getVideoState] pair Unknown with Low confidence
    and the known states with High. *)
Theorem detector_always_returns env w :
  let o := env (launched w) in
  fst (run env Monitor.detectZoomMuteState w) = Returned (muteStateOf o) /\
  fst (run env Monitor.detectZoomVideoState w) = Returned (videoStateOf o) /\
  isUnknown (muteStateOf o) = negb (recognizedMute o) /\
  isUnknown (videoStateOf o) = negb (recognizedVideo o) /\
  fst (run env Monitor.getAudioState w)
  = Returned (Monitor.mkState (muteStateOf o)
                (if isUnknown (muteStateOf o) then Monitor.Low else Monitor.High)) /\
  fst (run env Monitor.getVideoState w)
  = Returned (Monitor.mkState (videoStateOf o)
                (if isUnknown (videoStateOf o) then Monitor.Low else Monitor.High)).
Proof.
  cbv zeta.
  rewrite run_detectZoomMuteState, run_detectZoomVideoState,
    run_getAudioState, run_getVideoState.
  rewrite !unknown_unless_recognized_mute, !unknown_unless_recognized_video.
  repeat split;
    [destruct (recognizedMute _) | destruct (recognizedVideo _)]; reflexivity.
Qed.

(** The failures the probe absorbs, one by one. *)
Example probe_failures :
  muteStateOf (SpawnError "ENOENT") = Unknown /\
  muteStateOf (Closed (Some 1) "muted" "execution error") = Unknown /\
  muteStateOf (Closed None "" "") = Unknown /\
  muteStateOf (Closed (Some 0) "no_meeting" "") = Unknown /\
  muteStateOf (Closed (Some 0) "error: not allowed" "") = Unknown /\
  muteStateOf (Closed (Some 0) "unknown" "") = Unknown /\
  videoStateOf (Closed (Some 0) "no_meeting" "") = Unknown /\
  videoStateOf (Closed (Some 2) "" "boom") = Unknown.
Proof. repeat split. Qed.

Lemma run_twice_fst {A : Type} env (p : Prog A) w a1 w1 a2 :
  run env p w = (Returned a1, w1) ->
  fst (run env p w1) = Returned a2 ->
  fst (run env (twice p) w) = Returned (a1, a2).
Proof.
  intros H1 H2. unfold twice.
  rewrite run_bind, H1, run_bind.
  destruct (run env p w1) as [r w2]. simpl in H2. subst r. reflexivity.
Qed.

Lemma run_getAudioState_world env w :
  exists w1, run env Monitor.getAudioState w
             = (Returned (Monitor.mkState (muteStateOf (env (launched w)))
                            (if recognizedMute (env (launched w))
                             then Monitor.High else Monitor.Low)), w1)
             /\ launched w1 = S (launched w).
Proof.
  pose proof (run_getAudioState env w) as H.
  unfold Monitor.getAudioState in *.
  rewrite run_bind, run_detectZoomMuteState in *. simpl in *.
  eexists; split.
  - apply f_equal2; [exact H | reflexivity].
  - reflexivity.
Qed.

Lemma run_getVideoState_world env w :
  exists w1, run env Monitor.getVideoState w
             = (Returned (Monitor.mkState (videoStateOf (env (launched w)))
                            (if recognizedVideo (env (launched w))
                             then Monitor.High else Monitor.Low)), w1)
             /\ launched w1 = S (launched w).
Proof.
  pose proof (run_getVideoState env w) as H.
  unfold Monitor.getVideoState in *.
  rewrite run_bind, run_detectZoomVideoState in *. simpl in *.
  eexists; split.
  - apply f_equal2; [exact H | reflexivity].
  - reflexivity.
Qed.

(** C9 (as the code has it). ZoomMonitor keeps no result between calls:
    when the probe of an invocation yields no known state, that invocation
    returns Unknown with Low confidence whatever the invocation before it
    returned. *)
Theorem detector_unknown_after_any_result env w :
  recognizedMute (env (S (launched w))) = false ->
  recognizedVideo (env (S (launched w))) = false ->
  fst (run env (twice Monitor.getAudioState) w)
  = Returned (Monitor.mkState (muteStateOf (env (launched w)))
                (if recognizedMute (env (launched w))
                 then Monitor.High else Monitor.Low),
              Monitor.mkState Unknown Monitor.Low) /\
  fst (run env (twice Monitor.getVideoState) w)
  = Returned (Monitor.mkState (videoStateOf (env (launched w)))
                (if recognizedVideo (env (launched w))
                 then Monitor.High else Monitor.Low),
              Monitor.mkState Unknown Monitor.Low).
Proof.
  intros Hm Hv. split.
  - destruct (run_getAudioState_world env w) as [w1 [H1 L1]].
    apply (run_twice_fst env _ w _ w1 _ H1).
    rewrite run_getAudioState, L1, Hm.
    pose proof (unknown_unless_recognized_mute (env (S (launched w)))) as U.
    rewrite Hm in U. simpl in U.
    destruct (muteStateOf (env (S (launched w)))); try discriminate; reflexivity.
  - destruct (run_getVideoState_world env w) as [w1 [H1 L1]].
    apply (run_twice_fst env _ w _ w1 _ H1).
    rewrite run_getVideoState, L1, Hv.
    pose proof (unknown_unless_recognized_video (env (S (launched w)))) as U.
    rewrite Hv in U. simpl in U.
    destruct (videoStateOf (env (S (launched w)))); try discriminate; reflexivity.
Qed.

Lemma detector_unknown_after_any_result_witness :
  fst (run Scenarios.envMutedThenNoMeeting (twice Monitor.getAudioState) initialWorld)
  = Returned (Monitor.mkState Muted Monitor.High,
              Monitor.mkState Unknown Monitor.Low).
Proof.
  apply (detector_unknown_after_any_result Scenarios.envMutedThenNoMeeting initialWorld);
    reflexivity.
Defined.

(** C9 (the claim fails). After a detection that confirmed Muted, an
    invocation whose probe yields nothing returns Unknown, not Muted. *)
Lemma detector_does_not_return_previous_state :
  fst (run Scenarios.envMutedThenNoMeeting (twice Monitor.getAudioState) initialWorld)
  = Returned (Monitor.mkState Muted Monitor.High,
              Monitor.mkState Unknown Monitor.Low)
  /\ Monitor.mkState Unknown Monitor.Low <> Monitor.mkState Muted Monitor.Low.
Proof. split; [reflexivity | discriminate]. Qed.

End MonitorFacts.

(** ** ZoomToggleBase: its methods, run one at a time *)

Module BaseFacts.
Import JsString Keystroke Runtime Observe RuntimeFacts MonitorFacts ToggleBase.

Lemma addTrace_nil w : addTrace [] w = w.
Proof. destruct w; unfold addTrace; simpl. now rewrite app_nil_r. Qed.

Lemma afterCalls_afterCalls n1 l1 n2 l2 w :
  afterCalls n2 l2 (afterCalls n1 l1 w) = afterCalls (n2 + n1) (l1 ++ l2) w.
Proof.
  unfold afterCalls; simpl. now rewrite app_assoc, Nat.add_assoc.
Qed.

Lemma run_isZoomRunning env w :
  run env isZoomRunning w
  = (Returned (processPresent (env (launched w))), spawned Pgrep w).
Proof.
  unfold isZoomRunning, executeCommand, Monitor.executeCommand, processPresent.
  simpl. destruct (env (launched w)) as [[[|n]|] out err|msg]; reflexivity.
Qed.

Lemma run_isInMeeting env w :
  run env isInMeeting w
  = (Returned (sessionActive (env (launched w))),
     addTrace (meetingLogs (env (launched w)))
              (spawned (Osascript CheckMeetingScript) w)).
Proof.
  unfold isInMeeting, executeAppleScript.
  rewrite run_tryCatch, run_bind, run_executeAppleScript.
  unfold sessionActive, meetingLogs, succeeded.
  destruct (scriptOutput (env (launched w))) as [out|]; simpl.
  - reflexivity.
  - now rewrite addTrace_nil_spawned.
Qed.

Lemma run_cleanup env w : run env cleanup w = (Returned tt, cleaned w).
Proof.
  unfold cleanup, cleaned; cbn.
  destruct (stateCheckInterval (fields w)) as [id|]; reflexivity.
Qed.

Lemma run_forEach_warn env (cond : string -> bool) (msg : string -> string) l w :
  run env (forEach l (fun m => when (cond m) (op (Console LogWarn (msg m))))) w
  = (Returned tt,
     addTrace (flat_map (fun m => if cond m then [Console LogWarn (msg m)] else []) l) w).
Proof.
  revert w. induction l as [|m r IH]; intros w; simpl.
  - now rewrite addTrace_nil.
  - rewrite run_bind. destruct (cond m); simpl.
    + rewrite IH. now rewrite addTrace_addTrace.
    + apply IH.
Qed.

Lemma run_validateKeyboardShortcut env shortcut w :
  truthy shortcut = true ->
  run env (validateKeyboardShortcut shortcut) w
  = (Returned shortcut, addTrace (validateLogs shortcut) w).
Proof.
  intros Ht. unfold validateKeyboardShortcut. rewrite Ht. simpl negb. cbv iota zeta.
  destruct (split "+" (toLowerCase shortcut)) as [|p ps] eqn:E.
  - exfalso. exact (KeystrokeFacts.split_nonempty _ _ E).
  - change (List.length (p :: ps) =? 0) with false. cbv iota.
    rewrite run_bind.
    rewrite (run_forEach_warn env
               (fun m => negb (includes validModifiers m))
               (fun m => "Unknown modifier '" ++ m ++ "' in shortcut: " ++ shortcut)).
    unfold validateLogs. rewrite E. reflexivity.
Qed.

Lemma truthy_shortcutOf sub settings :
  truthy (getDefaultShortcut sub) = true ->
  truthy (shortcutOf sub settings) = true.
Proof.
  intros H. unfold shortcutOf, orDefault.
  destruct (keyboardShortcut settings) as [s|]; [|exact H].
  destruct (truthy s) eqn:E; [exact E | exact H].
Qed.

Lemma afterCalls_eq n n' l l' w :
  n = n' -> l = l' -> afterCalls n l w = afterCalls n' l' w.
Proof. now intros -> ->. Qed.

Lemma succeeded_false o : succeeded o = false -> scriptOutput o = None.
Proof. unfold succeeded. destruct (scriptOutput o); [discriminate | reflexivity]. Qed.

Lemma succeeded_true o : succeeded o = true -> exists out, scriptOutput o = Some out.
Proof. unfold succeeded. destruct (scriptOutput o) as [out|]; [eauto | discriminate]. Qed.

Section Retry.

Variable config : ZoomToggleConfig.
Variable sub : Subclass.
Variable env : Env.
Variable method : ControlMethod.
Variable shortcut : string.

Let script : Cmd := Osascript (toggleScript config sub method shortcut).

Lemma retryLoop_S fuel attempt :
  retryLoop config sub method shortcut (S fuel) attempt
  = if attempt <? maxRetryAttempts config then
      tryCatch
        (executeAppleScript (toggleScript config sub method shortcut) ;; Ret tt)
        (fun error =>
           if maxRetryAttempts config <=? S attempt then Throw error
           else
             delay (retryDelay config * S attempt) ;;
             retryLoop config sub method shortcut fuel (S attempt))
    else Ret tt.
Proof. reflexivity. Qed.

(** One iteration of the retry loop whose attempt fails. *)
Lemma retryLoop_failed_attempt fuel attempt w :
  attempt < maxRetryAttempts config ->
  succeeded (env (launched w)) = false ->
  run env (retryLoop config sub method shortcut (S fuel) attempt) w
  = if maxRetryAttempts config <=? S attempt
    then (Thrown (rejection (env (launched w))), spawned script w)
    else run env (retryLoop config sub method shortcut fuel (S attempt))
             (addTrace [Sleep (retryDelay config * S attempt)] (spawned script w)).
Proof.
  intros Hlt Hfail. rewrite retryLoop_S.
  apply Nat.ltb_lt in Hlt. rewrite Hlt.
  unfold executeAppleScript.
  rewrite run_tryCatch, run_bind, run_executeAppleScript.
  rewrite (succeeded_false _ Hfail).
  fold script.
  destruct (maxRetryAttempts config <=? S attempt); [reflexivity|].
  rewrite run_bind. reflexivity.
Qed.

Lemma retryLoop_successful_attempt fuel attempt w :
  attempt < maxRetryAttempts config ->
  succeeded (env (launched w)) = true ->
  run env (retryLoop config sub method shortcut (S fuel) attempt) w
  = (Returned tt, spawned script w).
Proof.
  intros Hlt Hok. rewrite retryLoop_S.
  apply Nat.ltb_lt in Hlt. rewrite Hlt.
  unfold executeAppleScript.
  rewrite run_tryCatch, run_bind, run_executeAppleScript.
  destruct (succeeded_true _ Hok) as [out Hout]. rewrite Hout. reflexivity.
Qed.

(** [n] failures, then a success: [n + 1] attempts, a delay of
    [retryDelay * k] after the [k]-th failure, and a normal return. *)
Lemma retryLoop_success n : forall fuel attempt w,
  attempt + n < maxRetryAttempts config ->
  n < fuel ->
  (forall k, k < n -> succeeded (env (k + launched w)) = false) ->
  succeeded (env (n + launched w)) = true ->
  run env (retryLoop config sub method shortcut fuel attempt) w
  = (Returned tt,
     afterCalls (S n)
       (backoffSteps script (retryDelay config) n attempt ++ [Spawn script]) w).
Proof.
  induction n as [|n IH]; intros fuel attempt w Hmax Hfuel Hfail Hok.
  - destruct fuel as [|fuel]; [lia|].
    rewrite retryLoop_successful_attempt; [reflexivity | lia | exact Hok].
  - destruct fuel as [|fuel]; [lia|].
    rewrite retryLoop_failed_attempt; [| lia | apply (Hfail 0); lia].
    assert (Hle : (maxRetryAttempts config <=? S attempt) = false)
      by (apply Nat.leb_gt; lia).
    rewrite Hle.
    rewrite IH; [| lia | lia | |].
    + f_equal. unfold addTrace, spawned, launch, afterCalls; simpl.
      f_equal; [lia | now rewrite <- !app_assoc].
    + intros k Hk. simpl. replace (k + S (launched w)) with (S k + launched w) by lia.
      apply Hfail. lia.
    + simpl. replace (n + S (launched w)) with (S n + launched w) by lia.
      exact Hok.
Qed.

(** Every attempt fails: [d] attempts are made, the last failure is thrown. *)
Lemma retryLoop_exhausted d : forall fuel attempt w,
  attempt + S d = maxRetryAttempts config ->
  d < fuel ->
  (forall k, k <= d -> succeeded (env (k + launched w)) = false) ->
  run env (retryLoop config sub method shortcut fuel attempt) w
  = (Thrown (rejection (env (d + launched w))),
     afterCalls (S d)
       (backoffSteps script (retryDelay config) d attempt ++ [Spawn script]) w).
Proof.
  induction d as [|d IH]; intros fuel attempt w Hmax Hfuel Hfail.
  - destruct fuel as [|fuel]; [lia|].
    rewrite retryLoop_failed_attempt; [| lia | apply (Hfail 0); lia].
    assert (Hle : (maxRetryAttempts config <=? S attempt) = true)
      by (apply Nat.leb_le; lia).
    rewrite Hle. reflexivity.
  - destruct fuel as [|fuel]; [lia|].
    rewrite retryLoop_failed_attempt; [| lia | apply (Hfail 0); lia].
    assert (Hle : (maxRetryAttempts config <=? S attempt) = false)
      by (apply Nat.leb_gt; lia).
    rewrite Hle.
    rewrite IH; [| lia | lia |].
    + replace (d + launched (addTrace [Sleep (retryDelay config * S attempt)]
                                      (spawned script w)))
        with (S d + launched w) by (simpl; lia).
      f_equal.
      unfold addTrace, spawned, launch, afterCalls; simpl.
      f_equal; [lia | now rewrite <- !app_assoc].
    + intros k Hk. simpl. replace (k + S (launched w)) with (S k + launched w) by lia.
      apply Hfail. lia.
Qed.

(** The fuel of [retryLoop] never cuts the loop short: with at least
    [maxRetryAttempts - attempt] of it the result is the same. *)
Lemma retryLoop_fuel fuel : forall fuel' attempt,
  maxRetryAttempts config <= fuel + attempt ->
  maxRetryAttempts config <= fuel' + attempt ->
  retryLoop config sub method shortcut fuel attempt
  = retryLoop config sub method shortcut fuel' attempt.
Proof.
  induction fuel as [|fuel IH]; intros fuel' attempt H H'.
  - simpl. destruct fuel' as [|fuel']; [reflexivity|]. simpl.
    assert (Hge : (attempt <? maxRetryAttempts config) = false)
      by (apply Nat.ltb_ge; lia).
    now rewrite Hge.
  - destruct fuel' as [|fuel'].
    + simpl.
      assert (Hge : (attempt <? maxRetryAttempts config) = false)
        by (apply Nat.ltb_ge; lia).
      now rewrite Hge.
    + simpl. destruct (attempt <? maxRetryAttempts config) eqn:E; [|reflexivity].
      f_equal.
      destruct (maxRetryAttempts config <=? S attempt) eqn:E2.
      * reflexivity.
      * apply Nat.leb_gt in E2.
        assert (Heq : retryLoop config sub method shortcut fuel (S attempt)
                      = retryLoop config sub method shortcut fuel' (S attempt))
          by (apply IH; lia).
        now rewrite Heq.
Qed.

End Retry.

(** *** What [cleanup] leaves alone *)

Lemma launched_cleaned w : launched (cleaned w) = launched w.
Proof. unfold cleaned. destruct (stateCheckInterval (fields w)); reflexivity. Qed.

Lemma title_cleaned w : title (cleaned w) = title w.
Proof. unfold cleaned. destruct (stateCheckInterval (fields w)); reflexivity. Qed.

Lemma button_cleaned w : button (cleaned w) = button w.
Proof. unfold cleaned. destruct (stateCheckInterval (fields w)); reflexivity. Qed.

Lemma trace_cleaned w : trace (cleaned w) = (trace w ++ cleanupSteps w)%list.
Proof.
  unfold cleaned, cleanupSteps.
  destruct (stateCheckInterval (fields w)); simpl; [reflexivity|].
  now rewrite app_nil_r.
Qed.

Lemma isUpdating_cleaned w :
  isUpdating (fields (cleaned w)) = isUpdating (fields w).
Proof. unfold cleaned. destruct (stateCheckInterval (fields w)); reflexivity. Qed.

Lemma lastKnownState_cleaned w :
  lastKnownState (fields (cleaned w)) = lastKnownState (fields w).
Proof. unfold cleaned. destruct (stateCheckInterval (fields w)); reflexivity. Qed.

Lemma filter_cleanupSteps f w :
  (forall id, f (ClearInterval id) = false) -> filter f (cleanupSteps w) = [].
Proof.
  intros H. unfold cleanupSteps.
  destruct (stateCheckInterval (fields w)); simpl; [now rewrite H | reflexivity].
Qed.

Lemma filter_flat_map_nil {A : Type} (f : Op -> bool) (g : A -> list Op) l :
  (forall x, filter f (g x) = []) -> filter f (flat_map g l) = [].
Proof.
  intros H. induction l as [|x r IH]; [reflexivity|].
  change (flat_map g (x :: r)) with (g x ++ flat_map g r)%list.
  now rewrite filter_app, H, IH.
Qed.

Lemma filter_validateLogs f shortcut :
  (forall l t, f (Console l t) = false) -> filter f (validateLogs shortcut) = [].
Proof.
  intros H. unfold validateLogs. apply filter_flat_map_nil. intros m.
  destruct (negb (includes validModifiers m)); simpl; [now rewrite H | reflexivity].
Qed.

Lemma filter_meetingLogs f o :
  (forall l t, f (Console l t) = false) -> filter f (meetingLogs o) = [].
Proof.
  intros H. unfold meetingLogs. destruct (succeeded o); simpl;
    [now rewrite H | reflexivity].
Qed.

Lemma filter_probeLogs f a b c d o :
  (forall l t, f (Console l t) = false) -> filter f (probeLogs a b c d o) = [].
Proof.
  intros H. unfold probeLogs.
  destruct (scriptOutput o) as [out|]; simpl; [|now rewrite H].
  destruct (String.eqb out a); [reflexivity|].
  destruct (String.eqb out b); [reflexivity|].
  destruct (startsWith "error:" out); simpl; [now rewrite H | reflexivity].
Qed.

(** *** The key press when Zoom is not running *)

Lemma run_onKeyDown_absent config sub env w settings :
  processPresent (env (launched w)) = false ->
  run env (onKeyDown config sub settings) w
  = (Returned tt,
     withTitle titleNotRunning
       (addTrace [SetTitle titleNotRunning] (spawned Pgrep (cleaned w)))).
Proof.
  intros Habs. unfold onKeyDown.
  rewrite run_tryCatch, run_bind, run_cleanup, run_bind, run_isZoomRunning.
  rewrite launched_cleaned, Habs. reflexivity.
Qed.

(** *** [updateState] *)

Lemma run_updateState_busy sub env w :
  isUpdating (fields w) = true ->
  run env (updateState sub) w = (Returned tt, w).
Proof. intros H. unfold updateState. simpl. now rewrite H. Qed.

Lemma run_updateState_absent sub env w :
  isUpdating (fields w) = false ->
  processPresent (env (launched w)) = false ->
  run env (updateState sub) w
  = (Returned tt,
     released (withTitle titleNotRunning
                 (addTrace [SetTitle titleNotRunning]
                           (spawned Pgrep (acquired w))))).
Proof.
  intros Hfree Habs. unfold updateState.
  rewrite run_bind, run_op. simpl fst. simpl snd. rewrite Hfree.
  rewrite run_bind, run_op. simpl fst. simpl snd.
  rewrite run_tryFinally, run_tryCatch, run_bind, run_isZoomRunning.
  change (launched (withFields _ w)) with (launched w).
  rewrite Habs. reflexivity.
Qed.

(** C4. When the availability check finds no zoom.us process, a key press
    and an update cycle launch nothing but that check: no probe of the
    Detector, no toggle command of the Executor; the key shows the fixed
    title of an absent Zoom and keeps its state. *)
Theorem absent_process_no_calls config sub env w settings :
  processPresent (env (launched w)) = false ->
  (let w' := snd (run env (onKeyDown config sub settings) w) in
   since w w' = (cleanupSteps w ++ [Spawn Pgrep; SetTitle titleNotRunning])%list /\
   filter isDetectorCall (since w w') = [] /\
   filter isExecutorCall (since w w') = [] /\
   title w' = titleNotRunning /\
   button w' = button w) /\
  (isUpdating (fields w) = false ->
   let w' := snd (run env (updateState sub) w) in
   since w w' = [Spawn Pgrep; SetTitle titleNotRunning] /\
   filter isDetectorCall (since w w') = [] /\
   filter isExecutorCall (since w w') = [] /\
   title w' = titleNotRunning /\
   button w' = button w).
Proof.
  intros Habs. split.
  - rewrite (run_onKeyDown_absent config sub env w settings Habs). cbv zeta.
    assert (Hs : since w (snd (Returned tt,
                   withTitle titleNotRunning
                     (addTrace [SetTitle titleNotRunning] (spawned Pgrep (cleaned w)))))
                 = (cleanupSteps w ++ [Spawn Pgrep; SetTitle titleNotRunning])%list).
    { apply since_app. simpl. rewrite trace_cleaned.
      now rewrite <- !app_assoc. }
    rewrite Hs. repeat split.
    + rewrite filter_app, filter_cleanupSteps by reflexivity. reflexivity.
    + rewrite filter_app, filter_cleanupSteps by reflexivity. reflexivity.
    + simpl. apply button_cleaned.
  - intros Hfree.
    rewrite (run_updateState_absent sub env w Hfree Habs). cbv zeta.
    assert (Hs : since w (snd (Returned tt,
                   released (withTitle titleNotRunning
                     (addTrace [SetTitle titleNotRunning]
                               (spawned Pgrep (acquired w))))))
                 = [Spawn Pgrep; SetTitle titleNotRunning]).
    { apply since_app. simpl. now rewrite <- !app_assoc. }
    rewrite Hs. repeat split.
Qed.

(** *** The key press when Zoom is running *)

Lemma run_onKeyDown_present config sub env w settings :
  truthy (getDefaultShortcut sub) = true ->
  processPresent (env (launched w)) = true ->
  run env (onKeyDown config sub settings) w
  = match run env (executeToggleAction config sub (methodOf settings)
                                       (shortcutOf sub settings))
              (addTrace (validateLogs (shortcutOf sub settings))
                        (spawned Pgrep (cleaned w))) with
    | (Returned _, w3) =>
        (Returned tt,
         addTimer false VerifyCallback (stateUpdateDelay config)
                  (addTrace [SetTimeout VerifyCallback (stateUpdateDelay config)] w3))
    | (Thrown _, w3) =>
        (Returned tt,
         withTitle titleError
           (addTrace [Console LogError
                        ("Failed to toggle Zoom " ++ getActionType sub ++ ":");
                      SetTitle titleError] w3))
    end.
Proof.
  intros Hdef Hpres. unfold onKeyDown.
  rewrite run_tryCatch, run_bind, run_cleanup, run_bind, run_isZoomRunning.
  rewrite launched_cleaned, Hpres. simpl negb. cbv iota.
  rewrite run_bind.
  fold (shortcutOf sub settings). fold (methodOf settings).
  rewrite (run_validateKeyboardShortcut env _ _ (truthy_shortcutOf sub settings Hdef)).
  rewrite run_bind.
  destruct (run env (executeToggleAction config sub (methodOf settings)
                                         (shortcutOf sub settings)) _)
    as [[u|e] w3].
  - reflexivity.
  - simpl. unfold addTrace; simpl. now rewrite <- !app_assoc.
Qed.

Lemma executorSteps_backoff script retryDelay n attempt :
  isExecutorCall (Spawn script) = true ->
  executorSteps (backoffSteps script retryDelay n attempt)
  = backoffSteps script retryDelay n attempt.
Proof.
  intros H. revert attempt.
  induction n as [|n IH]; intros attempt; [reflexivity|].
  unfold executorSteps in *. cbn [backoffSteps filter]. rewrite H.
  cbn [orb isSleep]. now rewrite IH.
Qed.

Lemma count_backoff f script retryDelay n attempt :
  f (Spawn script) = true -> (forall ms, f (Sleep ms) = false) ->
  List.length (filter f (backoffSteps script retryDelay n attempt)) = n.
Proof.
  intros H1 H2. revert attempt.
  induction n as [|n IH]; intros attempt; [reflexivity|].
  cbn [backoffSteps filter]. rewrite H1, H2. cbn [List.length]. now rewrite IH.
Qed.

Lemma filter_backoff_nil f script retryDelay n attempt :
  f (Spawn script) = false -> (forall ms, f (Sleep ms) = false) ->
  filter f (backoffSteps script retryDelay n attempt) = [].
Proof.
  intros H1 H2. revert attempt.
  induction n as [|n IH]; intros attempt; [reflexivity|].
  cbn [backoffSteps filter]. rewrite H1, H2. apply IH.
Qed.

Lemma isExecutorCall_toggle config kind method shortcut :
  isExecutorCall
    (Spawn (Osascript (toggleScript config (subclass kind) method shortcut))) = true.
Proof. destruct kind, method; reflexivity. Qed.

Lemma truthy_default kind : truthy (getDefaultShortcut (subclass kind)) = true.
Proof. destruct kind; reflexivity. Qed.

(** *** The Executor inside a key press *)

Section Activation.

Variable config : ZoomToggleConfig.
Variable kind : ActionKind.
Variable env : Env.
Variable w : World.
Variable settings : Settings.

Let sub : Subclass := subclass kind.
Let script : Cmd :=
  Osascript (toggleScript config sub (methodOf settings) (shortcutOf sub settings)).
Let result : Outcome unit * World := run env (onKeyDown config sub settings) w.

Hypothesis present : processPresent (env (launched w)) = true.

(** [n] failed attempts and then a successful one. *)
Lemma onKeyDown_backoff n :
  n < maxRetryAttempts config ->
  (forall k, k < n -> succeeded (env (S k + launched w)) = false) ->
  succeeded (env (S n + launched w)) = true ->
  fst result = Returned tt /\
  executorSteps (since w (snd result))
  = (backoffSteps script (retryDelay config) n 0 ++ [Spawn script])%list /\
  launched (snd result) = S (S n) + launched w /\
  filter isSetTimeout (since w (snd result))
  = [SetTimeout VerifyCallback (stateUpdateDelay config)] /\
  title (snd result) = title w /\
  button (snd result) = button w /\
  filter isSetState (since w (snd result)) = [].
Proof.
  intros Hn Hfail Hok. subst result.
  assert (He : isExecutorCall (Spawn script) = true)
    by apply isExecutorCall_toggle.
  rewrite (run_onKeyDown_present config sub env w settings
             (truthy_default kind) present).
  unfold executeToggleAction.
  rewrite (retryLoop_success config sub env (methodOf settings)
             (shortcutOf sub settings) n); try lia.
  - fold script. cbn [fst snd].
    assert (Ht : trace (addTimer false VerifyCallback (stateUpdateDelay config)
                   (addTrace [SetTimeout VerifyCallback (stateUpdateDelay config)]
                      (afterCalls (S n)
                         (backoffSteps script (retryDelay config) n 0 ++ [Spawn script])
                         (addTrace (validateLogs (shortcutOf sub settings))
                            (spawned Pgrep (cleaned w))))))
                 = (trace w ++ cleanupSteps w ++ [Spawn Pgrep]
                      ++ validateLogs (shortcutOf sub settings)
                      ++ (backoffSteps script (retryDelay config) n 0 ++ [Spawn script])
                      ++ [SetTimeout VerifyCallback (stateUpdateDelay config)])%list).
    { simpl. rewrite trace_cleaned. now rewrite <- !app_assoc. }
    rewrite (since_app _ _ _ Ht).
    split; [reflexivity|].
    split.
    { unfold executorSteps. rewrite !filter_app.
      rewrite filter_cleanupSteps by reflexivity.
      rewrite filter_validateLogs by reflexivity.
      fold (executorSteps (backoffSteps script (retryDelay config) n 0)).
      rewrite executorSteps_backoff by apply isExecutorCall_toggle.
      cbn [filter app]. rewrite He.
      cbn [orb isExecutorCall isSleep app]. now rewrite app_nil_r. }
    split; [simpl; rewrite launched_cleaned; lia|].
    split.
    { rewrite !filter_app.
      rewrite filter_cleanupSteps by reflexivity.
      rewrite filter_validateLogs by reflexivity.
      rewrite filter_backoff_nil by reflexivity.
      reflexivity. }
    split; [simpl; apply title_cleaned|].
    split; [simpl; apply button_cleaned|].
    rewrite !filter_app.
    rewrite filter_cleanupSteps by reflexivity.
    rewrite filter_validateLogs by reflexivity.
    rewrite filter_backoff_nil by reflexivity.
    reflexivity.
  - intros k Hk. simpl. rewrite launched_cleaned.
    replace (k + S (launched w)) with (S k + launched w) by lia. now apply Hfail.
  - simpl. rewrite launched_cleaned.
    replace (n + S (launched w)) with (S n + launched w) by lia. exact Hok.
Qed.

(** Every attempt fails. *)
Lemma onKeyDown_exhausted :
  0 < maxRetryAttempts config ->
  (forall k, k < maxRetryAttempts config ->
             succeeded (env (S k + launched w)) = false) ->
  fst result = Returned tt /\
  title (snd result) = titleError /\
  button (snd result) = button w /\
  lastKnownState (fields (snd result)) = lastKnownState (fields w) /\
  filter isSetTimeout (since w (snd result)) = [] /\
  pendingTimeouts (snd result) = pendingTimeouts (cleaned w) /\
  List.length (filter isExecutorCall (since w (snd result)))
  = maxRetryAttempts config.
Proof.
  intros Hpos Hfail. subst result.
  assert (He : isExecutorCall (Spawn script) = true)
    by apply isExecutorCall_toggle.
  rewrite (run_onKeyDown_present config sub env w settings
             (truthy_default kind) present).
  unfold executeToggleAction.
  destruct (maxRetryAttempts config) as [|d] eqn:Hmax; [lia|].
  rewrite (retryLoop_exhausted config sub env (methodOf settings)
             (shortcutOf sub settings) d); try lia.
  - fold script. cbn [fst snd].
    assert (Ht : trace (withTitle titleError
                   (addTrace [Console LogError
                                ("Failed to toggle Zoom " ++ getActionType sub ++ ":");
                              SetTitle titleError]
                      (afterCalls (S d)
                         (backoffSteps script (retryDelay config) d 0 ++ [Spawn script])
                         (addTrace (validateLogs (shortcutOf sub settings))
                            (spawned Pgrep (cleaned w))))))
                 = (trace w ++ cleanupSteps w ++ [Spawn Pgrep]
                      ++ validateLogs (shortcutOf sub settings)
                      ++ (backoffSteps script (retryDelay config) d 0 ++ [Spawn script])
                      ++ [Console LogError
                            ("Failed to toggle Zoom " ++ getActionType sub ++ ":");
                          SetTitle titleError])%list).
    { simpl. rewrite trace_cleaned. now rewrite <- !app_assoc. }
    rewrite (since_app _ _ _ Ht).
    split; [reflexivity|].
    split; [reflexivity|].
    split; [simpl; apply button_cleaned|].
    split; [simpl; apply lastKnownState_cleaned|].
    split.
    { rewrite !filter_app.
      rewrite filter_cleanupSteps by reflexivity.
      rewrite filter_validateLogs by reflexivity.
      rewrite filter_backoff_nil by reflexivity.
      reflexivity. }
    split; [reflexivity|].
    rewrite !filter_app.
    rewrite filter_cleanupSteps by reflexivity.
    rewrite filter_validateLogs by reflexivity.
    rewrite !length_app.
    rewrite count_backoff; [| apply isExecutorCall_toggle | reflexivity].
    cbn [filter]. rewrite He. cbn [isExecutorCall app List.length]. lia.
  - intros k Hk. simpl. rewrite launched_cleaned.
    replace (k + S (launched w)) with (S k + launched w) by lia. apply Hfail. lia.
Qed.

End Activation.

Lemma length_backoff script retryDelay n : forall attempt,
  List.length (backoffSteps script retryDelay n attempt) = 2 * n.
Proof.
  induction n as [|n IH]; intros attempt; [reflexivity|].
  cbn [backoffSteps List.length]. rewrite IH. lia.
Qed.

Lemma nth_backoff script retryDelay n : forall attempt k,
  k < n ->
  nth_error (backoffSteps script retryDelay n attempt) (2 * k) = Some (Spawn script) /\
  nth_error (backoffSteps script retryDelay n attempt) (2 * k + 1)
  = Some (Sleep (retryDelay * (attempt + S k))).
Proof.
  induction n as [|n IH]; intros attempt k Hk; [lia|].
  destruct k as [|k].
  - cbn [backoffSteps]. simpl. split; [reflexivity|].
    now rewrite Nat.add_1_r.
  - replace (2 * S k) with (S (S (2 * k))) by lia.
    replace (S (S (2 * k)) + 1) with (S (S (2 * k + 1))) by lia.
    cbn [backoffSteps nth_error].
    destruct (IH (S attempt) k) as [A B]; [lia|].
    split; [exact A|]. rewrite B. do 2 f_equal. lia.
Qed.

(** The schedule of the Executor in general: after the [k]-th failed attempt
    it waits [retryDelay * k] before attempt [k + 1], so the delay grows
    linearly; the attempt that succeeds is the last operation of the
    Executor. *)
Theorem executor_backoff_is_linear config kind env w settings n :
  processPresent (env (launched w)) = true ->
  n < maxRetryAttempts config ->
  (forall k, k < n -> succeeded (env (S k + launched w)) = false) ->
  succeeded (env (S n + launched w)) = true ->
  let attempt :=
    Spawn (Osascript (toggleScript config (subclass kind) (methodOf settings)
                                   (shortcutOf (subclass kind) settings))) in
  let steps :=
    executorSteps
      (since w (snd (run env (onKeyDown config (subclass kind) settings) w))) in
  List.length steps = 2 * n + 1 /\
  nth_error steps (2 * n) = Some attempt /\
  (forall k, k < n ->
     nth_error steps (2 * k) = Some attempt /\
     nth_error steps (2 * k + 1) = Some (Sleep (retryDelay config * S k))).
Proof.
  intros Hpres Hn Hfail Hok. cbv zeta.
  destruct (onKeyDown_backoff config kind env w settings Hpres n Hn Hfail Hok)
    as [_ [Hsteps _]].
  rewrite Hsteps. repeat split.
  - rewrite length_app, length_backoff. simpl. lia.
  - rewrite nth_error_app2 by (rewrite length_backoff; lia).
    rewrite length_backoff, Nat.sub_diag. reflexivity.
  - rewrite nth_error_app1 by (rewrite length_backoff; lia).
    now apply nth_backoff.
  - rewrite nth_error_app1 by (rewrite length_backoff; lia).
    now apply nth_backoff.
Qed.

Lemma executor_backoff_is_linear_witness :
  let steps :=
    executorSteps
      (trace (snd (run Scenarios.envFailTwice
                       (onKeyDown defaultConfig ZoomVideoToggle Scenarios.noSettings)
                       initialWorld))) in
  List.length steps = 5 /\
  nth_error steps 1 = Some (Sleep 200) /\
  nth_error steps 3 = Some (Sleep 400).
Proof.
  destruct (executor_backoff_is_linear defaultConfig VideoAction
              Scenarios.envFailTwice initialWorld Scenarios.noSettings 2 eq_refl)
    as [A [_ C]].
  - simpl. lia.
  - intros [|[|k]] Hk; [reflexivity | reflexivity | lia].
  - reflexivity.
  - split; [exact A|]. split.
    + exact (proj2 (C 0 (Nat.lt_0_succ 1))).
    + exact (proj2 (C 1 (Nat.lt_succ_diag_r 1))).
Defined.

Lemma absent_process_no_calls_witness :
  let w' := snd (run Scenarios.envAbsent
                     (onKeyDown defaultConfig ZoomMuteToggle Scenarios.noSettings)
                     initialWorld) in
  trace w' = [Spawn Pgrep; SetTitle titleNotRunning] /\
  filter isDetectorCall (trace w') = [] /\
  filter isExecutorCall (trace w') = [] /\
  title w' = titleNotRunning.
Proof.
  destruct (absent_process_no_calls defaultConfig ZoomMuteToggle Scenarios.envAbsent
              initialWorld Scenarios.noSettings eq_refl) as [[H1 [H2 [H3 [H4 _]]]] _].
  exact (conj H1 (conj H2 (conj H3 H4))).
Defined.

(** The Executor on its own: when every attempt fails, the error it throws
    is the rejection of the last attempt. *)
Lemma executeToggleAction_exhausted config sub env method shortcut w0 :
  0 < maxRetryAttempts config ->
  (forall k, k < maxRetryAttempts config ->
             succeeded (env (k + launched w0)) = false) ->
  fst (run env (executeToggleAction config sub method shortcut) w0)
  = Thrown (rejection (env (maxRetryAttempts config - 1 + launched w0))).
Proof.
  intros Hpos Hfail. unfold executeToggleAction.
  destruct (maxRetryAttempts config) as [|d] eqn:Hmax; [lia|].
  rewrite (retryLoop_exhausted config sub env method shortcut d); try lia.
  - simpl. now rewrite Nat.sub_0_r.
  - intros k Hk. apply Hfail. lia.
Qed.

(** C1. With the configuration of the plugin (three attempts, a retry delay
    of 200 ms), a key press whose toggle command fails on the first two
    attempts and succeeds on the third launches the command exactly three
    times, waits 200 ms before the second attempt and 400 ms before the
    third, makes no attempt after the success, and completes: the handler
    returns, arms the verification timer and leaves title and state of the
    key as they were. *)
Theorem activation_retries_then_succeeds kind env w settings :
  processPresent (env (launched w)) = true ->
  succeeded (env (1 + launched w)) = false ->
  succeeded (env (2 + launched w)) = false ->
  succeeded (env (3 + launched w)) = true ->
  let attempt :=
    Spawn (Osascript (toggleScript defaultConfig (subclass kind) (methodOf settings)
                                   (shortcutOf (subclass kind) settings))) in
  let result := run env (onKeyDown defaultConfig (subclass kind) settings) w in
  fst result = Returned tt /\
  executorSteps (since w (snd result))
  = [attempt; Sleep 200; attempt; Sleep 400; attempt] /\
  launched (snd result) = 4 + launched w /\
  filter isSetTimeout (since w (snd result)) = [SetTimeout VerifyCallback 1000] /\
  title (snd result) = title w /\
  button (snd result) = button w.
Proof.
  intros Hpres H1 H2 H3.
  destruct (onKeyDown_backoff defaultConfig kind env w settings Hpres 2)
    as [A [B [C [D [E [F _]]]]]].
  - simpl. lia.
  - intros k Hk. destruct k as [|[|k]]; [exact H1 | exact H2 | lia].
  - exact H3.
  - cbv zeta. repeat split; assumption.
Qed.

Lemma activation_retries_then_succeeds_witness :
  let attempt :=
    Spawn (Osascript (KeyboardScript 100
                        (generateKeystrokeScript "cmd+shift+option+a"))) in
  let result := run Scenarios.envFailTwice
                    (onKeyDown defaultConfig ZoomMuteToggle Scenarios.noSettings)
                    initialWorld in
  fst result = Returned tt /\
  executorSteps (since initialWorld (snd result))
  = [attempt; Sleep 200; attempt; Sleep 400; attempt] /\
  launched (snd result) = 4 /\
  filter isSetTimeout (since initialWorld (snd result))
  = [SetTimeout VerifyCallback 1000] /\
  title (snd result) = EmptyString /\
  button (snd result) = 0.
Proof.
  exact (activation_retries_then_succeeds MuteAction Scenarios.envFailTwice
           initialWorld Scenarios.noSettings eq_refl eq_refl eq_refl eq_refl).
Defined.

(** C2. When the toggle command fails on every one of the [maxRetryAttempts]
    attempts, the Executor throws the rejection of the last attempt; the key
    press handler catches it, shows the error title, leaves the state of the
    key and the last known state as they were before the key press, and arms
    no verification timer. *)
Theorem activation_exhausts_retries config kind env :
  0 < maxRetryAttempts config ->
  (forall method shortcut w0,
     (forall k, k < maxRetryAttempts config ->
                succeeded (env (k + launched w0)) = false) ->
     fst (run env (executeToggleAction config (subclass kind) method shortcut) w0)
     = Thrown (rejection (env (maxRetryAttempts config - 1 + launched w0)))) /\
  (forall w settings,
     processPresent (env (launched w)) = true ->
     (forall k, k < maxRetryAttempts config ->
                succeeded (env (S k + launched w)) = false) ->
     let result := run env (onKeyDown config (subclass kind) settings) w in
     fst result = Returned tt /\
     title (snd result) = titleError /\
     button (snd result) = button w /\
     lastKnownState (fields (snd result)) = lastKnownState (fields w) /\
     filter isSetTimeout (since w (snd result)) = [] /\
     pendingTimeouts (snd result) = pendingTimeouts (cleaned w) /\
     List.length (filter isExecutorCall (since w (snd result)))
     = maxRetryAttempts config).
Proof.
  intros Hpos. split.
  - intros method shortcut w0 Hfail.
    now apply executeToggleAction_exhausted.
  - intros w settings Hpres Hfail.
    now apply (onKeyDown_exhausted config kind env w settings Hpres).
Qed.

Lemma activation_exhausts_retries_witness :
  fst (run Scenarios.envAlwaysFail
           (executeToggleAction defaultConfig ZoomMuteToggle Keyboard
                                "cmd+shift+option+a")
           (spawned Pgrep initialWorld))
  = Thrown (AppleScriptFailed (Some 1) "execution error") /\
  let result := run Scenarios.envAlwaysFail
                    (onKeyDown defaultConfig ZoomMuteToggle Scenarios.noSettings)
                    initialWorld in
  fst result = Returned tt /\
  title (snd result) = titleError /\
  button (snd result) = 0 /\
  filter isSetTimeout (since initialWorld (snd result)) = [] /\
  timers (snd result) = [] /\
  List.length (filter isExecutorCall (since initialWorld (snd result))) = 3.
Proof.
  destruct (activation_exhausts_retries defaultConfig MuteAction
              Scenarios.envAlwaysFail (Nat.lt_0_succ 2)) as [Hexec Hkey].
  split.
  - apply (Hexec Keyboard "cmd+shift+option+a" (spawned Pgrep initialWorld)).
    intros [|[|[|k]]] Hk; reflexivity.
  - destruct (Hkey initialWorld Scenarios.noSettings eq_refl) as [A [B [C [_ [D [E F]]]]]].
    + intros [|[|[|k]]] Hk; reflexivity.
    + repeat split; assumption.
Defined.

(** *** A whole update cycle *)

Lemma run_detectState kind env w :
  run env (detectState (subclass kind)) w
  = (Returned (stateOf kind (env (launched w))),
     addTrace (detectLogs kind (env (launched w)))
              (spawned (Osascript (detectScript kind)) w)).
Proof.
  destruct kind; [apply run_detectZoomMuteState | apply run_detectZoomVideoState].
Qed.

Lemma stateOf_cases kind o :
  match kind with
  | MuteAction => stateOf kind o = Muted \/ stateOf kind o = Unmuted
  | VideoAction => stateOf kind o = VideoOn \/ stateOf kind o = VideoOff
  end \/ stateOf kind o = Unknown.
Proof.
  destruct kind; simpl; unfold muteStateOf, videoStateOf;
    destruct (scriptOutput o) as [out|]; auto;
    repeat match goal with
           | |- context [if ?b then _ else _] => destruct b
           end; auto.
Qed.

Lemma run_setButtonState kind env o w :
  isUnknown (stateOf kind o) = false ->
  run env (setButtonState (subclass kind) (stateOf kind o)) w
  = (Returned tt,
     withButton (buttonOf (stateOf kind o))
                (addTrace [SetState (buttonOf (stateOf kind o))] w)).
Proof.
  intros Hk. pose proof (stateOf_cases kind o) as Hc.
  destruct kind; destruct Hc as [[H|H]|H];
    rewrite H in *; try discriminate; reflexivity.
Qed.

Lemma run_updateState_away sub env w :
  isUpdating (fields w) = false ->
  processPresent (env (launched w)) = true ->
  sessionActive (env (1 + launched w)) = false ->
  run env (updateState sub) w
  = (Returned tt,
     released (withTitle titleNotInMeeting
                 (addTrace [SetTitle titleNotInMeeting] (beforeProbe env w)))).
Proof.
  intros Hfree Hpres Haway. unfold updateState.
  rewrite run_bind, run_op. simpl fst. simpl snd. rewrite Hfree.
  rewrite run_bind, run_op. simpl fst. simpl snd.
  rewrite run_tryFinally, run_tryCatch, run_bind, run_isZoomRunning.
  change (launched (withFields _ w)) with (launched w).
  rewrite Hpres. simpl negb. cbv iota.
  rewrite run_bind, run_isInMeeting.
  change (launched (spawned Pgrep _)) with (1 + launched w).
  rewrite Haway. reflexivity.
Qed.

Lemma run_updateState_probe kind env w :
  isUpdating (fields w) = false ->
  processPresent (env (launched w)) = true ->
  sessionActive (env (1 + launched w)) = true ->
  run env (updateState (subclass kind)) w
  = (Returned tt,
     released
       (if isUnknown (stateOf kind (env (2 + launched w)))
        then afterProbe kind env w
        else withTitle EmptyString
               (addTrace [SetTitle EmptyString]
                  (withButton (buttonOf (stateOf kind (env (2 + launched w))))
                     (addTrace [SetState (buttonOf (stateOf kind (env (2 + launched w))))]
                               (afterProbe kind env w)))))).
Proof.
  intros Hfree Hpres Hact. unfold updateState.
  rewrite run_bind, run_op. simpl fst. simpl snd. rewrite Hfree.
  rewrite run_bind, run_op. simpl fst. simpl snd.
  rewrite run_tryFinally, run_tryCatch, run_bind, run_isZoomRunning.
  change (launched (withFields _ w)) with (launched w).
  rewrite Hpres. simpl negb. cbv iota.
  rewrite run_bind, run_isInMeeting.
  change (launched (spawned Pgrep _)) with (1 + launched w).
  rewrite Hact. simpl negb. cbv iota.
  rewrite run_bind, run_detectState.
  change (launched (addTrace _ (spawned (Osascript CheckMeetingScript) _)))
    with (2 + launched w).
  fold (acquired w). fold (beforeProbe env w). fold (afterProbe kind env w).
  destruct (isUnknown (stateOf kind (env (2 + launched w)))) eqn:Hu.
  - reflexivity.
  - simpl negb. unfold when. rewrite run_bind, run_setButtonState by exact Hu.
    reflexivity.
Qed.

Lemma trace_afterProbe kind env w :
  trace (afterProbe kind env w)
  = (trace w ++ [Spawn Pgrep; Spawn (Osascript CheckMeetingScript)]
       ++ meetingLogs (env (1 + launched w))
       ++ [Spawn (Osascript (detectScript kind))]
       ++ detectLogs kind (env (2 + launched w)))%list.
Proof. simpl. now rewrite <- !app_assoc. Qed.

Lemma filter_detectLogs f kind o :
  (forall l t, f (Console l t) = false) -> filter f (detectLogs kind o) = [].
Proof. intros H. destruct kind; now apply filter_probeLogs. Qed.

(** What an update cycle does to the state of the key, in every case. *)
Lemma updateState_display kind env w :
  let w' := snd (run env (updateState (subclass kind)) w) in
  match detectedIn kind env w with
  | Some z =>
      if isUnknown z
      then filter isSetState (since w w') = [] /\ button w' = button w /\
           title w' = title w
      else filter isSetState (since w w') = [SetState (buttonOf z)] /\
           button w' = buttonOf z /\ title w' = EmptyString
  | None => filter isSetState (since w w') = [] /\ button w' = button w
  end /\
  lastKnownState (fields w') = lastKnownState (fields w) /\
  isUpdating (fields w') = isUpdating (fields w).
Proof.
  cbv zeta. unfold detectedIn.
  destruct (isUpdating (fields w)) eqn:Hup; cbn [negb andb]; cbv iota.
  - rewrite run_updateState_busy by exact Hup. simpl.
    rewrite (since_app w w []) by now rewrite app_nil_r.
    rewrite Hup. repeat split.
  - destruct (processPresent (env (launched w))) eqn:Hpres; cbn [andb]; cbv iota.
    + destruct (sessionActive (env (1 + launched w))) eqn:Hact; cbv iota.
      * rewrite run_updateState_probe by assumption.
        destruct (isUnknown (stateOf kind (env (2 + launched w)))) eqn:Hu.
        -- rewrite (since_app w _
               ([Spawn Pgrep; Spawn (Osascript CheckMeetingScript)]
                  ++ meetingLogs (env (1 + launched w))
                  ++ [Spawn (Osascript (detectScript kind))]
                  ++ detectLogs kind (env (2 + launched w))))
             by (simpl; now rewrite <- !app_assoc).
           rewrite !filter_app, filter_meetingLogs, filter_detectLogs by reflexivity.
           repeat split.
        -- rewrite (since_app w _
               ([Spawn Pgrep; Spawn (Osascript CheckMeetingScript)]
                  ++ meetingLogs (env (1 + launched w))
                  ++ [Spawn (Osascript (detectScript kind))]
                  ++ detectLogs kind (env (2 + launched w))
                  ++ [SetState (buttonOf (stateOf kind (env (2 + launched w))));
                      SetTitle EmptyString]))
             by (simpl; now rewrite <- !app_assoc).
           rewrite !filter_app, filter_meetingLogs, filter_detectLogs by reflexivity.
           repeat split.
      * rewrite run_updateState_away by assumption.
        rewrite (since_app w _
                 ([Spawn Pgrep; Spawn (Osascript CheckMeetingScript)]
                    ++ meetingLogs (env (1 + launched w))
                    ++ [SetTitle titleNotInMeeting]))
          by (simpl; now rewrite <- !app_assoc).
        rewrite !filter_app, filter_meetingLogs by reflexivity.
        repeat split.
    + rewrite run_updateState_absent by assumption.
      rewrite (since_app w _ [Spawn Pgrep; SetTitle titleNotRunning])
        by (simpl; now rewrite <- !app_assoc).
      repeat split.
Qed.

End BaseFacts.

(** ** The earlier ZoomVideoToggle, run one method at a time *)

Module V1Facts.
Import JsString Keystroke Runtime Observe RuntimeFacts MonitorFacts BaseFacts.
Import VideoToggleV1.

Lemma run_execSync env c w :
  run env (execSync c) w
  = (match env (launched w) with
     | Closed (Some 0) stdout _ => Returned stdout
     | o => Thrown (ExecSyncError o)
     end, execed c w).
Proof.
  unfold execSync, AudioMonitor.execSync; simpl.
  destruct (env (launched w)) as [[[|n]|] out err|msg]; reflexivity.
Qed.

Lemma runV1_isZoomRunning env w :
  run env isZoomRunning w
  = (Returned (processPresent (env (launched w))), execed Pgrep w).
Proof.
  unfold isZoomRunning. rewrite run_tryCatch, run_bind, run_execSync.
  unfold processPresent.
  destruct (env (launched w)) as [[[|n]|] out err|msg]; reflexivity.
Qed.

Lemma runV1_isInMeeting env w :
  run env isInMeeting w
  = (Returned (sessionActive (env (launched w))),
     execed (Osascript CheckMeetingScript) w).
Proof.
  unfold isInMeeting. rewrite run_tryCatch, run_bind, run_execSync.
  unfold sessionActive.
  destruct (env (launched w)) as [[[|n]|] out err|msg]; reflexivity.
Qed.

Lemma run_isZoomFrontmost env w :
  run env isZoomFrontmost w
  = (Returned (sessionActive (env (launched w))),
     execed (Osascript FrontmostScript) w).
Proof.
  unfold isZoomFrontmost. rewrite run_tryCatch, run_bind, run_execSync.
  unfold sessionActive.
  destruct (env (launched w)) as [[[|n]|] out err|msg]; reflexivity.
Qed.

Lemma run_detectVideoState env w :
  run env detectVideoState w
  = (Returned (videoStateOf (env (launched w))),
     addTrace (probeLogsV1 (env (launched w)))
              (execed (Osascript DetectVideoScript) w)).
Proof.
  unfold detectVideoState, AudioMonitor.detectZoomVideoState.
  rewrite run_tryCatch, run_bind. fold execSync. rewrite run_execSync.
  unfold videoStateOf, probeLogsV1, succeeded.
  destruct (env (launched w)) as [[[|n]|] out err|msg]; try reflexivity.
  simpl scriptOutput. cbv iota.
  destruct (String.eqb (trim out) "video_on");
    [simpl; now rewrite addTrace_nil_execed|].
  destruct (String.eqb (trim out) "video_off");
    simpl; now rewrite addTrace_nil_execed.
Qed.

Lemma runV1_setButtonState env o w :
  isUnknown (videoStateOf o) = false ->
  run env (setButtonState (videoStateOf o)) w
  = (Returned tt,
     withButton (buttonOf (videoStateOf o))
                (addTrace [SetState (buttonOf (videoStateOf o))] w)).
Proof.
  intros Hu. pose proof (stateOf_cases VideoAction o) as Hc.
  simpl in Hc. destruct Hc as [[H|H]|H]; rewrite H in *;
    try discriminate; reflexivity.
Qed.

Lemma updateStateV1_display env w :
  let w' := snd (run env updateState w) in
  match detectedInV1 env w with
  | Some z =>
      if isUnknown z
      then filter isSetState (since w w') = [] /\ button w' = button w /\
           lastKnownState (fields w') = lastKnownState (fields w) /\
           title w' = titleMeeting
      else filter isSetState (since w w') = [SetState (buttonOf z)] /\
           button w' = buttonOf z /\
           lastKnownState (fields w') = z /\
           title w' = title w
  | None => filter isSetState (since w w') = [] /\ button w' = button w /\
            lastKnownState (fields w') = Unknown /\
            (title w' = ToggleBase.titleNotRunning \/
             title w' = ToggleBase.titleNotInMeeting)
  end.
Proof.
  cbv zeta. unfold detectedInV1, updateState.
  rewrite run_tryCatch, run_bind, runV1_isZoomRunning.
  destruct (processPresent (env (launched w))) eqn:Hpres; cbn [negb andb]; cbv iota.
  - rewrite run_bind, runV1_isInMeeting.
    change (launched (execed Pgrep w)) with (1 + launched w).
    destruct (sessionActive (env (1 + launched w))) eqn:Hact; cbn [negb]; cbv iota.
    + rewrite run_bind, run_detectVideoState.
      change (launched (execed (Osascript CheckMeetingScript) (execed Pgrep w)))
        with (2 + launched w).
      rewrite run_bind, run_op. cbn [fst snd].
      destruct (isUnknown (videoStateOf (env (2 + launched w)))) eqn:Hu;
        cbn [negb]; cbv iota.
      * rewrite (run_op env (SetTitle titleMeeting)).
        rewrite (since_app w _
                   ([ExecSync Pgrep; ExecSync (Osascript CheckMeetingScript);
                     ExecSync (Osascript DetectVideoScript)]
                      ++ probeLogsV1 (env (2 + launched w))
                      ++ [Console LogInfo "detectedState"; SetTitle titleMeeting]))
          by (simpl; now rewrite <- !app_assoc).
        rewrite !filter_app.
        assert (Hl : filter isSetState (probeLogsV1 (env (2 + launched w))) = [])
          by (unfold probeLogsV1; destruct (succeeded _); reflexivity).
        rewrite Hl. repeat split.
      * rewrite run_bind, runV1_setButtonState by exact Hu.
        rewrite (run_op env (PutLastKnown (videoStateOf (env (2 + launched w))))).
        rewrite (since_app w _
                   ([ExecSync Pgrep; ExecSync (Osascript CheckMeetingScript);
                     ExecSync (Osascript DetectVideoScript)]
                      ++ probeLogsV1 (env (2 + launched w))
                      ++ [Console LogInfo "detectedState";
                          SetState (buttonOf (videoStateOf (env (2 + launched w))))]))
          by (simpl; now rewrite <- !app_assoc).
        rewrite !filter_app.
        assert (Hl : filter isSetState (probeLogsV1 (env (2 + launched w))) = [])
          by (unfold probeLogsV1; destruct (succeeded _); reflexivity).
        rewrite Hl. repeat split.
    + rewrite run_bind, (run_op env (SetTitle ToggleBase.titleNotInMeeting)).
      rewrite (run_op env (PutLastKnown Unknown)).
      rewrite (since_app w _
                 [ExecSync Pgrep; ExecSync (Osascript CheckMeetingScript);
                  SetTitle ToggleBase.titleNotInMeeting])
        by (simpl; now rewrite <- !app_assoc).
      repeat split. now right.
  - rewrite run_bind, (run_op env (SetTitle ToggleBase.titleNotRunning)).
    rewrite (run_op env (PutLastKnown Unknown)).
    rewrite (since_app w _ [ExecSync Pgrep; SetTitle ToggleBase.titleNotRunning])
      by (simpl; now rewrite <- !app_assoc).
    repeat split. now left.
Qed.

(** C7. In an update cycle whose probe yields Unknown the state of the key
    is not set: it stays what it was (confirmed or optimistic), and the last
    known state is not overwritten.  Conversely the state of the key is set
    in an update cycle only to a state the probe reported.  This holds for
    [updateState] of ZoomToggleBase under both subclasses and for the earlier
    ZoomVideoToggle (which, on Unknown, only changes the title). *)
Theorem unknown_detection_keeps_display kind env w :
  (detectedIn kind env w = Some Unknown ->
   let w' := snd (run env (ToggleBase.updateState (ToggleBase.subclass kind)) w) in
   button w' = button w /\
   filter isSetState (since w w') = [] /\
   lastKnownState (fields w') = lastKnownState (fields w) /\
   title w' = title w) /\
  (detectedInV1 env w = Some Unknown ->
   let w' := snd (run env updateState w) in
   button w' = button w /\
   filter isSetState (since w w') = [] /\
   lastKnownState (fields w') = lastKnownState (fields w)) /\
  (forall n,
     In (SetState n)
        (since w (snd (run env (ToggleBase.updateState (ToggleBase.subclass kind)) w))) ->
     exists z, detectedIn kind env w = Some z /\ isUnknown z = false /\ n = buttonOf z) /\
  (forall n,
     In (SetState n) (since w (snd (run env updateState w))) ->
     exists z, detectedInV1 env w = Some z /\ isUnknown z = false /\ n = buttonOf z).
Proof.
  pose proof (BaseFacts.updateState_display kind env w) as [HB [HBl _]].
  pose proof (updateStateV1_display env w) as HV.
  cbv zeta in *.
  repeat split.
  - rewrite H in HB. apply HB.
  - rewrite H in HB. apply HB.
  - exact HBl.
  - rewrite H in HB. apply HB.
  - rewrite H in HV. apply HV.
  - rewrite H in HV. apply HV.
  - rewrite H in HV. apply HV.
  - intros n Hin.
    assert (Hf : In (SetState n)
                    (filter isSetState
                       (since w (snd (run env (ToggleBase.updateState
                                                 (ToggleBase.subclass kind)) w)))))
      by (apply filter_In; split; [exact Hin | reflexivity]).
    destruct (detectedIn kind env w) as [z|].
    + destruct (isUnknown z) eqn:Hu.
      * destruct HB as [HB _]. rewrite HB in Hf. destruct Hf.
      * destruct HB as [HB _]. rewrite HB in Hf.
        destruct Hf as [Hf|[]]. inversion Hf. now exists z.
    + destruct HB as [HB _]. rewrite HB in Hf. destruct Hf.
  - intros n Hin.
    assert (Hf : In (SetState n)
                    (filter isSetState (since w (snd (run env updateState w)))))
      by (apply filter_In; split; [exact Hin | reflexivity]).
    destruct (detectedInV1 env w) as [z|].
    + destruct (isUnknown z) eqn:Hu.
      * destruct HV as [HV _]. rewrite HV in Hf. destruct Hf.
      * destruct HV as [HV _]. rewrite HV in Hf.
        destruct Hf as [Hf|[]]. inversion Hf. now exists z.
    + destruct HV as [HV _]. rewrite HV in Hf. destruct Hf.
Qed.

Lemma unknown_detection_keeps_display_witness :
  (let w' := snd (run Scenarios.envProbeUnknown
                      (ToggleBase.updateState ToggleBase.ZoomVideoToggle)
                      Scenarios.worldOn) in
   button w' = 1 /\ filter isSetState (trace w') = [] /\
   lastKnownState (fields w') = VideoOn) /\
  (let w' := snd (run Scenarios.envProbeUnknown updateState Scenarios.worldOn) in
   button w' = 1 /\ filter isSetState (trace w') = [] /\
   lastKnownState (fields w') = VideoOn).
Proof.
  destruct (unknown_detection_keeps_display VideoAction Scenarios.envProbeUnknown
              Scenarios.worldOn) as [HB [HV _]].
  split.
  - destruct (HB eq_refl) as [A [B [C _]]]. exact (conj A (conj B C)).
  - destruct (HV eq_refl) as [A [B C]]. exact (conj A (conj B C)).
Defined.

End V1Facts.

(** ** Appearing, polling and the optimistic update *)

Module ControllerFacts.
Import JsString Keystroke Runtime Observe RuntimeFacts MonitorFacts BaseFacts.
Import ToggleBase.

Lemma nextTimer_cleaned w : nextTimer (cleaned w) = nextTimer w.
Proof. unfold cleaned. destruct (stateCheckInterval (fields w)); reflexivity. Qed.

Lemma run_startPeriodicStateCheck config env w :
  run env (startPeriodicStateCheck config) w = (Returned tt, polling config w).
Proof.
  unfold startPeriodicStateCheck.
  rewrite run_bind, run_cleanup. simpl. unfold polling.
  now rewrite nextTimer_cleaned.
Qed.

Lemma polling_facts config w :
  title (polling config w) = title w /\
  button (polling config w) = button w /\
  launched (polling config w) = launched w /\
  stateCheckInterval (fields (polling config w)) = Some (nextTimer w) /\
  isUpdating (fields (polling config w)) = isUpdating (fields w) /\
  In (mkTimer (nextTimer w) true TickCallback (checkIntervalMs config))
     (timers (polling config w)) /\
  trace (polling config w)
  = (trace w ++ cleanupSteps w
       ++ [SetInterval TickCallback (checkIntervalMs config)])%list.
Proof.
  unfold polling; simpl.
  rewrite title_cleaned, button_cleaned, launched_cleaned, isUpdating_cleaned,
    trace_cleaned, nextTimer_cleaned.
  repeat split.
  - apply in_or_app. right. now left.
  - now rewrite <- app_assoc.
Qed.

(** An update cycle that finds the resource unavailable. *)
Lemma updateState_unavailable sub env w :
  isUpdating (fields w) = false ->
  available env w = false ->
  let w' := snd (run env (updateState sub) w) in
  title w' = unavailableTitle env w /\
  button w' = button w /\
  fields w' = fields w /\
  timers w' = timers w /\
  nextTimer w' = nextTimer w /\
  filter isDetectorCall (since w w') = [] /\
  filter isExecutorCall (since w w') = [] /\
  filter isSetInterval (since w w') = [] /\
  exists l, trace w' = (trace w ++ l)%list /\
            filter isDetectorCall l = [] /\ filter isSetInterval l = [].
Proof.
  intros Hfree Hun. unfold available in Hun. unfold unavailableTitle. cbv zeta.
  destruct (processPresent (env (launched w))) eqn:Hpres.
  - cbn [andb] in Hun. rewrite run_updateState_away by assumption.
    assert (Ht : trace (snd (Returned tt,
                   released (withTitle titleNotInMeeting
                     (addTrace [SetTitle titleNotInMeeting] (beforeProbe env w)))))
                 = (trace w ++ [Spawn Pgrep; Spawn (Osascript CheckMeetingScript)]
                      ++ meetingLogs (env (1 + launched w))
                      ++ [SetTitle titleNotInMeeting])%list)
      by (simpl; now rewrite <- !app_assoc).
    rewrite (since_app _ _ _ Ht).
    rewrite !filter_app, !filter_meetingLogs by reflexivity.
    repeat split.
    + simpl. destruct (fields w); simpl in *. now rewrite Hfree.
    + eexists. split; [exact Ht|].
      rewrite !filter_app, !filter_meetingLogs by reflexivity. now split.
  - rewrite run_updateState_absent by assumption.
    assert (Ht : trace (snd (Returned tt,
                   released (withTitle titleNotRunning
                     (addTrace [SetTitle titleNotRunning]
                               (spawned Pgrep (acquired w))))))
                 = (trace w ++ [Spawn Pgrep; SetTitle titleNotRunning])%list)
      by (simpl; now rewrite <- !app_assoc).
    rewrite (since_app _ _ _ Ht).
    repeat split.
    + simpl. destruct (fields w); simpl in *. now rewrite Hfree.
    + eexists. split; [exact Ht|]. now split.
Qed.

(** A tick that finds the resource unavailable only runs the check. *)
Lemma periodicTick_unavailable sub env w :
  available env w = false ->
  let w' := snd (run env (periodicTick sub) w) in
  title w' = title w /\
  button w' = button w /\
  fields w' = fields w /\
  filter isDetectorCall (since w w') = [] /\
  filter isExecutorCall (since w w') = [].
Proof.
  intros Hun. unfold available in Hun. cbv zeta. unfold periodicTick.
  rewrite run_tryCatch, run_bind, run_isZoomRunning.
  destruct (processPresent (env (launched w))) eqn:Hpres.
  - cbn [andb] in Hun. rewrite run_bind, run_isInMeeting.
    change (launched (spawned Pgrep w)) with (1 + launched w). rewrite Hun.
    cbn [when run fst snd].
    rewrite (since_app w _
               ([Spawn Pgrep; Spawn (Osascript CheckMeetingScript)]
                  ++ meetingLogs (env (1 + launched w))))
      by (simpl; now rewrite <- !app_assoc).
    rewrite !filter_app, !filter_meetingLogs by reflexivity.
    repeat split.
  - cbn [run fst snd].
    rewrite (since_app w _ [Spawn Pgrep]) by reflexivity.
    repeat split.
Qed.

(** C5 (as the code has it). When the action appears and the availability
    check of its update cycle fails (no zoom.us process, or no meeting),
    the key shows the title of the unavailable resource and no probe is
    launched, but the periodic timer is started all the same: its id is
    stored in [stateCheckInterval] and it is live.  What the unavailable
    resource suppresses is the work of each tick: a tick that finds the
    resource unavailable launches no probe and leaves the key alone. *)
Theorem appear_unavailable_still_polls config kind env w :
  isUpdating (fields w) = false ->
  available env w = false ->
  let w' := snd (run env (onWillAppear config (subclass kind)) w) in
  (title w' = unavailableTitle env w /\
   filter isDetectorCall (since w w') = [] /\
   filter isSetInterval (since w w') = [SetInterval TickCallback (checkIntervalMs config)] /\
   stateCheckInterval (fields w') = Some (nextTimer w) /\
   In (mkTimer (nextTimer w) true TickCallback (checkIntervalMs config)) (timers w')) /\
  (forall w1, available env w1 = false ->
     let w2 := snd (run env (periodicTick (subclass kind)) w1) in
     filter isDetectorCall (since w1 w2) = [] /\
     title w2 = title w1 /\ button w2 = button w1).
Proof.
  intros Hfree Hun. cbv zeta. split.
  - unfold onWillAppear. rewrite run_bind.
    pose proof (updateState_unavailable (subclass kind) env w Hfree Hun) as H.
    cbv zeta in H.
    destruct (run env (updateState (subclass kind)) w) as [[[]|e] w1] eqn:Hrun.
    2:{ unfold available in Hun.
        destruct (processPresent (env (launched w))) eqn:Hpres.
        - cbn [andb] in Hun. rewrite run_updateState_away in Hrun by assumption.
          discriminate.
        - rewrite run_updateState_absent in Hrun by assumption. discriminate. }
    cbn [snd] in H.
    destruct H as [Ht [Hb [Hf [Htm [Hn [_ [_ [_ [l [Hl [Hd Hi]]]]]]]]]]].
    rewrite run_startPeriodicStateCheck. cbn [snd].
    destruct (polling_facts config w1) as [Pt [Pb [Pl [Ps [Pu [Pin Ptr]]]]]].
    assert (Hcs : cleanupSteps w1 = cleanupSteps w)
      by (unfold cleanupSteps; now rewrite Hf).
    assert (Htrace : trace (polling config w1)
                     = (trace w ++ l ++ cleanupSteps w
                          ++ [SetInterval TickCallback (checkIntervalMs config)])%list)
      by (rewrite Ptr, Hl, Hcs; now rewrite <- !app_assoc).
    rewrite (since_app _ _ _ Htrace).
    rewrite Pt, Ht, Ps, Hn. rewrite Hn in Pin.
    rewrite !filter_app, Hd, Hi, !filter_cleanupSteps by reflexivity.
    repeat split. exact Pin.
  - intros w1 Hun1.
    destruct (periodicTick_unavailable (subclass kind) env w1 Hun1)
      as [A [B [_ [C _]]]].
    repeat split; assumption.
Qed.

Lemma appear_unavailable_still_polls_witness :
  let w' := snd (run Scenarios.envAbsent
                     (onWillAppear defaultConfig ZoomMuteToggle) initialWorld) in
  title w' = titleNotRunning /\
  filter isDetectorCall (trace w') = [] /\
  stateCheckInterval (fields w') = Some 0 /\
  In (mkTimer 0 true TickCallback 1000) (timers w').
Proof.
  destruct (appear_unavailable_still_polls defaultConfig MuteAction
              Scenarios.envAbsent initialWorld eq_refl eq_refl)
    as [[A [B [_ [C D]]]] _].
  exact (conj A (conj B (conj C D))).
Defined.

(** C5 (the claim fails). Zoom is not running when the action appears: the
    key shows the unavailable title, and the periodic timer is live. *)
Lemma appear_unavailable_starts_timer :
  let w' := snd (run Scenarios.envAbsent
                     (onWillAppear defaultConfig ZoomMuteToggle) initialWorld) in
  title w' = titleNotRunning /\
  periodicTimers w' = [mkTimer 0 true TickCallback 1000] /\
  stateCheckInterval (fields w') = Some 0.
Proof. repeat split. Qed.

(** *** The optimistic update *)

Lemma updateState_returns kind env w :
  fst (run env (updateState (subclass kind)) w) = Returned tt.
Proof.
  destruct (isUpdating (fields w)) eqn:Hup.
  - now rewrite run_updateState_busy.
  - destruct (processPresent (env (launched w))) eqn:Hpres.
    + destruct (sessionActive (env (1 + launched w))) eqn:Hact.
      * now rewrite run_updateState_probe.
      * now rewrite run_updateState_away.
    + now rewrite run_updateState_absent.
Qed.

Lemma verification_display config kind env w z :
  detectedIn kind env w = Some z ->
  isUnknown z = false ->
  button (snd (run env (verification config (subclass kind)) w)) = buttonOf z.
Proof.
  intros Hd Hu. unfold verification. rewrite run_bind.
  pose proof (updateState_returns kind env w) as Hr.
  pose proof (updateState_display kind env w) as [H _]. cbv zeta in H.
  rewrite Hd, Hu in H. destruct H as [_ [Hb _]].
  destruct (run env (updateState (subclass kind)) w) as [r w1].
  simpl in Hr, Hb. subst r.
  rewrite run_startPeriodicStateCheck. simpl snd.
  destruct (polling_facts config w1) as [_ [Pb _]]. now rewrite Pb.
Qed.

Lemma verificationV1_display env w z :
  detectedInV1 env w = Some z ->
  isUnknown z = false ->
  button (snd (run env VideoToggleV1.verification w)) = buttonOf z /\
  lastKnownState (fields (snd (run env VideoToggleV1.verification w))) = z.
Proof.
  intros Hd Hu. unfold VideoToggleV1.verification.
  pose proof (V1Facts.updateStateV1_display env w) as H. cbv zeta in H.
  rewrite Hd, Hu in H. destruct H as [_ [Hb [Hl _]]]. now split.
Qed.

Lemma run_onKeyDownV1 env w settings :
  processPresent (env (launched w)) = true ->
  succeeded (env (1 + launched w)) = true ->
  let target := VideoToggleV1.flipped (lastKnownState (fields w)) in
  run env (VideoToggleV1.onKeyDown settings) w
  = (Returned tt,
     addTimer false VerifyCallback 800
       (addTrace [SetTimeout VerifyCallback 800]
          (withFields (fun f => mkFields (stateCheckInterval f) (isUpdating f) target)
             (withButton (buttonOf target)
                (addTrace [SetState (buttonOf target)]
                   (execed (Osascript (VideoToggleV1.toggleScript (methodOf settings)
                                         (shortcutOfV1 settings)))
                           (execed Pgrep w))))))).
Proof.
  intros Hpres Hok. cbv zeta. unfold VideoToggleV1.onKeyDown.
  rewrite run_tryCatch, run_bind, V1Facts.runV1_isZoomRunning, Hpres.
  cbn [negb]. cbv iota.
  fold (methodOf settings). fold (shortcutOfV1 settings).
  rewrite run_bind, V1Facts.run_execSync.
  change (launched (execed Pgrep w)) with (1 + launched w).
  unfold succeeded, scriptOutput in Hok.
  destruct (env (1 + launched w)) as [[[|n]|] out err|msg]; try discriminate.
  destruct (lastKnownState (fields w)) eqn:Hl; simpl; rewrite Hl; reflexivity.
Qed.

(** C3 (the claim fails). A key shows state 1; the key is pressed with
    Zoom running.  In ZoomToggleBase, while the toggle command is in
    flight (launched, its method suspended on it) the key still shows 1,
    and after the command has succeeded and the handler has ended it still
    shows 1: no state was set, where the claim has the opposite state 0 in
    both moments.  In the earlier ZoomVideoToggle the state is set, but
    after the blocking toggle command, not before. *)
Lemma no_flip_before_toggle_returns :
  let c := controller defaultConfig ZoomVideoToggle in
  let s0 := mkSys Scenarios.worldOn [] in
  let inFlight := exec Scenarios.envToggleOk c
                       [KeyDown Scenarios.noSettings; Resume 0] s0 in
  let done := exec Scenarios.envToggleOk c
                   [KeyDown Scenarios.noSettings; Resume 0; Resume 0] s0 in
  let toggle := Osascript (KeyboardScript 100 (generateKeystrokeScript "cmd+shift+v")) in
  (trace (world inFlight) = [Spawn Pgrep; Spawn toggle] /\
   List.length (tasks inFlight) = 1 /\
   button (world inFlight) = 1) /\
  (trace (world done) = [Spawn Pgrep; Spawn toggle; SetTimeout VerifyCallback 1000] /\
   tasks done = [] /\
   button (world done) = 1) /\
  buttonOf (VideoToggleV1.flipped VideoOn) = 0 /\
  trace (snd (run Scenarios.envToggleOk
                  (VideoToggleV1.onKeyDown Scenarios.noSettings) Scenarios.worldOn))
  = [ExecSync Pgrep; ExecSync toggle; SetState 0; SetTimeout VerifyCallback 800].
Proof. repeat split. Qed.

End ControllerFacts.

(** ** The guard: one update cycle at a time *)

Module GuardFacts.
Import JsString Keystroke Runtime Observe Guard RuntimeFacts BaseFacts ToggleBase.

(** *** The discipline and the combinators *)

Lemma held_afterOp o m : held (afterOp o m) = held m.
Proof. destruct m; simpl; [reflexivity | destruct (suspends o) | ]; reflexivity. Qed.

Lemma guarded_free {A : Type} (p : Prog A) hr ht :
  guarded Idle hr ht p -> guarded Free hr ht p.
Proof.
  induction p as [a|e|o k IH]; simpl; try (intros H; exact H).
  destruct o; simpl in *; intros H;
    try solve [intros x; first [apply H | apply IH, H]].
  - intros [|]; [apply IH|]; apply H.
  - destruct b; destruct H as [H _]; discriminate.
Qed.

Lemma guarded_modeOf {A : Type} (p : Prog A) m hr ht :
  guarded (modeOf (held m)) hr ht p -> guarded m hr ht p.
Proof. destruct m; simpl; auto. apply guarded_free. Qed.

Lemma neutral_guarded {A : Type} (p : Prog A) :
  neutral p -> forall m, guarded m (held m) (held m) p.
Proof.
  induction p as [a|e|o k IH]; simpl; try reflexivity.
  intros [Hg Hk] m.
  destruct o; simpl in Hg; try discriminate;
    intros x;
    match goal with
    | |- guarded (afterOp ?o' m) _ _ _ =>
        specialize (IH x (Hk x) (afterOp o' m));
        rewrite held_afterOp in IH; exact IH
    end.
Qed.

Lemma guarded_bind {A B : Type} (p : Prog A) (f : A -> Prog B) m hr hr' ht :
  guarded m hr ht p ->
  (forall a, guarded (modeOf hr) hr' ht (f a)) ->
  guarded m hr' ht (bind p f).
Proof.
  intros Hp Hf. revert m Hp.
  induction p as [a|e|o k IH]; intros m Hp; simpl in *.
  - apply guarded_modeOf. rewrite Hp. apply Hf.
  - exact Hp.
  - destruct o; simpl in *;
      try (intros x; apply IH, Hp).
    + destruct m.
      * destruct Hp as [H1 H2]. split; now apply IH.
      * intros b. apply IH, Hp.
      * intros b. apply IH, Hp.
    + destruct b; destruct Hp as [Hm Hp]; (split; [exact Hm | now apply IH]).
Qed.

Lemma guarded_tryCatch {A : Type} (p : Prog A) h m hr ht ht' :
  guarded m hr ht' p ->
  (forall e, guarded (modeOf ht') hr ht (h e)) ->
  guarded m hr ht (tryCatch p h).
Proof.
  intros Hp Hh. revert m Hp.
  induction p as [a|e|o k IH]; intros m Hp; simpl in *.
  - exact Hp.
  - apply guarded_modeOf. rewrite Hp. apply Hh.
  - destruct o; simpl in *;
      try (intros x; apply IH, Hp).
    + destruct m.
      * destruct Hp as [H1 H2]. split; now apply IH.
      * intros b. apply IH, Hp.
      * intros b. apply IH, Hp.
    + destruct b; destruct Hp as [Hm Hp]; (split; [exact Hm | now apply IH]).
Qed.

(** [try { p } finally { this.isUpdating = false }] around a body that keeps
    the guard. *)
Lemma guarded_release {A : Type} (p : Prog A) m :
  guarded m true true p ->
  guarded m false false (tryFinally p (op (SetUpdating false))).
Proof.
  revert m. induction p as [a|e|o k IH]; intros m Hp; simpl in *.
  - destruct m; try discriminate. now split.
  - destruct m; try discriminate. now split.
  - destruct o; simpl in *;
      try (intros x; apply IH, Hp).
    + destruct m.
      * destruct Hp as [H1 H2]. split; now apply IH.
      * intros b. apply IH, Hp.
      * intros b. apply IH, Hp.
    + destruct b; destruct Hp as [Hm Hp]; (split; [exact Hm | now apply IH]).
Qed.

Lemma neutral_bind {A B : Type} (p : Prog A) (f : A -> Prog B) :
  neutral p -> (forall a, neutral (f a)) -> neutral (bind p f).
Proof.
  intros Hp Hf. induction p as [a|e|o k IH]; simpl in *; auto.
  destruct Hp as [Hg Hk]. split; [exact Hg|]. intros x. apply IH, Hk.
Qed.

Lemma neutral_tryCatch {A : Type} (p : Prog A) h :
  neutral p -> (forall e, neutral (h e)) -> neutral (tryCatch p h).
Proof.
  intros Hp Hh. induction p as [a|e|o k IH]; simpl in *; auto.
  destruct Hp as [Hg Hk]. split; [exact Hg|]. intros x. apply IH, Hk.
Qed.

Lemma neutral_op o : isGuardOp o = false -> neutral (op o).
Proof. intros H. simpl. split; [exact H | intros x; exact I]. Qed.

Lemma neutral_when b p : neutral p -> neutral (when b p).
Proof. intros H. destruct b; [exact H | exact I]. Qed.

Lemma neutral_forEach {A : Type} (l : list A) body :
  (forall x, neutral (body x)) -> neutral (forEach l body).
Proof.
  intros H. induction l as [|x r IH]; simpl; [exact I|].
  apply neutral_bind; [apply H | intros _; exact IH].
Qed.

Lemma neutral_executeAppleScript s : neutral (executeAppleScript s).
Proof.
  simpl. split; [reflexivity|].
  intros [[[|n]|] out err|msg]; exact I.
Qed.

Lemma neutral_executeCommand c : neutral (executeCommand c).
Proof.
  simpl. split; [reflexivity|].
  intros [[[|n]|] out err|msg]; exact I.
Qed.

Lemma neutral_isZoomRunning : neutral isZoomRunning.
Proof.
  unfold isZoomRunning. apply neutral_tryCatch; [|intros; exact I].
  apply neutral_bind; [apply neutral_executeCommand | intros; exact I].
Qed.

Lemma neutral_isInMeeting : neutral isInMeeting.
Proof.
  unfold isInMeeting. apply neutral_tryCatch; [|intros; exact I].
  apply neutral_bind; [apply neutral_executeAppleScript|].
  intros r. apply neutral_bind; [now apply neutral_op | intros; exact I].
Qed.

Lemma neutral_cleanup : neutral cleanup.
Proof.
  unfold cleanup. apply neutral_bind; [now apply neutral_op|].
  intros [id|]; [|exact I].
  apply neutral_bind; [now apply neutral_op | intros; now apply neutral_op].
Qed.

Lemma neutral_startPeriodicStateCheck config :
  neutral (startPeriodicStateCheck config).
Proof.
  unfold startPeriodicStateCheck.
  apply neutral_bind; [apply neutral_cleanup | intros _].
  apply neutral_bind; [now apply neutral_op | intros; now apply neutral_op].
Qed.

Lemma neutral_validateKeyboardShortcut s : neutral (validateKeyboardShortcut s).
Proof.
  unfold validateKeyboardShortcut.
  destruct (negb (truthy s)); [exact I|]. cbv zeta.
  destruct (List.length _ =? 0); [exact I|].
  apply neutral_bind; [|intros; exact I].
  apply neutral_forEach. intros m. apply neutral_when. now apply neutral_op.
Qed.

Lemma neutral_retryLoop config sub method shortcut fuel : forall attempt,
  neutral (retryLoop config sub method shortcut fuel attempt).
Proof.
  induction fuel as [|fuel IH]; intros attempt; [exact I|].
  rewrite retryLoop_S.
  destruct (attempt <? maxRetryAttempts config); [|exact I].
  apply neutral_tryCatch.
  - apply neutral_bind; [apply neutral_executeAppleScript | intros; exact I].
  - intros e. destruct (maxRetryAttempts config <=? S attempt); [exact I|].
    apply neutral_bind; [now apply neutral_op | intros _; apply IH].
Qed.

Lemma neutral_onKeyDown config sub settings : neutral (onKeyDown config sub settings).
Proof.
  unfold onKeyDown. apply neutral_tryCatch.
  - apply neutral_bind; [apply neutral_cleanup | intros _].
    apply neutral_bind; [apply neutral_isZoomRunning | intros running].
    destruct (negb running); [now apply neutral_op|]. cbv zeta.
    apply neutral_bind; [apply neutral_validateKeyboardShortcut | intros ks].
    apply neutral_bind; [apply neutral_retryLoop | intros _].
    now apply neutral_op.
  - intros e. apply neutral_bind; [now apply neutral_op | intros; now apply neutral_op].
Qed.

Lemma neutral_detect_mute : neutral Monitor.detectZoomMuteState.
Proof.
  unfold Monitor.detectZoomMuteState. apply neutral_tryCatch.
  - apply neutral_bind; [apply neutral_executeAppleScript | intros r].
    destruct (String.eqb r "muted"); [exact I|].
    destruct (String.eqb r "unmuted"); [exact I|].
    apply neutral_bind; [|intros; exact I].
    apply neutral_when. now apply neutral_op.
  - intros e. apply neutral_bind; [now apply neutral_op | intros; exact I].
Qed.

Lemma neutral_detect_video : neutral Monitor.detectZoomVideoState.
Proof.
  unfold Monitor.detectZoomVideoState. apply neutral_tryCatch.
  - apply neutral_bind; [apply neutral_executeAppleScript | intros r].
    destruct (String.eqb r "video_on"); [exact I|].
    destruct (String.eqb r "video_off"); [exact I|].
    apply neutral_bind; [|intros; exact I].
    apply neutral_when. now apply neutral_op.
  - intros e. apply neutral_bind; [now apply neutral_op | intros; exact I].
Qed.

Lemma neutral_subclass kind : neutralSubclass (subclass kind).
Proof.
  destruct kind; split; simpl.
  - apply neutral_detect_mute.
  - intros []; first [exact I | now apply neutral_op].
  - apply neutral_detect_video.
  - intros []; first [exact I | now apply neutral_op].
Qed.

(** *** The methods of the controller follow the discipline *)

(** The shape of [updateState]: test the guard, take it, release it in a
    [finally]. *)
Lemma guarded_test_and_set (body : Prog unit) :
  guarded Held true true body ->
  disciplined Idle
    (updating <- op GetUpdating ;;
     if updating then Ret tt
     else op (SetUpdating true) ;; tryFinally body (op (SetUpdating false))).
Proof.
  intros H. unfold disciplined. simpl.
  split; [reflexivity|]. split; [reflexivity|].
  apply guarded_release, H.
Qed.

Lemma disciplined_updateState sub :
  neutralSubclass sub -> disciplined Idle (updateState sub).
Proof.
  intros [Hd Hs]. unfold updateState. apply guarded_test_and_set.
  refine (neutral_guarded _ _ Held).
  apply neutral_tryCatch.
  - apply neutral_bind; [apply neutral_isZoomRunning | intros running].
    destruct (negb running); [now apply neutral_op|].
    apply neutral_bind; [apply neutral_isInMeeting | intros inMeeting].
    destruct (negb inMeeting); [now apply neutral_op|].
    apply neutral_bind; [exact Hd | intros z].
    apply neutral_when.
    apply neutral_bind; [apply Hs | intros; now apply neutral_op].
  - intros e. apply neutral_bind; [now apply neutral_op | intros; now apply neutral_op].
Qed.

Lemma disciplined_neutral (p : Prog unit) : neutral p -> disciplined Idle p.
Proof. intros H. exact (neutral_guarded p H Idle). Qed.

Lemma disciplined_controller config sub :
  neutralSubclass sub -> disciplinedController (controller config sub).
Proof.
  intros Hn. pose proof (disciplined_updateState sub Hn) as Hu.
  unfold disciplinedController, controller.
  cbn [Runtime.onWillAppear Runtime.onWillDisappear Runtime.onKeyDown
       Runtime.timerCallback].
  split; [|split; [|split]].
  - unfold onWillAppear. apply (guarded_bind _ _ _ false); [exact Hu|].
    intros _. apply disciplined_neutral, neutral_startPeriodicStateCheck.
  - unfold onWillDisappear. apply disciplined_neutral, neutral_cleanup.
  - intros st. apply disciplined_neutral, neutral_onKeyDown.
  - intros [|].
    + unfold verification. apply (guarded_bind _ _ _ false); [exact Hu|].
      intros _. apply disciplined_neutral, neutral_startPeriodicStateCheck.
    + unfold periodicTick. apply (guarded_tryCatch _ _ _ _ _ false).
      * apply (guarded_bind _ _ _ false).
        -- apply (neutral_guarded _ neutral_isZoomRunning Idle).
        -- intros [|]; [|reflexivity].
           apply (guarded_bind _ _ _ false).
           ++ apply (neutral_guarded _ neutral_isInMeeting Idle).
           ++ intros [|]; [exact Hu | reflexivity].
      * intros e. apply disciplined_neutral. now apply neutral_op.
Qed.

(** *** One step of a method preserves the count of holders *)

Lemma guarded_other {A : Type} o (k : Resp o -> Prog A) m hr ht :
  isGuardOp o = false ->
  guarded m hr ht (Do o k) ->
  forall x, guarded (afterOp o m) hr ht (k x).
Proof. destruct o; simpl; intros Hg H; try discriminate; exact H. Qed.

Lemma perform_isUpdating env o w :
  isGuardOp o = false ->
  isUpdating (fields (snd (perform env o w))) = isUpdating (fields w).
Proof. destruct o; simpl; intros Hg; try discriminate; reflexivity. Qed.

Lemma afterOp_suspends o m : suspends o = true -> afterOp o m = modeOf (held m).
Proof. intros H. destruct m; simpl; [reflexivity | now rewrite H | reflexivity]. Qed.

Lemma afterOp_continues o m : suspends o = false -> afterOp o m = m.
Proof. intros H. destruct m; simpl; [reflexivity | now rewrite H | reflexivity]. Qed.

Lemma b2n_le b : b2n b <= 1.
Proof. destruct b; simpl; lia. Qed.

Lemma advance_guarded env (p : Prog unit) : forall m w others,
  guarded m false false p ->
  (m = Free -> isUpdating (fields w) = false) ->
  b2n (isUpdating (fields w)) = b2n (held m) + others ->
  match advance env p w with
  | (Some p', w') =>
      exists h', disciplined (modeOf h') p' /\
                 b2n (isUpdating (fields w')) = b2n h' + others
  | (None, w') => b2n (isUpdating (fields w')) = others
  end.
Proof.
  induction p as [a|e|o k IH]; intros m w others Hp Hfree Hcount.
  - simpl in *. rewrite Hp in Hcount. exact Hcount.
  - simpl in *. rewrite Hp in Hcount. exact Hcount.
  - destruct (isGuardOp o) eqn:Hg.
    + destruct o; try discriminate.
      * (* the test of the guard *)
        simpl advance. simpl in Hp.
        destruct m.
        -- destruct Hp as [Ht Hf].
           destruct (isUpdating (fields w)) eqn:Hup.
           ++ apply (IH true Idle); [exact Ht | discriminate | now rewrite Hup].
           ++ apply (IH false Free); [exact Hf | auto | now rewrite Hup].
        -- apply (IH _ Free); [apply Hp | exact Hfree | exact Hcount].
        -- apply (IH _ Held); [apply Hp | discriminate | exact Hcount].
      * destruct b; simpl in Hp; destruct Hp as [Hm Hp]; subst m; simpl advance.
        -- (* taking the guard: it was free, nobody else holds it *)
           apply (IH tt Held); [exact Hp | discriminate |].
           rewrite (Hfree eq_refl) in Hcount. simpl in *. lia.
        -- (* releasing it *)
           apply (IH tt Idle); [exact Hp | discriminate |].
           pose proof (b2n_le (isUpdating (fields w))). simpl in *. lia.
    + pose proof (guarded_other o k m false false Hg Hp) as Hk.
      pose proof (perform_isUpdating env o w Hg) as Hsame.
      assert (Hadv : advance env (Do o k) w
                     = if suspends o
                       then (Some (k (fst (perform env o w))), snd (perform env o w))
                       else advance env (k (fst (perform env o w)))
                                    (snd (perform env o w))).
      { simpl. destruct (perform env o w). reflexivity. }
      rewrite Hadv. clear Hadv.
      destruct (suspends o) eqn:Hs.
      * exists (held m). split.
        -- unfold disciplined. rewrite <- (afterOp_suspends o m Hs). apply Hk.
        -- now rewrite Hsame.
      * apply (IH _ m).
        -- rewrite <- (afterOp_continues o m Hs) at 1. apply Hk.
        -- intros Hm. rewrite Hsame. now apply Hfree.
        -- now rewrite Hsame.
Qed.

(** *** The invariant of the event loop *)

Lemma holders_cons h l : holders (h :: l) = b2n h + holders l.
Proof.
  unfold holders. simpl. destruct (bool_dec h true) as [E|E].
  - now subst h.
  - destruct h; [congruence | reflexivity].
Qed.

Lemma holders_app a b : holders (a ++ b) = holders a + holders b.
Proof. unfold holders. apply count_occ_app. Qed.

Lemma replaceNth_app {A : Type} (l1 : list A) x l2 o :
  replaceNth (List.length l1) o (l1 ++ x :: l2)
  = (l1 ++ match o with Some y => y :: l2 | None => l2 end)%list.
Proof.
  induction l1 as [|a l1 IH]; simpl.
  - now destruct o.
  - now rewrite IH.
Qed.

Lemma Inv_start env p s :
  disciplined Idle p -> Inv s -> Inv (start env p s).
Proof.
  intros Hp [hs [Hall Hcount]]. unfold start.
  pose proof (advance_guarded env p Idle (world s) (holders hs) Hp) as H.
  destruct (advance env p (world s)) as [[p'|] w'].
  - destruct H as [h' [Hd Hc]]; [discriminate | simpl; lia |].
    exists (hs ++ [h'])%list. split; simpl.
    + apply Forall2_app; [exact Hall | now constructor].
    + rewrite holders_app, holders_cons. unfold holders at 2. simpl. lia.
  - exists hs. split; simpl; [exact Hall|].
    rewrite H; [reflexivity | discriminate | simpl; lia].
Qed.

Lemma Inv_resume env c i s : Inv s -> Inv (step env c (Resume i) s).
Proof.
  intros [hs [Hall Hcount]]. simpl.
  destruct (nth_error (tasks s) i) as [p|] eqn:Hnth; [|now exists hs].
  destruct (nth_error_split _ _ Hnth) as [l1 [l2 [Hl Hlen]]].
  rewrite Hl in Hall.
  destruct (Forall2_app_inv_r _ _ Hall) as [h1 [hr [H1 [Hr Hhs]]]].
  inversion Hr as [|h p0 h2 l2' Hhp H2]; subst.
  rewrite holders_app, holders_cons in Hcount.
  pose proof (advance_guarded env p (modeOf h) (world s)
                (holders h1 + holders h2) Hhp) as H.
  assert (Hheld : held (modeOf h) = h) by now destruct h.
  rewrite Hheld in H.
  destruct (advance env p (world s)) as [[p'|] w'];
    rewrite Hl, replaceNth_app; simpl.
  - destruct H as [h' [Hd Hc]]; [destruct h; discriminate | lia |].
    exists (h1 ++ h' :: h2)%list. split.
    + apply Forall2_app; [exact H1 | now constructor].
    + rewrite holders_app, holders_cons. cbn [world]. lia.
  - exists (h1 ++ h2)%list. split.
    + now apply Forall2_app.
    + rewrite holders_app. cbn [world].
      rewrite H; [reflexivity | destruct h; discriminate | lia].
Qed.

Lemma step_Inv env c ch s :
  disciplinedController c -> Inv s -> Inv (step env c ch s).
Proof.
  intros [Ha [Hd [Hk Ht]]] HI. destruct ch as [i|id|st| |].
  - exact (Inv_resume env c i s HI).
  - simpl. destruct (find _ (timers (world s))) as [t|]; [|exact HI].
    apply Inv_start; [apply Ht|].
    destruct HI as [hs [Hall Hcount]]. exists hs. split; [exact Hall|].
    simpl. destruct (periodic t); exact Hcount.
  - simpl. apply Inv_start; [apply Hk | exact HI].
  - simpl. apply Inv_start; [exact Ha | exact HI].
  - simpl. apply Inv_start; [exact Hd | exact HI].
Qed.

Lemma exec_Inv env c sched : forall s,
  disciplinedController c -> Inv s -> Inv (exec env c sched s).
Proof.
  induction sched as [|ch r IH]; intros s Hc HI; simpl; [exact HI|].
  apply IH; [exact Hc | now apply step_Inv].
Qed.

Lemma Inv_initial : Inv initialSys.
Proof. exists []. split; [constructor | reflexivity]. Qed.

(** *** What the invariant says about the suspended methods *)

Lemma held_not_idle (p : Prog unit) :
  disciplined Held p -> disciplined Idle p -> False.
Proof.
  unfold disciplined.
  induction p as [a|e|o k IH]; intros HH HI; simpl in *; try discriminate.
  destruct (isGuardOp o) eqn:Hg.
  - destruct o; try discriminate; simpl in *.
    + apply (IH true); [apply HH | apply HI].
    + destruct b; [destruct HH as [E _] | destruct HI as [E _]]; discriminate.
  - apply (IH (someResp o)).
    + exact (guarded_other o k Held false false Hg HH (someResp o)).
    + exact (guarded_other o k Idle false false Hg HI (someResp o)).
Qed.

Lemma holders_ge hs j : nth_error hs j = Some true -> 1 <= holders hs.
Proof.
  revert j. induction hs as [|h r IH]; intros [|j] H; simpl in H; try discriminate.
  - inversion H; subst. rewrite holders_cons. simpl. lia.
  - rewrite holders_cons. specialize (IH j H). lia.
Qed.

Lemma holders_unique hs : forall i j,
  holders hs <= 1 ->
  nth_error hs i = Some true -> nth_error hs j = Some true -> i = j.
Proof.
  induction hs as [|h r IH]; intros [|i] [|j] Hle Hi Hj; simpl in *;
    try discriminate; try reflexivity; rewrite holders_cons in Hle.
  - inversion Hi; subst. pose proof (holders_ge r j Hj). simpl in Hle. lia.
  - inversion Hj; subst. pose proof (holders_ge r i Hi). simpl in Hle. lia.
  - f_equal. apply IH; [lia | exact Hi | exact Hj].
Qed.

Lemma Forall2_flag (hs : list bool) (ts : list (Prog unit)) i p :
  Forall2 (fun h q => disciplined (modeOf h) q) hs ts ->
  nth_error ts i = Some p ->
  inCycle p ->
  nth_error hs i = Some true.
Proof.
  intros Hall. revert i. induction Hall as [|h q hs' ts' Hhq _ IH];
    intros [|i] Hnth Hin; simpl in *; try discriminate.
  - inversion Hnth; subst. destruct h; [reflexivity|].
    exfalso. exact (held_not_idle p Hin Hhq).
  - now apply IH.
Qed.

Lemma Inv_exclusive s :
  Inv s ->
  (forall i j p q,
     nth_error (tasks s) i = Some p -> nth_error (tasks s) j = Some q ->
     inCycle p -> inCycle q -> i = j) /\
  (isUpdating (fields (world s)) = false ->
   forall i p, nth_error (tasks s) i = Some p -> ~ inCycle p).
Proof.
  intros [hs [Hall Hcount]]. split.
  - intros i j p q Hi Hj Hp Hq.
    apply (holders_unique hs).
    + rewrite Hcount. apply b2n_le.
    + exact (Forall2_flag hs (tasks s) i p Hall Hi Hp).
    + exact (Forall2_flag hs (tasks s) j q Hall Hj Hq).
  - intros Hfree i p Hi Hp.
    pose proof (Forall2_flag hs (tasks s) i p Hall Hi Hp) as Hflag.
    pose proof (holders_ge hs i Hflag). rewrite Hcount, Hfree in H. simpl in H. lia.
Qed.

Lemma Forall2_task (hs : list bool) (ts : list (Prog unit)) i p :
  Forall2 (fun h q => disciplined (modeOf h) q) hs ts ->
  nth_error ts i = Some p ->
  exists h, nth_error hs i = Some h /\ disciplined (modeOf h) p.
Proof.
  intros Hall. revert i. induction Hall as [|h q hs' ts' Hhq _ IH];
    intros [|i] Hnth; simpl in *; try discriminate.
  - inversion Hnth; subst. now exists h.
  - now apply IH.
Qed.

Lemma Forall2_holder (hs : list bool) (ts : list (Prog unit)) :
  Forall2 (fun h q => disciplined (modeOf h) q) hs ts ->
  1 <= holders hs ->
  exists i p, nth_error ts i = Some p /\ inCycle p.
Proof.
  intros Hall. induction Hall as [|h q hs' ts' Hhq _ IH]; intros Hpos.
  - unfold holders in Hpos. simpl in Hpos. lia.
  - rewrite holders_cons in Hpos. destruct h.
    + exists 0, q. now split.
    + simpl in Hpos. destruct (IH Hpos) as [i [p [Hi Hp]]].
      exists (S i), p. now split.
Qed.

(** Every suspended method is either inside the guarded region or outside
    of it, and a guard that is set is held by one of them. *)
Lemma Inv_classified s :
  Inv s ->
  (forall i p, nth_error (tasks s) i = Some p -> inCycle p \/ disciplined Idle p) /\
  (isUpdating (fields (world s)) = true ->
   exists i p, nth_error (tasks s) i = Some p /\ inCycle p).
Proof.
  intros [hs [Hall Hcount]]. split.
  - intros i p Hi. destruct (Forall2_task hs (tasks s) i p Hall Hi) as [h [_ Hd]].
    destruct h; [now left | now right].
  - intros Hset. apply (Forall2_holder hs (tasks s) Hall).
    rewrite Hcount, Hset. simpl. lia.
Qed.

(** *** Entering and finding the guard taken *)

Lemma advance_updateState_free sub env w :
  neutralSubclass sub ->
  isUpdating (fields w) = false ->
  exists p', advance env (updateState sub) w
             = (Some p', spawned Pgrep (acquired w)) /\ inCycle p'.
Proof.
  intros Hn Hfree.
  pose proof (advance_guarded env (updateState sub) Idle w 0
                (disciplined_updateState sub Hn)) as H.
  assert (Hadv : exists p', advance env (updateState sub) w
                            = (Some p', spawned Pgrep (acquired w))).
  { unfold updateState, isZoomRunning, executeCommand, Monitor.executeCommand.
    simpl. rewrite Hfree. simpl. eexists. reflexivity. }
  destruct Hadv as [p' Hadv]. exists p'. split; [exact Hadv|].
  rewrite Hadv in H.
  destruct H as [h' [Hd Hc]]; [discriminate | now rewrite Hfree |].
  simpl in Hc. destruct h'; [exact Hd | discriminate].
Qed.

Lemma advance_updateState_busy sub env w :
  isUpdating (fields w) = true ->
  advance env (updateState sub) w = (None, w).
Proof. intros H. unfold updateState. simpl. now rewrite H. Qed.

Lemma periodicTick_busy sub env w :
  isUpdating (fields w) = true ->
  let w' := snd (run env (periodicTick sub) w) in
  filter isDetectorCall (since w w') = [] /\
  filter isExecutorCall (since w w') = [] /\
  button w' = button w /\
  title w' = title w /\
  fields w' = fields w.
Proof.
  intros Hbusy. cbv zeta. unfold periodicTick.
  rewrite run_tryCatch, run_bind, run_isZoomRunning.
  destruct (processPresent (env (launched w))) eqn:Hpres.
  - rewrite run_bind, run_isInMeeting.
    destruct (sessionActive (env (launched (spawned Pgrep w)))) eqn:Hact.
    + cbn [when]. rewrite run_updateState_busy by exact Hbusy. cbn [fst snd].
      rewrite (since_app w _
                 ([Spawn Pgrep; Spawn (Osascript CheckMeetingScript)]
                    ++ meetingLogs (env (launched (spawned Pgrep w)))))
        by (simpl; now rewrite <- !app_assoc).
      rewrite !filter_app, !filter_meetingLogs by reflexivity.
      repeat split.
    + cbn [when run fst snd].
      rewrite (since_app w _
                 ([Spawn Pgrep; Spawn (Osascript CheckMeetingScript)]
                    ++ meetingLogs (env (launched (spawned Pgrep w)))))
        by (simpl; now rewrite <- !app_assoc).
      rewrite !filter_app, !filter_meetingLogs by reflexivity.
      repeat split.
  - cbn [run fst snd].
    rewrite (since_app w _ [Spawn Pgrep]) by reflexivity.
    repeat split.
Qed.

(** C6 (the claim fails). An update cycle started by the appearance of the
    action holds the guard, suspended on its pgrep, when a key is pressed.
    The key press is not ignored: it runs its own availability check and
    launches the toggle command while the guard is still held. *)
Lemma activation_not_gated_by_guard :
  let c := controller defaultConfig ZoomMuteToggle in
  let s := exec Scenarios.envRunning c
                [WillAppear; KeyDown Scenarios.noSettings; Resume 1] initialSys in
  let toggle :=
    Spawn (Osascript (KeyboardScript 100
                        (generateKeystrokeScript "cmd+shift+option+a"))) in
  isUpdating (fields (world s)) = true /\
  List.length (tasks s) = 2 /\
  trace (world s) = [Spawn Pgrep; Spawn Pgrep; toggle] /\
  filter isExecutorCall (trace (world s)) = [toggle].
Proof. repeat split. Qed.

End GuardFacts.

(** ** A key press in every environment *)

Module ScheduleFacts.
Import JsString Keystroke Runtime Observe Schedule RuntimeFacts BaseFacts ToggleBase.

Lemma failuresBefore_le env limit : forall from,
  failuresBefore env from limit <= limit.
Proof.
  induction limit as [|l IH]; intros from; simpl; [lia|].
  destruct (succeeded (env from)); [lia|]. specialize (IH (S from)). lia.
Qed.

Lemma failuresBefore_failed env limit : forall from k,
  k < failuresBefore env from limit -> succeeded (env (k + from)) = false.
Proof.
  induction limit as [|l IH]; intros from k Hk; simpl in Hk; [lia|].
  destruct (succeeded (env from)) eqn:E; [lia|].
  destruct k as [|k]; [exact E|].
  replace (S k + from) with (k + S from) by lia. apply IH. lia.
Qed.

Lemma failuresBefore_succeeded env limit : forall from,
  failuresBefore env from limit < limit ->
  succeeded (env (failuresBefore env from limit + from)) = true.
Proof.
  induction limit as [|l IH]; intros from H; simpl in *; [lia|].
  destruct (succeeded (env from)) eqn:E; [exact E|].
  replace (S (failuresBefore env (S from) l) + from)
    with (failuresBefore env (S from) l + S from) by lia.
  apply IH. lia.
Qed.

(** The Executor, whatever the processes do: it stops at the first attempt
    that succeeds, or at attempt number [maxRetryAttempts]. *)
Lemma run_executeToggleAction config sub env method shortcut w0 :
  0 < maxRetryAttempts config ->
  let script := Osascript (toggleScript config sub method shortcut) in
  let failures := failuresBefore env (launched w0) (maxRetryAttempts config) in
  let n := Nat.min failures (maxRetryAttempts config - 1) in
  run env (executeToggleAction config sub method shortcut) w0
  = (if failures <? maxRetryAttempts config then Returned tt
     else Thrown (rejection (env (maxRetryAttempts config - 1 + launched w0))),
     afterCalls (S n)
       (backoffSteps script (retryDelay config) n 0 ++ [Spawn script]) w0).
Proof.
  intros Hpos. cbv zeta.
  pose proof (failuresBefore_le env (maxRetryAttempts config) (launched w0)) as Hle.
  unfold executeToggleAction.
  destruct (failuresBefore env (launched w0) (maxRetryAttempts config)
            <? maxRetryAttempts config) eqn:E.
  - apply Nat.ltb_lt in E. rewrite Nat.min_l by lia.
    apply retryLoop_success; try lia.
    + intros k Hk.
      now apply failuresBefore_failed with (limit := maxRetryAttempts config).
    + now apply failuresBefore_succeeded.
  - apply Nat.ltb_ge in E. rewrite Nat.min_r by lia.
    apply retryLoop_exhausted; try lia.
    intros k Hk.
    apply failuresBefore_failed with (limit := maxRetryAttempts config). lia.
Qed.

Lemma run_key_press config kind env w settings :
  0 < maxRetryAttempts config ->
  processPresent (env (launched w)) = true ->
  let sub := subclass kind in
  let script :=
    Osascript (toggleScript config sub (methodOf settings) (shortcutOf sub settings)) in
  let failures := failuresBefore env (S (launched w)) (maxRetryAttempts config) in
  let n := Nat.min failures (maxRetryAttempts config - 1) in
  let w3 := afterCalls (S n)
              (backoffSteps script (retryDelay config) n 0 ++ [Spawn script])
              (addTrace (validateLogs (shortcutOf sub settings))
                        (spawned Pgrep (cleaned w))) in
  run env (onKeyDown config sub settings) w
  = (Returned tt,
     if failures <? maxRetryAttempts config
     then addTimer false VerifyCallback (stateUpdateDelay config)
            (addTrace [SetTimeout VerifyCallback (stateUpdateDelay config)] w3)
     else withTitle titleError
            (addTrace [Console LogError
                         ("Failed to toggle Zoom " ++ getActionType sub ++ ":");
                       SetTitle titleError] w3)).
Proof.
  intros Hpos Hpres. cbv zeta.
  rewrite (run_onKeyDown_present config (subclass kind) env w settings
             (truthy_default kind) Hpres).
  rewrite (run_executeToggleAction config (subclass kind) env (methodOf settings)
             (shortcutOf (subclass kind) settings) _ Hpos).
  cbv zeta.
  change (launched (addTrace (validateLogs (shortcutOf (subclass kind) settings))
                             (spawned Pgrep (cleaned w))))
    with (S (launched (cleaned w))).
  rewrite launched_cleaned.
  destruct (failuresBefore env (S (launched w)) (maxRetryAttempts config)
            <? maxRetryAttempts config); reflexivity.
Qed.

(** X3. A key press of ZoomToggleBase, for every behaviour of the processes
    it launches.  With [failures] the number of toggle commands, among the
    first [maxRetryAttempts] launched, that fail before one succeeds, the
    handler returns normally after having performed, in this order: the
    cancellation of the periodic timer, the pgrep check and, when it finds
    Zoom, the warnings of the shortcut validation, [min failures
    (maxRetryAttempts - 1)] failed attempts each followed by its delay, one
    last attempt, and then either the arming of the verification (an attempt
    succeeded) or the error log and the error title (all failed).  The state
    of the key is never set, no periodic timer is stored, and the one
    verification timeout is the only timer added. *)
Theorem key_press_in_every_environment config kind env w settings :
  0 < maxRetryAttempts config ->
  let sub := subclass kind in
  let script :=
    Osascript (toggleScript config sub (methodOf settings) (shortcutOf sub settings)) in
  let failures := failuresBefore env (S (launched w)) (maxRetryAttempts config) in
  let toggled := failures <? maxRetryAttempts config in
  let result := run env (onKeyDown config sub settings) w in
  fst result = Returned tt /\
  since w (snd result)
  = (cleanupSteps w ++ Spawn Pgrep ::
       (if processPresent (env (launched w)) then
          validateLogs (shortcutOf sub settings)
          ++ backoffSteps script (retryDelay config)
               (Nat.min failures (maxRetryAttempts config - 1)) 0
          ++ Spawn script ::
             (if toggled
              then [SetTimeout VerifyCallback (stateUpdateDelay config)]
              else [Console LogError
                      ("Failed to toggle Zoom " ++ getActionType sub ++ ":");
                    SetTitle titleError])
        else [SetTitle titleNotRunning]))%list /\
  title (snd result)
  = (if processPresent (env (launched w))
     then if toggled then title w else titleError
     else titleNotRunning) /\
  button (snd result) = button w /\
  stateCheckInterval (fields (snd result)) = None /\
  timers (snd result)
  = (timers (cleaned w)
       ++ (if processPresent (env (launched w)) && toggled
           then [mkTimer (nextTimer w) false VerifyCallback (stateUpdateDelay config)]
           else []))%list.
Proof.
  intros Hpos. cbv zeta.
  assert (Hnone : stateCheckInterval (fields (cleaned w)) = None).
  { unfold cleaned. destruct (stateCheckInterval (fields w)) eqn:E; [reflexivity | exact E]. }
  destruct (processPresent (env (launched w))) eqn:Hpres.
  - rewrite (run_key_press config kind env w settings Hpos Hpres). cbv zeta.
    cbn [fst snd andb].
    destruct (failuresBefore env (S (launched w)) (maxRetryAttempts config)
              <? maxRetryAttempts config).
    + split; [reflexivity|]. split.
      { apply since_app. simpl. rewrite trace_cleaned.
        rewrite <- !app_assoc. reflexivity. }
      split; [simpl; apply title_cleaned|].
      split; [simpl; apply button_cleaned|].
      split; [exact Hnone|].
      simpl. now rewrite ControllerFacts.nextTimer_cleaned.
    + split; [reflexivity|]. split.
      { apply since_app. simpl. rewrite trace_cleaned.
        rewrite <- !app_assoc. reflexivity. }
      split; [reflexivity|].
      split; [simpl; apply button_cleaned|].
      split; [exact Hnone|].
      simpl. now rewrite app_nil_r.
  - rewrite (run_onKeyDown_absent config (subclass kind) env w settings Hpres).
    cbn [fst snd andb].
    split; [reflexivity|]. split.
    { apply since_app. simpl. rewrite trace_cleaned.
      rewrite <- !app_assoc. reflexivity. }
    split; [reflexivity|].
    split; [simpl; apply button_cleaned|].
    split; [exact Hnone|].
    simpl. now rewrite app_nil_r.
Qed.

Lemma key_press_in_every_environment_witness :
  let attempt :=
    Spawn (Osascript (KeyboardScript 100 (generateKeystrokeScript "cmd+shift+v"))) in
  let result := run Scenarios.envFailTwice
                    (onKeyDown defaultConfig ZoomVideoToggle Scenarios.noSettings)
                    initialWorld in
  trace (snd result)
  = [Spawn Pgrep; attempt; Sleep 200; attempt; Sleep 400; attempt;
     SetTimeout VerifyCallback 1000] /\
  timers (snd result) = [mkTimer 0 false VerifyCallback 1000].
Proof.
  destruct (key_press_in_every_environment defaultConfig VideoAction
              Scenarios.envFailTwice initialWorld Scenarios.noSettings
              (Nat.lt_0_succ 2)) as [_ [A [_ [_ [_ B]]]]].
  split; [exact A | exact B].
Defined.

(** *** Bounds on the Executor *)

Lemma totalSleep_app a b : totalSleep (a ++ b) = totalSleep a + totalSleep b.
Proof. unfold totalSleep. now rewrite map_app, list_sum_app. Qed.

Lemma totalSleep_cleanupSteps w : totalSleep (cleanupSteps w) = 0.
Proof. unfold cleanupSteps. now destruct (stateCheckInterval (fields w)). Qed.

Lemma totalSleep_validateLogs s : totalSleep (validateLogs s) = 0.
Proof.
  unfold validateLogs.
  induction (removelast (split "+" (toLowerCase s))) as [|m r IH]; [reflexivity|].
  cbn [flat_map]. rewrite totalSleep_app, IH.
  now destruct (negb (includes validModifiers m)).
Qed.

Lemma totalSleep_backoff script retryDelay n : forall attempt,
  2 * totalSleep (backoffSteps script retryDelay n attempt)
  = retryDelay * (2 * n * attempt + n * (n + 1)).
Proof.
  induction n as [|n IH]; intros attempt.
  - cbn. lia.
  - cbn [backoffSteps].
    change (totalSleep (Spawn script :: Sleep (retryDelay * S attempt)
                          :: backoffSteps script retryDelay n (S attempt)))
      with (retryDelay * S attempt
            + totalSleep (backoffSteps script retryDelay n (S attempt))).
    specialize (IH (S attempt)). nia.
Qed.

(** The trace of a key press that finds Zoom. *)
Lemma since_key_press config kind env w settings :
  0 < maxRetryAttempts config ->
  processPresent (env (launched w)) = true ->
  let sub := subclass kind in
  let script :=
    Osascript (toggleScript config sub (methodOf settings) (shortcutOf sub settings)) in
  let failures := failuresBefore env (S (launched w)) (maxRetryAttempts config) in
  since w (snd (run env (onKeyDown config sub settings) w))
  = (cleanupSteps w ++ [Spawn Pgrep]
       ++ validateLogs (shortcutOf sub settings)
       ++ backoffSteps script (retryDelay config)
            (Nat.min failures (maxRetryAttempts config - 1)) 0
       ++ [Spawn script]
       ++ (if failures <? maxRetryAttempts config
           then [SetTimeout VerifyCallback (stateUpdateDelay config)]
           else [Console LogError
                   ("Failed to toggle Zoom " ++ getActionType sub ++ ":");
                 SetTitle titleError]))%list.
Proof.
  intros Hpos Hpres. cbv zeta.
  rewrite (run_key_press config kind env w settings Hpos Hpres). cbv zeta.
  cbn [snd].
  destruct (failuresBefore env (S (launched w)) (maxRetryAttempts config)
            <? maxRetryAttempts config);
    apply since_app; simpl; rewrite trace_cleaned;
    rewrite <- !app_assoc; reflexivity.
Qed.

(** The trace of a key press when the configuration allows no attempt. *)
Lemma since_key_press_no_attempt config kind env w settings :
  maxRetryAttempts config = 0 ->
  processPresent (env (launched w)) = true ->
  since w (snd (run env (onKeyDown config (subclass kind) settings) w))
  = (cleanupSteps w ++ [Spawn Pgrep]
       ++ validateLogs (shortcutOf (subclass kind) settings)
       ++ [SetTimeout VerifyCallback (stateUpdateDelay config)])%list.
Proof.
  intros Hmax Hpres.
  rewrite (run_onKeyDown_present config (subclass kind) env w settings
             (truthy_default kind) Hpres).
  unfold executeToggleAction. rewrite Hmax. cbn [retryLoop run snd].
  apply since_app. simpl. rewrite trace_cleaned.
  rewrite <- !app_assoc. reflexivity.
Qed.

Lemma since_key_press_absent config sub env w settings :
  processPresent (env (launched w)) = false ->
  since w (snd (run env (onKeyDown config sub settings) w))
  = (cleanupSteps w ++ [Spawn Pgrep; SetTitle titleNotRunning])%list.
Proof.
  intros Habs. rewrite (run_onKeyDown_absent config sub env w settings Habs).
  apply since_app. simpl. rewrite trace_cleaned.
  rewrite <- !app_assoc. reflexivity.
Qed.

(** X4. The bounds of the retry loop, with no assumption on the processes or
    on the configuration: one key press launches the toggle command at most
    [maxRetryAttempts] times, sleeps once between two attempts and never
    after the last, spends at most [retryDelay * (1 + 2 + ... +
    (maxRetryAttempts - 1))] in these delays, and launches no probe of the
    Detector. *)
Theorem executor_attempts_bounded config kind env w settings :
  let l := since w (snd (run env (onKeyDown config (subclass kind) settings) w)) in
  List.length (filter isExecutorCall l) <= maxRetryAttempts config /\
  List.length (filter isSleep l) = List.length (filter isExecutorCall l) - 1 /\
  2 * totalSleep l
  <= retryDelay config * (maxRetryAttempts config * (maxRetryAttempts config - 1)) /\
  filter isDetectorCall l = [].
Proof.
  cbv zeta.
  destruct (processPresent (env (launched w))) eqn:Hpres.
  - destruct (maxRetryAttempts config) as [|d] eqn:Hmax.
    + rewrite (since_key_press_no_attempt config kind env w settings Hmax Hpres).
      rewrite !filter_app, !totalSleep_app.
      rewrite !filter_cleanupSteps, !filter_validateLogs by reflexivity.
      rewrite totalSleep_cleanupSteps, totalSleep_validateLogs.
      cbn. repeat split; lia.
    + assert (Hpos : 0 < maxRetryAttempts config) by lia.
      rewrite (since_key_press config kind env w settings Hpos Hpres). cbv zeta.
      rewrite Hmax.
      set (n := Nat.min (failuresBefore env (S (launched w)) (S d)) (S d - 1)).
      assert (Hn : n <= d) by (subst n; lia).
      set (script := Osascript (toggleScript config (subclass kind) (methodOf settings)
                                  (shortcutOf (subclass kind) settings))).
      assert (He : isExecutorCall (Spawn script) = true)
        by apply isExecutorCall_toggle.
      assert (Hd : isDetectorCall (Spawn script) = false)
        by (subst script; destruct kind, (methodOf settings); reflexivity).
      assert (Htail : forall f,
                 (forall lv t, f (Console lv t) = false) ->
                 (forall t, f (SetTitle t) = false) ->
                 (forall cb ms, f (SetTimeout cb ms) = false) ->
                 filter f (if failuresBefore env (S (launched w)) (S d) <? S d
                           then [SetTimeout VerifyCallback (stateUpdateDelay config)]
                           else [Console LogError
                                   ("Failed to toggle Zoom "
                                      ++ getActionType (subclass kind) ++ ":");
                                 SetTitle titleError]) = []).
      { intros f H1 H2 H3.
        destruct (failuresBefore env (S (launched w)) (S d) <? S d);
          cbn [filter]; now rewrite ?H1, ?H2, ?H3. }
      assert (Hsleep : totalSleep
                         (if failuresBefore env (S (launched w)) (S d) <? S d
                          then [SetTimeout VerifyCallback (stateUpdateDelay config)]
                          else [Console LogError
                                  ("Failed to toggle Zoom "
                                     ++ getActionType (subclass kind) ++ ":");
                                SetTitle titleError]) = 0)
        by (destruct (failuresBefore env (S (launched w)) (S d) <? S d); reflexivity).
      rewrite !filter_app, !totalSleep_app.
      rewrite !filter_cleanupSteps, !filter_validateLogs by reflexivity.
      rewrite !Htail by reflexivity.
      rewrite totalSleep_cleanupSteps, totalSleep_validateLogs, Hsleep.
      rewrite (filter_backoff_nil isDetectorCall) by (assumption || reflexivity).
      rewrite !length_app.
      rewrite (count_backoff isExecutorCall) by (assumption || reflexivity).
      assert (Hs : List.length (filter isSleep
                     (backoffSteps script (retryDelay config) n 0)) = n).
      { clear. generalize 0 as attempt.
        induction n as [|n IH]; intros attempt; [reflexivity|].
        cbn [backoffSteps filter isSleep List.length]. now rewrite IH. }
      rewrite Hs.
      pose proof (totalSleep_backoff script (retryDelay config) n 0) as Hb.
      cbn [filter]. rewrite He, Hd.
      change (isExecutorCall (Spawn Pgrep)) with false.
      change (isDetectorCall (Spawn Pgrep)) with false.
      change (totalSleep [Spawn Pgrep]) with 0.
      change (totalSleep [Spawn script]) with 0.
      cbn [isSleep List.length app].
      repeat split; try lia.
      replace (S d - 1) with d by lia. nia.
  - rewrite (since_key_press_absent config (subclass kind) env w settings Hpres).
    rewrite !filter_app, !totalSleep_app.
    rewrite !filter_cleanupSteps by reflexivity.
    rewrite totalSleep_cleanupSteps.
    cbn. repeat split; lia.
Qed.

End ScheduleFacts.

(** ** What a handler can end with *)

Module HandlerFacts.
Import JsString Keystroke Runtime Observe Schedule RuntimeFacts BaseFacts.

(** A [try] whose [catch] block cannot fail returns normally. *)
Lemma run_tryCatch_total env (p : Prog unit) h w :
  (forall e w', fst (run env (h e) w') = Returned tt) ->
  fst (run env (tryCatch p h) w) = Returned tt.
Proof.
  intros H. rewrite run_tryCatch.
  destruct (run env p w) as [[[]|e] w']; [reflexivity | apply H].
Qed.

Lemma run_bind_total env (p q : Prog unit) w :
  (forall w', fst (run env p w') = Returned tt) ->
  (forall w', fst (run env q w') = Returned tt) ->
  fst (run env (p ;; q) w) = Returned tt.
Proof.
  intros Hp Hq. rewrite run_bind. specialize (Hp w).
  destruct (run env p w) as [[[]|e] w']; [apply Hq | discriminate].
Qed.

(** The guarded region of [updateState]: whatever its body does, the
    [catch] block absorbs the exception and the [finally] block releases
    the guard. *)
Lemma run_guarded_region env (body : Prog unit) handler w1 :
  (forall e w', exists w'', run env (handler e) w' = (Returned tt, w'')) ->
  exists w3,
    run env (tryFinally (tryCatch body handler) (op (SetUpdating false))) w1
    = (Returned tt, released w3).
Proof.
  intros H. rewrite run_tryFinally, run_tryCatch.
  destruct (run env body w1) as [[[]|e] w2].
  - exists w2. reflexivity.
  - destruct (H e w2) as [w'' Hh]. rewrite Hh. exists w''. reflexivity.
Qed.

Section AnySubclass.

Variable config : ToggleBase.ZoomToggleConfig.
Variable sub : ToggleBase.Subclass.

Lemma updateState_released env w :
  isUpdating (fields w) = false ->
  exists w3, run env (ToggleBase.updateState sub) w = (Returned tt, released w3).
Proof.
  intros Hfree. unfold ToggleBase.updateState.
  rewrite run_bind, run_op. cbn [fst snd perform record observable]. rewrite Hfree.
  rewrite run_bind, run_op. cbn [fst snd].
  apply run_guarded_region.
  intros e w'. eexists. reflexivity.
Qed.

Lemma updateState_total env w :
  fst (run env (ToggleBase.updateState sub) w) = Returned tt.
Proof.
  destruct (isUpdating (fields w)) eqn:Hup.
  - now rewrite run_updateState_busy.
  - destruct (updateState_released env w Hup) as [w3 H]. now rewrite H.
Qed.

Lemma startPeriodicStateCheck_total env w :
  fst (run env (ToggleBase.startPeriodicStateCheck config) w) = Returned tt.
Proof. now rewrite ControllerFacts.run_startPeriodicStateCheck. Qed.

Lemma base_never_rejects : neverRejects (ToggleBase.controller config sub).
Proof.
  intros env w.
  split; [|split; [|split]].
  - apply run_bind_total;
      [apply updateState_total | apply startPeriodicStateCheck_total].
  - cbn [onWillDisappear ToggleBase.controller ToggleBase.onWillDisappear].
    now rewrite run_cleanup.
  - intros settings. apply run_tryCatch_total. reflexivity.
  - intros [|]; cbn [timerCallback ToggleBase.controller].
    + apply run_bind_total;
        [apply updateState_total | apply startPeriodicStateCheck_total].
    + apply run_tryCatch_total. reflexivity.
Qed.

End AnySubclass.

Lemma updateStateV1_total env w :
  fst (run env VideoToggleV1.updateState w) = Returned tt.
Proof. apply run_tryCatch_total. reflexivity. Qed.

Lemma video_v1_never_rejects : neverRejects VideoToggleV1.controller.
Proof.
  intros env w. split; [|split; [|split]].
  - apply run_bind_total; [apply updateStateV1_total | reflexivity].
  - cbn [onWillDisappear VideoToggleV1.controller]. unfold VideoToggleV1.onWillDisappear.
    rewrite run_bind, run_op. cbn [fst snd perform record observable].
    destruct (stateCheckInterval (fields w)); reflexivity.
  - intros settings. apply run_tryCatch_total. reflexivity.
  - intros [|]; cbn [timerCallback VideoToggleV1.controller].
    + apply updateStateV1_total.
    + unfold VideoToggleV1.periodicTick.
      rewrite run_bind, V1Facts.runV1_isZoomRunning.
      destruct (processPresent (env (launched w))); [|reflexivity].
      rewrite run_bind, V1Facts.runV1_isInMeeting.
      destruct (sessionActive _); [|reflexivity].
      rewrite run_bind, V1Facts.run_isZoomFrontmost.
      destruct (sessionActive _); [|reflexivity].
      apply updateStateV1_total.
Qed.

Lemma updateStateMuteV1_total env w :
  fst (run env MuteToggleV1.updateState w) = Returned tt.
Proof. apply run_tryCatch_total. reflexivity. Qed.

Lemma mute_v1_never_rejects : neverRejects MuteToggleV1.controller.
Proof.
  intros env w. split; [|split; [|split]].
  - apply run_bind_total; [apply updateStateMuteV1_total | reflexivity].
  - cbn [onWillDisappear MuteToggleV1.controller]. unfold MuteToggleV1.onWillDisappear.
    rewrite run_bind, run_op. cbn [fst snd perform record observable].
    destruct (stateCheckInterval (fields w)); reflexivity.
  - intros settings. apply run_tryCatch_total. reflexivity.
  - intros [|]; cbn [timerCallback MuteToggleV1.controller].
    + apply updateStateMuteV1_total.
    + unfold MuteToggleV1.periodicTick.
      change MuteToggleV1.isZoomRunning with VideoToggleV1.isZoomRunning.
      change MuteToggleV1.isInMeeting with VideoToggleV1.isInMeeting.
      rewrite run_bind, V1Facts.runV1_isZoomRunning.
      destruct (processPresent (env (launched w))); [|reflexivity].
      rewrite run_bind, V1Facts.runV1_isInMeeting.
      destruct (sessionActive _); [|reflexivity].
      apply updateStateMuteV1_total.
Qed.

(** X5. No handler ends with an exception.  Whatever the processes do and
    whatever state the controller is in, [onWillAppear], [onWillDisappear],
    [onKeyDown] (for every settings object) and the two timer callbacks
    return normally: every failure is absorbed by a [catch] block that
    cannot fail itself.  This holds for ZoomToggleBase under every subclass,
    even one whose [detectState] or [setButtonState] throws or whose default
    shortcut is empty, and for the two earlier self-contained classes. *)
Theorem handlers_never_reject config sub :
  neverRejects (ToggleBase.controller config sub) /\
  neverRejects VideoToggleV1.controller /\
  neverRejects MuteToggleV1.controller.
Proof.
  split; [apply base_never_rejects|].
  split; [apply video_v1_never_rejects | apply mute_v1_never_rejects].
Qed.

(** X6. The guard of [updateState] is released on every exit path.  For
    every subclass, environment and world the update cycle returns normally
    and leaves [isUpdating] as it found it: a cycle that finds the guard set
    changes nothing at all, and a cycle that takes the guard resets it in
    its [finally] block, also when the body returns early or throws. *)
Theorem update_cycle_releases_guard sub env w :
  let result := run env (ToggleBase.updateState sub) w in
  fst result = Returned tt /\
  isUpdating (fields (snd result)) = isUpdating (fields w) /\
  (isUpdating (fields w) = true -> snd result = w).
Proof.
  cbv zeta. destruct (isUpdating (fields w)) eqn:Hup.
  - rewrite run_updateState_busy by exact Hup. cbn [fst snd].
    now rewrite Hup.
  - destruct (updateState_released sub env w Hup) as [w3 H]. rewrite H.
    cbn [fst snd]. repeat split. discriminate.
Qed.

(** X7. An exception inside the guarded region.  When the update cycle has
    taken the guard and reached the probe, and [detectState] of the subclass
    throws, the [catch] block logs the failure and shows the error title;
    the state of the key is what the probe left, and the guard is free
    again. *)
Theorem update_cycle_probe_exception sub env w e w2 :
  isUpdating (fields w) = false ->
  available env w = true ->
  run env (ToggleBase.detectState sub) (beforeProbe env w) = (Thrown e, w2) ->
  let result := run env (ToggleBase.updateState sub) w in
  fst result = Returned tt /\
  title (snd result) = ToggleBase.titleError /\
  button (snd result) = button w2 /\
  isUpdating (fields (snd result)) = false /\
  trace (snd result)
  = (trace w2
       ++ [Console LogError
             ("Failed to update Zoom " ++ ToggleBase.getActionType sub ++ " state:");
           SetTitle ToggleBase.titleError])%list.
Proof.
  intros Hfree Hav Hthrow. cbv zeta.
  unfold available in Hav. apply andb_prop in Hav. destruct Hav as [Hpres Hact].
  unfold ToggleBase.updateState.
  rewrite run_bind, run_op. cbn [fst snd perform record observable]. rewrite Hfree.
  rewrite run_bind, run_op. cbn [fst snd].
  rewrite run_tryFinally, run_tryCatch, run_bind, run_isZoomRunning.
  change (launched (snd (perform env (SetUpdating true) w))) with (launched w).
  rewrite Hpres. cbn [negb]. cbv iota.
  rewrite run_bind, run_isInMeeting.
  change (launched (spawned Pgrep _)) with (1 + launched w).
  rewrite Hact. cbn [negb]. cbv iota.
  rewrite run_bind.
  change (addTrace (meetingLogs (env (1 + launched w)))
            (spawned (Osascript CheckMeetingScript)
               (spawned Pgrep (snd (perform env (SetUpdating true) w)))))
    with (beforeProbe env w).
  rewrite Hthrow. cbn. rewrite <- !app_assoc. repeat split.
Qed.

Lemma update_cycle_probe_exception_witness :
  let result := run Scenarios.envProbeUnknown
                    (ToggleBase.updateState MoreScenarios.failingSubclass)
                    initialWorld in
  fst result = Returned tt /\
  title (snd result) = ToggleBase.titleError /\
  isUpdating (fields (snd result)) = false.
Proof.
  destruct (update_cycle_probe_exception MoreScenarios.failingSubclass
              Scenarios.envProbeUnknown initialWorld
              (AppleScriptNotExecuted "probe")
              (beforeProbe Scenarios.envProbeUnknown initialWorld)
              eq_refl eq_refl eq_refl) as [A [B [_ [C _]]]].
  exact (conj A (conj B C)).
Defined.

End HandlerFacts.

(** ** The shortcut: validation against translation *)

Module ShortcutFacts.
Import JsString Keystroke Runtime Observe RuntimeFacts KeystrokeFacts BaseFacts.
Import ToggleBase.

(** The list [validModifiers] of [validateKeyboardShortcut] names exactly
    the own keys of [modifierMap] in [generateKeystrokeScript]. *)
Lemma includes_validModifiers (m : string) :
  includes validModifiers m
  = match ownModifier m with Some _ => true | None => false end.
Proof.
  unfold includes, validModifiers, ownModifier. cbn [existsb].
  repeat match goal with
         | |- context [String.eqb m ?s] => destruct (String.eqb m s)
         end; reflexivity.
Qed.

Lemma ownModifier_not_inherited (m v : string) :
  ownModifier m = Some v -> inheritedKey m = false.
Proof.
  unfold ownModifier.
  repeat match goal with
         | |- context [if String.eqb m ?s then _ else _] =>
             destruct (String.eqb m s) eqn:?
         end; intros H; try discriminate;
    match goal with
    | E : String.eqb m _ = true |- _ => apply String.eqb_eq in E; subst m
    end; reflexivity.
Qed.

Lemma lowered_segments (shortcut : string) :
  removelast (split "+" (toLowerCase shortcut))
  = map toLowerCase (removelast (split "+" shortcut)).
Proof. now rewrite split_toLowerCase, removelast_map_lower. Qed.

(** One warning for each segment that is not a modifier of the table. *)
Lemma count_warnings (msg : string -> string) (segs : list string) :
  List.length
    (flat_map (fun m => if negb (includes validModifiers m)
                        then [Console LogWarn (msg m)] else [])
              (map toLowerCase segs))
  + List.length
      (flat_map (fun seg => match ownModifier (toLowerCase seg) with
                            | Some v => [v]
                            | None => []
                            end) segs)
  = List.length segs.
Proof.
  induction segs as [|seg r IH]; [reflexivity|].
  cbn [map flat_map]. rewrite !length_app, includes_validModifiers.
  destruct (ownModifier (toLowerCase seg)); cbn [negb List.length]; lia.
Qed.

Lemma silent_segments (msg : string -> string) (segs : list string) :
  flat_map (fun m => if negb (includes validModifiers m)
                     then [Console LogWarn (msg m)] else [])
           (map toLowerCase segs) = [] ->
  forallb (fun seg => negb (inheritedKey (toLowerCase seg))) segs = true.
Proof.
  induction segs as [|seg r IH]; [reflexivity|].
  cbn [map flat_map forallb]. rewrite includes_validModifiers.
  destruct (ownModifier (toLowerCase seg)) as [v|] eqn:Hown; cbn [negb].
  - intros H. rewrite (ownModifier_not_inherited _ _ Hown). now apply IH.
  - discriminate.
Qed.

(** X8. Validation and translation use the same table.  A segment passes
    [validateKeyboardShortcut] without a warning exactly when it is an own
    key of [modifierMap]; so the warnings and the modifiers of the documented
    command together account for every segment before the key: each segment
    is either translated or warned about, never both and never neither. *)
Theorem every_segment_translated_or_warned (shortcut : string) :
  (forall m, includes validModifiers m = true <-> ownModifier m <> None) /\
  List.length (validateLogs shortcut) + List.length (recognized shortcut)
  = List.length (removelast (split "+" shortcut)).
Proof.
  split.
  - intros m. rewrite includes_validModifiers.
    destruct (ownModifier m); split; congruence.
  - unfold validateLogs, recognized. rewrite lowered_segments.
    apply (count_warnings
             (fun m => "Unknown modifier '" ++ m ++ "' in shortcut: " ++ shortcut)).
Qed.

(** X9. A shortcut that [validateKeyboardShortcut] accepts without a warning
    is translated in full: the command [generateKeystrokeScript] builds is
    the documented one and lists one modifier for every segment before the
    key.  In particular a segment that reaches the prototype chain of
    [modifierMap] is always warned about. *)
Theorem silent_validation_translates_all (shortcut : string) :
  validateLogs shortcut = [] ->
  generateKeystrokeScript shortcut = documentedScript shortcut /\
  List.length (recognized shortcut)
  = List.length (removelast (split "+" shortcut)).
Proof.
  intros Hsilent.
  pose proof (count_warnings
                (fun m => "Unknown modifier '" ++ m ++ "' in shortcut: " ++ shortcut)
                (removelast (split "+" shortcut))) as Hcount.
  unfold validateLogs in Hsilent. rewrite lowered_segments in Hsilent.
  cbv beta in Hcount. rewrite Hsilent in Hcount. cbn [List.length] in Hcount.
  split; [|exact Hcount].
  apply silent_segments in Hsilent.
  unfold generateKeystrokeScript, documentedScript, keyOf, recognized. cbv zeta.
  rewrite split_toLowerCase, last_map_lower, removelast_map_lower.
  rewrite (kept_modifiers _ Hsilent).
  pose proof (recognized_truthy (removelast (split "+" shortcut))) as Ht.
  destruct (flat_map _ (removelast (split "+" shortcut))) as [|v r] eqn:E.
  - reflexivity.
  - rewrite truthy_join; [reflexivity | exact Ht | discriminate].
Qed.

Lemma silent_validation_translates_all_witness :
  generateKeystrokeScript "Ctrl+Alt+Shift+M"
  = "keystroke " ++ dq ++ "m" ++ dq ++ " using {control down, option down, shift down}".
Proof.
  exact (proj1 (silent_validation_translates_all "Ctrl+Alt+Shift+M" eq_refl)).
Defined.

End ShortcutFacts.

(** ** The earlier classes *)

Module EarlierFacts.
Import JsString Keystroke Runtime Observe Schedule RuntimeFacts MonitorFacts BaseFacts.

Lemma run_detectMuteStateV1 env w :
  run env AudioMonitor.detectZoomMuteState w
  = (Returned (muteStateOf (env (launched w))),
     addTrace (if succeeded (env (launched w)) then []
               else [Console LogError "Zoom mute detection failed:"])
              (execed (Osascript DetectMuteScript) w)).
Proof.
  unfold AudioMonitor.detectZoomMuteState.
  rewrite run_tryCatch, run_bind. rewrite V1Facts.run_execSync.
  unfold muteStateOf, succeeded.
  destruct (env (launched w)) as [[[|n]|] out err|msg]; try reflexivity.
  simpl scriptOutput. cbv iota.
  destruct (String.eqb (trim out) "muted");
    [simpl; now rewrite addTrace_nil_execed|].
  destruct (String.eqb (trim out) "unmuted");
    simpl; now rewrite addTrace_nil_execed.
Qed.

(** X10. The asynchronous ZoomMonitor and the earlier, blocking
    ZoomAudioMonitor classify a probe in the same way: for the same outcome
    of the osascript process the four queries of the one return what the
    four queries of the other return, and each launches exactly one
    process. *)
Theorem monitors_agree env w :
  fst (run env Monitor.detectZoomMuteState w)
  = fst (run env AudioMonitor.detectZoomMuteState w) /\
  fst (run env Monitor.detectZoomVideoState w)
  = fst (run env AudioMonitor.detectZoomVideoState w) /\
  fst (run env Monitor.getAudioState w)
  = fst (run env AudioMonitorStates.getAudioState w) /\
  fst (run env Monitor.getVideoState w)
  = fst (run env AudioMonitorStates.getVideoState w) /\
  launched (snd (run env Monitor.getAudioState w)) = S (launched w) /\
  launched (snd (run env AudioMonitorStates.getAudioState w)) = S (launched w) /\
  launched (snd (run env Monitor.getVideoState w)) = S (launched w) /\
  launched (snd (run env AudioMonitorStates.getVideoState w)) = S (launched w).
Proof.
  unfold Monitor.getAudioState, Monitor.getVideoState,
    AudioMonitorStates.getAudioState, AudioMonitorStates.getVideoState.
  rewrite !run_bind.
  rewrite run_detectZoomMuteState, run_detectZoomVideoState,
    run_detectMuteStateV1.
  change AudioMonitor.detectZoomVideoState with VideoToggleV1.detectVideoState.
  rewrite V1Facts.run_detectVideoState.
  repeat split.
Qed.

Import EarlierObserve.

Lemma failed_execSync env c w :
  succeeded (env (launched w)) = false ->
  run env (AudioMonitor.execSync c) w
  = (Thrown (ExecSyncError (env (launched w))), execed c w).
Proof.
  intros Hfail. change AudioMonitor.execSync with VideoToggleV1.execSync.
  rewrite V1Facts.run_execSync.
  unfold succeeded, scriptOutput in Hfail.
  destruct (env (launched w)) as [[[|n]|] out err|msg];
    [discriminate | reflexivity | reflexivity | reflexivity].
Qed.

Lemma run_onKeyDownV1_failed env w settings :
  processPresent (env (launched w)) = true ->
  succeeded (env (1 + launched w)) = false ->
  run env (VideoToggleV1.onKeyDown settings) w
  = (Returned tt,
     withTitle ToggleBase.titleError
       (addTrace (toggleFailure "video")
          (execed (Osascript (VideoToggleV1.toggleScript (methodOf settings)
                                (shortcutOfV1 settings)))
                  (execed Pgrep w)))).
Proof.
  intros Hpres Hfail. unfold VideoToggleV1.onKeyDown.
  rewrite run_tryCatch, run_bind, V1Facts.runV1_isZoomRunning, Hpres.
  cbn [negb]. cbv iota.
  fold (methodOf settings). fold (shortcutOfV1 settings).
  rewrite run_bind. unfold VideoToggleV1.execSync.
  rewrite failed_execSync by exact Hfail.
  cbn. unfold addTrace; cbn. now rewrite <- !app_assoc.
Qed.

Lemma run_onKeyDownMuteV1 env w settings :
  processPresent (env (launched w)) = true ->
  run env (MuteToggleV1.onKeyDown settings) w
  = (Returned tt,
     let w2 := execed (Osascript (MuteToggleV1.toggleScript (methodOf settings)
                                    (shortcutOfMuteV1 settings)))
                      (execed Pgrep w) in
     if succeeded (env (1 + launched w))
     then addTimer false VerifyCallback 500
            (addTrace [SetTimeout VerifyCallback 500] w2)
     else withTitle ToggleBase.titleError (addTrace (toggleFailure "mute") w2)).
Proof.
  intros Hpres. unfold MuteToggleV1.onKeyDown.
  change MuteToggleV1.isZoomRunning with VideoToggleV1.isZoomRunning.
  rewrite run_tryCatch, run_bind, V1Facts.runV1_isZoomRunning, Hpres.
  cbn [negb]. cbv iota.
  fold (methodOf settings). fold (shortcutOfMuteV1 settings).
  rewrite run_bind. unfold MuteToggleV1.execSync.
  destruct (succeeded (env (1 + launched w))) eqn:Hok.
  - change AudioMonitor.execSync with VideoToggleV1.execSync.
    rewrite V1Facts.run_execSync.
    change (launched (execed Pgrep w)) with (1 + launched w).
    unfold succeeded, scriptOutput in Hok.
    destruct (env (1 + launched w)) as [[[|n]|] out err|msg]; try discriminate.
    reflexivity.
  - rewrite failed_execSync by exact Hok.
    cbn. unfold addTrace; cbn. now rewrite <- !app_assoc.
Qed.

(** X11. The earlier classes do not retry.  When Zoom runs and the toggle
    command fails, a key press of the earlier ZoomVideoToggle and of the
    earlier ZoomMuteToggle launches the command once, sleeps never, logs the
    failure and shows the error title; the state of the key, the fields of
    the controller (so also the last known state: there is no optimistic
    flip) and the timers are what they were. *)
Theorem earlier_toggle_failure env w settings :
  processPresent (env (launched w)) = true ->
  succeeded (env (1 + launched w)) = false ->
  (let result := run env (VideoToggleV1.onKeyDown settings) w in
   fst result = Returned tt /\
   since w (snd result)
   = (ExecSync Pgrep
      :: ExecSync (Osascript (VideoToggleV1.toggleScript (methodOf settings)
                                (shortcutOfV1 settings)))
      :: toggleFailure "video") /\
   title (snd result) = ToggleBase.titleError /\
   button (snd result) = button w /\
   fields (snd result) = fields w /\
   timers (snd result) = timers w) /\
  (let result := run env (MuteToggleV1.onKeyDown settings) w in
   fst result = Returned tt /\
   since w (snd result)
   = (ExecSync Pgrep
      :: ExecSync (Osascript (MuteToggleV1.toggleScript (methodOf settings)
                                (shortcutOfMuteV1 settings)))
      :: toggleFailure "mute") /\
   title (snd result) = ToggleBase.titleError /\
   button (snd result) = button w /\
   fields (snd result) = fields w /\
   timers (snd result) = timers w).
Proof.
  intros Hpres Hfail. split; cbv zeta.
  - rewrite (run_onKeyDownV1_failed env w settings Hpres Hfail). cbn [fst snd].
    split; [reflexivity|]. split; [|repeat split].
    apply since_app. simpl. now rewrite <- !app_assoc.
  - rewrite (run_onKeyDownMuteV1 env w settings Hpres). cbv zeta. rewrite Hfail.
    cbn [fst snd].
    split; [reflexivity|]. split; [|repeat split].
    apply since_app. simpl. now rewrite <- !app_assoc.
Qed.

Lemma earlier_toggle_failure_witness :
  trace (snd (run Scenarios.envAlwaysFail
                  (MuteToggleV1.onKeyDown Scenarios.noSettings) initialWorld))
  = [ExecSync Pgrep;
     ExecSync (Osascript (KeyboardScript 100
                            (generateKeystrokeScript "cmd+shift+option+a")));
     Console LogError "Failed to toggle Zoom mute:";
     SetTitle ToggleBase.titleError].
Proof.
  destruct (earlier_toggle_failure Scenarios.envAlwaysFail initialWorld
              Scenarios.noSettings eq_refl eq_refl) as [_ [_ [A _]]].
  exact A.
Defined.

(** X12. The earlier ZoomMuteToggle has no optimistic update.  A key press
    with Zoom running and a toggle command that succeeds performs the pgrep
    check, the toggle command and the arming of the verification 500 ms
    later, and nothing else: title and state of the key are untouched until
    the verification runs. *)
Theorem earlier_mute_toggle_waits env w settings :
  processPresent (env (launched w)) = true ->
  succeeded (env (1 + launched w)) = true ->
  let result := run env (MuteToggleV1.onKeyDown settings) w in
  fst result = Returned tt /\
  since w (snd result)
  = [ExecSync Pgrep;
     ExecSync (Osascript (MuteToggleV1.toggleScript (methodOf settings)
                            (shortcutOfMuteV1 settings)));
     SetTimeout VerifyCallback 500] /\
  title (snd result) = title w /\
  button (snd result) = button w /\
  fields (snd result) = fields w /\
  timers (snd result)
  = (timers w ++ [mkTimer (nextTimer w) false VerifyCallback 500])%list.
Proof.
  intros Hpres Hok. cbv zeta.
  rewrite (run_onKeyDownMuteV1 env w settings Hpres). cbv zeta. rewrite Hok.
  cbn [fst snd].
  split; [reflexivity|]. split; [|repeat split].
  apply since_app. simpl. now rewrite <- !app_assoc.
Qed.

Lemma earlier_mute_toggle_waits_witness :
  let result := run Scenarios.envToggleOk
                    (MuteToggleV1.onKeyDown Scenarios.noSettings) initialWorld in
  button (snd result) = 0 /\
  timers (snd result) = [mkTimer 0 false VerifyCallback 500].
Proof.
  destruct (earlier_mute_toggle_waits Scenarios.envToggleOk initialWorld
              Scenarios.noSettings eq_refl eq_refl) as [_ [_ [_ [A [_ B]]]]].
  exact (conj A B).
Defined.

(** *** Update cycles and ticks of the earlier classes *)

Lemma runMuteV1_setButtonState env o w :
  isUnknown (muteStateOf o) = false ->
  run env (MuteToggleV1.setButtonState (muteStateOf o)) w
  = (Returned tt,
     withButton (buttonOf (muteStateOf o))
                (addTrace [SetState (buttonOf (muteStateOf o))] w)).
Proof.
  intros Hu. pose proof (stateOf_cases MuteAction o) as Hc.
  simpl in Hc. destruct Hc as [[H|H]|H]; rewrite H in *;
    try discriminate; reflexivity.
Qed.

(** An update cycle of the earlier ZoomMuteToggle that reaches the probe
    and gets a known state. *)
Lemma run_updateStateMuteV1_known env w :
  available env w = true ->
  isUnknown (muteStateOf (env (2 + launched w))) = false ->
  run env MuteToggleV1.updateState w
  = (Returned tt,
     withButton (buttonOf (muteStateOf (env (2 + launched w))))
       (addTrace [SetState (buttonOf (muteStateOf (env (2 + launched w))))]
          (addTrace (detectLogs MuteAction (env (2 + launched w)))
             (spawned (Osascript DetectMuteScript)
                (execed (Osascript CheckMeetingScript) (execed Pgrep w)))))).
Proof.
  intros Hav Hu. unfold available in Hav. apply andb_prop in Hav as [Hpres Hact].
  unfold MuteToggleV1.updateState.
  change MuteToggleV1.isZoomRunning with VideoToggleV1.isZoomRunning.
  change MuteToggleV1.isInMeeting with VideoToggleV1.isInMeeting.
  rewrite run_tryCatch, run_bind, V1Facts.runV1_isZoomRunning, Hpres.
  cbn [negb]. cbv iota.
  rewrite run_bind, V1Facts.runV1_isInMeeting.
  change (launched (execed Pgrep w)) with (1 + launched w). rewrite Hact.
  cbn [negb]. cbv iota.
  unfold MuteToggleV1.detectMuteState.
  rewrite run_bind, run_detectZoomMuteState.
  change (launched (execed (Osascript CheckMeetingScript) (execed Pgrep w)))
    with (2 + launched w).
  rewrite Hu. cbn [negb when].
  now rewrite runMuteV1_setButtonState.
Qed.

(** X13. Only ZoomToggleBase resets the title.  When an update cycle
    reaches the probe and the probe reports a known state, every version
    shows that state on the key; the earlier classes leave the title as it
    is, so a title such as the one for no meeting stays on the key after the
    meeting has started, while ZoomToggleBase clears it. *)
Theorem title_reset_only_in_base kind env w :
  isUpdating (fields w) = false ->
  available env w = true ->
  isUnknown (stateOf kind (env (2 + launched w))) = false ->
  let z := stateOf kind (env (2 + launched w)) in
  let earlier := match kind with
                 | MuteAction => MuteToggleV1.updateState
                 | VideoAction => VideoToggleV1.updateState
                 end in
  let w1 := snd (run env earlier w) in
  let w2 := snd (run env (ToggleBase.updateState (ToggleBase.subclass kind)) w) in
  button w1 = buttonOf z /\ title w1 = title w /\
  button w2 = buttonOf z /\ title w2 = EmptyString.
Proof.
  intros Hfree Hav Hu. cbv zeta.
  assert (Hbase : detectedIn kind env w = Some (stateOf kind (env (2 + launched w)))).
  { unfold detectedIn. unfold available in Hav. rewrite Hfree. cbn [negb andb].
    now rewrite Hav. }
  pose proof (updateState_display kind env w) as [Hd _]. cbv zeta in Hd.
  rewrite Hbase, Hu in Hd. destruct Hd as [_ [Hb Ht]].
  split; [|split; [|split; [exact Hb | exact Ht]]].
  - destruct kind.
    + rewrite (run_updateStateMuteV1_known env w Hav Hu). reflexivity.
    + pose proof (V1Facts.updateStateV1_display env w) as Hv. cbv zeta in Hv.
      unfold detectedInV1 in Hv. unfold available in Hav. rewrite Hav in Hv.
      cbn [stateOf] in Hu. rewrite Hu in Hv. exact (proj1 (proj2 Hv)).
  - destruct kind.
    + rewrite (run_updateStateMuteV1_known env w Hav Hu). reflexivity.
    + pose proof (V1Facts.updateStateV1_display env w) as Hv. cbv zeta in Hv.
      unfold detectedInV1 in Hv. unfold available in Hav. rewrite Hav in Hv.
      cbn [stateOf] in Hu. rewrite Hu in Hv. exact (proj2 (proj2 (proj2 Hv))).
Qed.

Lemma title_reset_only_in_base_witness :
  title (snd (run MoreScenarios.envVideoOff VideoToggleV1.updateState
                  MoreScenarios.worldNotInMeeting))
  = ToggleBase.titleNotInMeeting /\
  title (snd (run MoreScenarios.envVideoOff
                  (ToggleBase.updateState ToggleBase.ZoomVideoToggle)
                  MoreScenarios.worldNotInMeeting))
  = EmptyString.
Proof.
  destruct (title_reset_only_in_base VideoAction MoreScenarios.envVideoOff
              MoreScenarios.worldNotInMeeting eq_refl eq_refl eq_refl)
    as [_ [A [_ B]]].
  exact (conj A B).
Defined.

(** X14. The tick of the earlier ZoomVideoToggle refreshes the key only
    while Zoom is the frontmost application.  When Zoom runs and a meeting
    is on but another application is frontmost, the tick performs its three
    checks and nothing else: no probe is launched, and title, state, fields
    and timers are what they were. *)
Theorem earlier_tick_needs_frontmost env w :
  available env w = true ->
  sessionActive (env (2 + launched w)) = false ->
  let w' := snd (run env VideoToggleV1.periodicTick w) in
  since w w'
  = [ExecSync Pgrep; ExecSync (Osascript CheckMeetingScript);
     ExecSync (Osascript FrontmostScript)] /\
  filter isDetectorCall (since w w') = [] /\
  title w' = title w /\ button w' = button w /\
  fields w' = fields w /\ timers w' = timers w.
Proof.
  intros Hav Hback. unfold available in Hav. apply andb_prop in Hav as [Hpres Hact].
  cbv zeta. unfold VideoToggleV1.periodicTick.
  rewrite run_bind, V1Facts.runV1_isZoomRunning, Hpres.
  rewrite run_bind, V1Facts.runV1_isInMeeting.
  change (launched (execed Pgrep w)) with (1 + launched w). rewrite Hact.
  rewrite run_bind, V1Facts.run_isZoomFrontmost.
  change (launched (execed (Osascript CheckMeetingScript) (execed Pgrep w)))
    with (2 + launched w).
  rewrite Hback. cbn [when run snd].
  rewrite (since_app w _ [ExecSync Pgrep; ExecSync (Osascript CheckMeetingScript);
                          ExecSync (Osascript FrontmostScript)])
    by (simpl; now rewrite <- !app_assoc).
  repeat split.
Qed.

Lemma earlier_tick_needs_frontmost_witness :
  let w' := snd (run MoreScenarios.envInBackground VideoToggleV1.periodicTick
                     initialWorld) in
  filter isDetectorCall (trace w') = [] /\ launched w' = 3.
Proof.
  destruct (earlier_tick_needs_frontmost MoreScenarios.envInBackground initialWorld
              eq_refl eq_refl) as [A [B _]].
  split; [exact B|]. reflexivity.
Defined.

(** *** The availability checks of all versions *)

Lemma processPresent_iff o :
  processPresent o = true
  <-> exists out err, o = Closed (Some 0) out err /\ trim out <> EmptyString.
Proof.
  unfold processPresent, scriptOutput. split.
  - destruct o as [[[|n]|] out err|msg]; try discriminate.
    intros H. exists out, err. split; [reflexivity|].
    intros E. rewrite E in H. discriminate.
  - intros [out [err [-> Hne]]].
    destruct (trim out); [congruence | reflexivity].
Qed.

Lemma sessionActive_iff o :
  sessionActive o = true
  <-> exists out err, o = Closed (Some 0) out err /\ trim out = "true".
Proof.
  unfold sessionActive, scriptOutput. split.
  - destruct o as [[[|n]|] out err|msg]; try discriminate.
    intros H. exists out, err. split; [reflexivity | now apply String.eqb_eq].
  - intros [out [err [-> He]]]. now apply String.eqb_eq.
Qed.

(** X15. One availability check, four copies.  [isZoomRunning] of
    ZoomMonitor, of ZoomToggleBase and of the two earlier classes never
    throw and answer alike: true exactly when pgrep exits with code 0 and
    prints something other than white space.  [isInMeeting] of
    ZoomToggleBase and of the two earlier classes never throw and answer
    true exactly when the script exits with code 0 and prints true.  Every
    other end of the process (another exit code, a signal, a failure to
    launch) is read as false. *)
Theorem availability_checks_agree env w :
  let o := env (launched w) in
  (fst (run env Monitor.isZoomRunning w) = Returned (processPresent o) /\
   fst (run env ToggleBase.isZoomRunning w) = Returned (processPresent o) /\
   fst (run env VideoToggleV1.isZoomRunning w) = Returned (processPresent o) /\
   fst (run env MuteToggleV1.isZoomRunning w) = Returned (processPresent o)) /\
  (fst (run env ToggleBase.isInMeeting w) = Returned (sessionActive o) /\
   fst (run env VideoToggleV1.isInMeeting w) = Returned (sessionActive o) /\
   fst (run env MuteToggleV1.isInMeeting w) = Returned (sessionActive o)) /\
  (processPresent o = true
   <-> exists out err, o = Closed (Some 0) out err /\ trim out <> EmptyString) /\
  (sessionActive o = true
   <-> exists out err, o = Closed (Some 0) out err /\ trim out = "true").
Proof.
  cbv zeta.
  change Monitor.isZoomRunning with ToggleBase.isZoomRunning.
  change MuteToggleV1.isZoomRunning with VideoToggleV1.isZoomRunning.
  change MuteToggleV1.isInMeeting with VideoToggleV1.isInMeeting.
  rewrite run_isZoomRunning, run_isInMeeting,
    V1Facts.runV1_isZoomRunning, V1Facts.runV1_isInMeeting.
  repeat split;
    first [ apply processPresent_iff | apply sessionActive_iff | idtac ].
Qed.

End EarlierFacts.

(** ** The periodic timer *)

Module TimerFacts.
Import JsString Keystroke Runtime Observe Schedule RuntimeFacts BaseFacts ToggleBase.

(** *** Programs that avoid some operations *)

Section Avoids.

Variable bad : Op -> bool.

Lemma avoids_bind {A B : Type} (p : Prog A) (f : A -> Prog B) :
  avoids bad p -> (forall a, avoids bad (f a)) -> avoids bad (bind p f).
Proof.
  induction p as [a|e|o k IH]; cbn [avoids bind]; intros Hp Hf.
  - apply Hf.
  - exact I.
  - destruct Hp as [Ho Hk]. split; [exact Ho|].
    intros x. apply IH; [apply Hk | exact Hf].
Qed.

Lemma avoids_tryCatch {A : Type} (p : Prog A) h :
  avoids bad p -> (forall e, avoids bad (h e)) -> avoids bad (tryCatch p h).
Proof.
  induction p as [a|e|o k IH]; cbn [avoids tryCatch]; intros Hp Hh.
  - exact I.
  - apply Hh.
  - destruct Hp as [Ho Hk]. split; [exact Ho|].
    intros x. apply IH; [apply Hk | exact Hh].
Qed.

Lemma avoids_tryFinally {A : Type} (p : Prog A) f :
  avoids bad p -> avoids bad f -> avoids bad (tryFinally p f).
Proof.
  induction p as [a|e|o k IH]; cbn [avoids tryFinally]; intros Hp Hf.
  - apply avoids_bind; [exact Hf | intros ?; exact I].
  - apply avoids_bind; [exact Hf | intros ?; exact I].
  - destruct Hp as [Ho Hk]. split; [exact Ho|].
    intros x. apply IH; [apply Hk | exact Hf].
Qed.

Lemma avoids_op o : bad o = false -> avoids bad (op o).
Proof. intros H. split; [exact H | intros x; exact I]. Qed.

Lemma avoids_when b p : avoids bad p -> avoids bad (when b p).
Proof. intros H. destruct b; [exact H | exact I]. Qed.

Lemma avoids_forEach {A : Type} (l : list A) body :
  (forall x, avoids bad (body x)) -> avoids bad (forEach l body).
Proof.
  intros H. induction l as [|x r IH]; [exact I|].
  cbn [forEach]. apply avoids_bind; [apply H | intros ?; exact IH].
Qed.

Hypothesis only_activation : forall o, bad o = true -> isActivationOp o = true.

Lemma not_bad o : isActivationOp o = false -> bad o = false.
Proof.
  intros H. destruct (bad o) eqn:E; [|reflexivity].
  rewrite (only_activation _ E) in H. discriminate.
Qed.

Lemma avoids_executeAppleScript s :
  isToggleScript s = false -> avoids bad (Monitor.executeAppleScript s).
Proof.
  intros Hs. split.
  - apply not_bad. unfold isActivationOp, isExecutorStep. cbn. now rewrite Hs.
  - intros [[[|n]|] out err|msg]; exact I.
Qed.

Lemma avoids_pgrep : avoids bad (Monitor.executeCommand Pgrep).
Proof.
  split; [now apply not_bad|]. intros [[[|n]|] out err|msg]; exact I.
Qed.

Lemma avoids_execSync c :
  isExecutorCall (ExecSync c) = false -> avoids bad (AudioMonitor.execSync c).
Proof.
  intros Hc. split.
  - apply not_bad. unfold isActivationOp, isExecutorStep. now rewrite Hc.
  - intros [[[|n]|] out err|msg]; exact I.
Qed.

Lemma avoids_isZoomRunning : avoids bad isZoomRunning.
Proof.
  apply avoids_tryCatch; [|intros ?; exact I].
  apply avoids_bind; [apply avoids_pgrep | intros ?; exact I].
Qed.

Lemma avoids_isInMeeting : avoids bad isInMeeting.
Proof.
  apply avoids_tryCatch; [|intros ?; exact I].
  apply avoids_bind; [now apply avoids_executeAppleScript|]. intros out.
  apply avoids_bind; [apply avoids_op; now apply not_bad | intros ?; exact I].
Qed.

Lemma avoids_validateKeyboardShortcut s : avoids bad (validateKeyboardShortcut s).
Proof.
  unfold validateKeyboardShortcut.
  destruct (negb (truthy s)); [exact I|]. cbv zeta.
  destruct (List.length (split "+" (toLowerCase s)) =? 0); [exact I|].
  apply avoids_bind; [|intros ?; exact I].
  apply avoids_forEach. intros m. apply avoids_when, avoids_op. now apply not_bad.
Qed.

Lemma avoids_detectZoomMuteState : avoids bad Monitor.detectZoomMuteState.
Proof.
  apply avoids_tryCatch.
  - apply avoids_bind; [now apply avoids_executeAppleScript|]. intros result.
    destruct (String.eqb result "muted"); [exact I|].
    destruct (String.eqb result "unmuted"); [exact I|].
    apply avoids_bind; [|intros ?; exact I].
    apply avoids_when, avoids_op. now apply not_bad.
  - intros ?. apply avoids_bind; [apply avoids_op; now apply not_bad | intros ?; exact I].
Qed.

Lemma avoids_detectZoomVideoState : avoids bad Monitor.detectZoomVideoState.
Proof.
  apply avoids_tryCatch.
  - apply avoids_bind; [now apply avoids_executeAppleScript|]. intros result.
    destruct (String.eqb result "video_on"); [exact I|].
    destruct (String.eqb result "video_off"); [exact I|].
    apply avoids_bind; [|intros ?; exact I].
    apply avoids_when, avoids_op. now apply not_bad.
  - intros ?. apply avoids_bind; [apply avoids_op; now apply not_bad | intros ?; exact I].
Qed.

Lemma avoids_detectState kind : avoids bad (detectState (subclass kind)).
Proof.
  destruct kind; [apply avoids_detectZoomMuteState | apply avoids_detectZoomVideoState].
Qed.

Lemma avoids_setButtonState kind z : avoids bad (setButtonState (subclass kind) z).
Proof.
  destruct kind, z; first [exact I | apply avoids_op; now apply not_bad].
Qed.

Lemma avoids_updateState kind : avoids bad (updateState (subclass kind)).
Proof.
  unfold updateState.
  apply avoids_bind; [apply avoids_op; now apply not_bad|]. intros updating.
  destruct updating; [exact I|].
  apply avoids_bind; [apply avoids_op; now apply not_bad|]. intros ?.
  apply avoids_tryFinally; [|apply avoids_op; now apply not_bad].
  apply avoids_tryCatch.
  - apply avoids_bind; [apply avoids_isZoomRunning|]. intros running.
    destruct (negb running); [apply avoids_op; now apply not_bad|].
    apply avoids_bind; [apply avoids_isInMeeting|]. intros inMeeting.
    destruct (negb inMeeting); [apply avoids_op; now apply not_bad|].
    apply avoids_bind; [apply avoids_detectState|]. intros z.
    apply avoids_when, avoids_bind; [apply avoids_setButtonState|].
    intros ?. apply avoids_op. now apply not_bad.
  - intros ?.
    apply avoids_bind; [apply avoids_op; now apply not_bad|].
    intros ?. apply avoids_op. now apply not_bad.
Qed.

Lemma avoids_periodicTick kind : avoids bad (periodicTick (subclass kind)).
Proof.
  apply avoids_tryCatch.
  - apply avoids_bind; [apply avoids_isZoomRunning|]. intros running.
    destruct running; [|exact I].
    apply avoids_bind; [apply avoids_isInMeeting|]. intros inMeeting.
    apply avoids_when, avoids_updateState.
  - intros ?. apply avoids_op. now apply not_bad.
Qed.

(** The earlier classes. *)

Lemma avoids_checkV1 (c : Cmd) (test : string -> bool) :
  isExecutorCall (ExecSync c) = false ->
  avoids bad (tryCatch (out <- AudioMonitor.execSync c ;; Ret (test out))
                       (fun _ => Ret false)).
Proof.
  intros Hc. apply avoids_tryCatch; [|intros ?; exact I].
  apply avoids_bind; [now apply avoids_execSync | intros ?; exact I].
Qed.

Lemma avoids_updateStateV1 : avoids bad VideoToggleV1.updateState.
Proof.
  unfold VideoToggleV1.updateState.
  apply avoids_tryCatch.
  - apply avoids_bind; [now apply avoids_checkV1|].
    intros running. destruct (negb running).
    { apply avoids_bind; [apply avoids_op; now apply not_bad|].
      intros ?. apply avoids_op. now apply not_bad. }
    apply avoids_bind; [now apply avoids_checkV1|].
    intros inMeeting. destruct (negb inMeeting).
    { apply avoids_bind; [apply avoids_op; now apply not_bad|].
      intros ?. apply avoids_op. now apply not_bad. }
    apply avoids_bind.
    { apply avoids_tryCatch.
      - apply avoids_bind; [now apply avoids_execSync|]. intros out. cbv zeta.
        destruct (String.eqb (trim out) "video_on"); [exact I|].
        destruct (String.eqb (trim out) "video_off"); exact I.
      - intros ?. apply avoids_bind; [apply avoids_op; now apply not_bad | intros ?; exact I]. }
    intros z. apply avoids_bind; [apply avoids_op; now apply not_bad|]. intros ?.
    destruct (negb (isUnknown z)); [|apply avoids_op; now apply not_bad].
    apply avoids_bind; [|intros ?; apply avoids_op; now apply not_bad].
    destruct z; apply avoids_op; now apply not_bad.
  - intros ?. apply avoids_bind; [apply avoids_op; now apply not_bad|].
    intros ?. apply avoids_op. now apply not_bad.
Qed.

Lemma avoids_periodicTickV1 : avoids bad VideoToggleV1.periodicTick.
Proof.
  unfold VideoToggleV1.periodicTick.
  apply avoids_bind; [now apply avoids_checkV1|]. intros running.
  destruct running; [|exact I].
  apply avoids_bind; [now apply avoids_checkV1|]. intros inMeeting.
  destruct inMeeting; [|exact I].
  apply avoids_bind; [now apply avoids_checkV1|]. intros frontmost.
  apply avoids_when, avoids_updateStateV1.
Qed.

Lemma avoids_updateStateMuteV1 : avoids bad MuteToggleV1.updateState.
Proof.
  unfold MuteToggleV1.updateState.
  apply avoids_tryCatch.
  - apply avoids_bind; [now apply avoids_checkV1|].
    intros running. destruct (negb running); [apply avoids_op; now apply not_bad|].
    apply avoids_bind; [now apply avoids_checkV1|].
    intros inMeeting. destruct (negb inMeeting); [apply avoids_op; now apply not_bad|].
    apply avoids_bind; [now apply avoids_detectZoomMuteState|].
    intros z. apply avoids_when. destruct z; apply avoids_op; now apply not_bad.
  - intros ?. apply avoids_bind; [apply avoids_op; now apply not_bad|].
    intros ?. apply avoids_op. now apply not_bad.
Qed.

Lemma avoids_periodicTickMuteV1 : avoids bad MuteToggleV1.periodicTick.
Proof.
  unfold MuteToggleV1.periodicTick.
  apply avoids_bind; [now apply avoids_checkV1|]. intros running.
  destruct running; [|exact I].
  apply avoids_bind; [now apply avoids_checkV1|]. intros inMeeting.
  apply avoids_when, avoids_updateStateMuteV1.
Qed.

End Avoids.

Lemma interval_is_activation o : isIntervalOp o = true -> isActivationOp o = true.
Proof. destruct o; intros H; try discriminate; reflexivity. Qed.

Lemma timer_is_activation o : isTimerOp o = true -> isActivationOp o = true.
Proof. unfold isActivationOp. now intros ->. Qed.

Lemma step_is_activation o : isExecutorStep o = true -> isActivationOp o = true.
Proof. unfold isActivationOp. intros ->. apply orb_true_r. Qed.

(** The Executor touches no timer. *)
Lemma intervalFree_retryLoop config sub method shortcut fuel : forall attempt,
  intervalFree (retryLoop config sub method shortcut fuel attempt).
Proof.
  unfold intervalFree.
  induction fuel as [|fuel IH]; intros attempt; [exact I|].
  rewrite retryLoop_S.
  destruct (attempt <? maxRetryAttempts config); [|exact I].
  apply avoids_tryCatch.
  - apply avoids_bind; [|intros ?; exact I].
    split; [reflexivity|]. intros [[[|n]|] out err|msg]; exact I.
  - intros e. destruct (maxRetryAttempts config <=? S attempt); [exact I|].
    apply avoids_bind; [now apply avoids_op | intros ?; apply IH].
Qed.

(** *** The discipline *)

Lemma timed_other {A : Type} o (k : Resp o -> Prog A) m Q :
  isIntervalOp o = false ->
  timed m Q (Do o k) = (consistent m /\ forall x, timed (afterT o m) Q (k x)).
Proof. destruct o; intros H; try discriminate; reflexivity. Qed.

Lemma consistent_afterT o m : consistent m -> consistent (afterT o m).
Proof. destruct m; cbn; try destruct (suspends o); auto. Qed.

Lemma intervalFree_timed {A : Type} (p : Prog A) : forall m,
  intervalFree p -> consistent m -> timed m consistent p.
Proof.
  unfold intervalFree.
  induction p as [a|e|o k IH]; intros m Hf Hm.
  - exact Hm.
  - exact Hm.
  - destruct Hf as [Ho Hk]. rewrite timed_other by exact Ho.
    split; [exact Hm|]. intros x.
    apply IH; [apply Hk | now apply consistent_afterT].
Qed.

Lemma timed_bind {A B : Type} (p : Prog A) (f : A -> Prog B) Q Q' : forall m,
  timed m Q p ->
  (forall a m', Q m' -> timed m' Q' (f a)) ->
  timed m Q' (bind p f).
Proof.
  induction p as [a|e|o k IH]; intros m Hp Hf.
  - apply Hf. exact Hp.
  - exact Hp.
  - destruct (isIntervalOp o) eqn:Ho.
    + destruct o; try discriminate; cbn [bind timed] in *.
      * destruct m; try contradiction.
        -- intros x. apply IH; [apply Hp | exact Hf].
        -- apply IH; [exact Hp | exact Hf].
      * destruct o as [id|].
        -- destruct Hp as [Hm Hk]. split; [exact Hm|]. apply IH; assumption.
        -- destruct m; try contradiction. apply IH; assumption.
      * destruct Hp as [Hm Hk]. split; [exact Hm|].
        intros x. apply IH; [apply Hk | exact Hf].
      * destruct Hp as [Hm Hk]. split; [exact Hm|]. apply IH; assumption.
    + cbn [bind]. rewrite timed_other in Hp by exact Ho.
      rewrite timed_other by exact Ho.
      destruct Hp as [Hm Hk]. split; [exact Hm|].
      intros x. apply IH; [apply Hk | exact Hf].
Qed.

Lemma timed_tryCatch {A : Type} (p : Prog A) h Q : forall m,
  timed m Q p ->
  (forall e m', consistent m' -> timed m' Q (h e)) ->
  timed m Q (tryCatch p h).
Proof.
  induction p as [a|e|o k IH]; intros m Hp Hh.
  - exact Hp.
  - apply Hh. exact Hp.
  - destruct (isIntervalOp o) eqn:Ho.
    + destruct o; try discriminate; cbn [tryCatch timed] in *.
      * destruct m; try contradiction.
        -- intros x. apply IH; [apply Hp | exact Hh].
        -- apply IH; [exact Hp | exact Hh].
      * destruct o as [id|].
        -- destruct Hp as [Hm Hk]. split; [exact Hm|]. apply IH; assumption.
        -- destruct m; try contradiction. apply IH; assumption.
      * destruct Hp as [Hm Hk]. split; [exact Hm|].
        intros x. apply IH; [apply Hk | exact Hh].
      * destruct Hp as [Hm Hk]. split; [exact Hm|]. apply IH; assumption.
    + cbn [tryCatch]. rewrite timed_other in Hp by exact Ho.
      rewrite timed_other by exact Ho.
      destruct Hp as [Hm Hk]. split; [exact Hm|].
      intros x. apply IH; [apply Hk | exact Hh].
Qed.

Lemma timed_post {A : Type} (p : Prog A) (Q Q' : TMode -> Prop) :
  (forall m, Q m -> Q' m) -> forall m, timed m Q p -> timed m Q' p.
Proof.
  intros HQ. induction p as [a|e|o k IH]; intros m Hp.
  - apply HQ. exact Hp.
  - exact Hp.
  - destruct (isIntervalOp o) eqn:Ho.
    + destruct o; try discriminate; cbn [timed] in *.
      * destruct m; try contradiction.
        -- intros x. apply IH. apply Hp.
        -- apply IH. exact Hp.
      * destruct o as [id|].
        -- destruct Hp as [Hm Hk]. split; [exact Hm|]. now apply IH.
        -- destruct m; try contradiction. now apply IH.
      * destruct Hp as [Hm Hk]. split; [exact Hm|].
        intros x. apply IH. apply Hk.
      * destruct Hp as [Hm Hk]. split; [exact Hm|]. now apply IH.
    + rewrite timed_other in Hp by exact Ho.
      rewrite timed_other by exact Ho.
      destruct Hp as [Hm Hk]. split; [exact Hm|].
      intros x. apply IH. apply Hk.
Qed.

(** [cleanup] may start in any consistent mode and ends knowing that no
    timer is stored. *)
Lemma timed_cleanup m :
  consistent m -> timed m (eq (TKnown None)) cleanup.
Proof.
  intros Hm. destruct m as [|i| |]; try contradiction; cbn.
  - intros [id|]; cbn; [split; reflexivity | reflexivity].
  - destruct i as [id|]; cbn; [split; reflexivity | reflexivity].
Qed.

Lemma timed_startPeriodicStateCheck config m :
  consistent m -> timed m consistent (startPeriodicStateCheck config).
Proof.
  intros Hm. unfold startPeriodicStateCheck.
  apply timed_bind with (Q := eq (TKnown None)); [now apply timed_cleanup|].
  intros ? m' <-. cbn. split; [reflexivity|].
  intros x. split; [reflexivity | exact I].
Qed.

Lemma timed_onWillAppear config kind :
  timed TIdle consistent (onWillAppear config (subclass kind)).
Proof.
  unfold onWillAppear.
  apply timed_bind with (Q := consistent).
  - apply intervalFree_timed; [|exact I].
    apply avoids_updateState. exact interval_is_activation.
  - intros ? m' Hm'. now apply timed_startPeriodicStateCheck.
Qed.

Lemma timed_onKeyDown config kind settings :
  timed TIdle consistent (onKeyDown config (subclass kind) settings).
Proof.
  unfold onKeyDown. apply timed_tryCatch.
  - apply timed_bind with (Q := eq (TKnown None)); [now apply timed_cleanup|].
    intros ? m' <-.
    apply intervalFree_timed; [|exact I].
    apply avoids_bind; [apply avoids_isZoomRunning; exact interval_is_activation|].
    intros running. destruct (negb running); [now apply avoids_op|].
    cbv zeta.
    apply avoids_bind;
      [apply avoids_validateKeyboardShortcut; exact interval_is_activation|].
    intros shortcut.
    apply avoids_bind; [apply intervalFree_retryLoop|].
    intros ?. now apply avoids_op.
  - intros e m' Hm'. apply intervalFree_timed; [|exact Hm'].
    apply avoids_bind; [now apply avoids_op | intros ?; now apply avoids_op].
Qed.

Lemma timed_controller config kind :
  timedController (controller config (subclass kind)).
Proof.
  split; [apply timed_onWillAppear|].
  split.
  { apply (timed_post cleanup (eq (TKnown None)) consistent).
    - intros m <-. exact I.
    - now apply timed_cleanup. }
  split; [apply timed_onKeyDown|].
  intros [|]; cbn [timerCallback controller].
  - apply timed_onWillAppear.
  - apply intervalFree_timed; [|exact I].
    apply avoids_periodicTick. exact interval_is_activation.
Qed.

(** *** What the operations do to the timers *)

Lemma periodicIds_addTimer p cb ms w :
  periodicIds (addTimer p cb ms w)
  = (periodicIds w ++ (if p then [nextTimer w] else []))%list.
Proof.
  unfold periodicIds, periodicTimers. cbn [timers addTimer].
  rewrite filter_app, map_app. cbn [filter periodic].
  destruct p; reflexivity.
Qed.

Lemma periodicIds_dropTimer id w :
  periodicIds (dropTimer id w)
  = filter (fun i => negb (i =? id)) (periodicIds w).
Proof.
  unfold periodicIds, periodicTimers. cbn [timers dropTimer].
  induction (timers w) as [|t r IH]; [reflexivity|].
  cbn [filter]. destruct (periodic t) eqn:Hp, (timerId t =? id) eqn:Hid;
    cbn [negb filter map]; rewrite ?Hp, ?Hid; cbn [negb map]; now rewrite IH.
Qed.

Lemma perform_other env o w :
  isIntervalOp o = false ->
  stateCheckInterval (fields (snd (perform env o w))) = stateCheckInterval (fields w) /\
  periodicIds (snd (perform env o w)) = periodicIds w.
Proof.
  destruct o; intros H; try discriminate; cbn; try (split; reflexivity).
  split; [reflexivity|].
  change (periodicIds (addTimer false cb ms (addTrace [SetTimeout cb ms] w))
          = periodicIds w).
  rewrite periodicIds_addTimer. now rewrite app_nil_r.
Qed.

Lemma freshIds_addTimer p cb ms w : freshIds w -> freshIds (addTimer p cb ms w).
Proof.
  intros [Hnd Hlt]. split; cbn [timers addTimer nextTimer].
  - rewrite map_app. apply NoDup_app; [exact Hnd | repeat constructor; intros [] |].
    intros a Ha [Hb|[]]. cbn in Hb. subst a.
    apply in_map_iff in Ha as [t [Ht Hin]].
    specialize (Hlt t Hin). lia.
  - intros t Hin. apply in_app_or in Hin as [Hin|[<-|[]]].
    + specialize (Hlt t Hin). lia.
    + cbn. lia.
Qed.

Lemma NoDup_map_filter {A B : Type} (f : A -> B) (g : A -> bool) (l : list A) :
  NoDup (map f l) -> NoDup (map f (filter g l)).
Proof.
  induction l as [|x r IH]; cbn; intros H; [constructor|].
  inversion H as [|? ? Hx Hr]; subst.
  destruct (g x); [|now apply IH].
  cbn. constructor; [|now apply IH].
  intros Hin. apply Hx. apply in_map_iff in Hin as [y [Hy Hin]].
  apply filter_In in Hin as [Hin _]. apply in_map_iff. now exists y.
Qed.

Lemma freshIds_dropTimer id w : freshIds w -> freshIds (dropTimer id w).
Proof.
  intros [Hnd Hlt]. split; cbn [timers dropTimer nextTimer].
  - now apply NoDup_map_filter.
  - intros t Hin. apply filter_In in Hin as [Hin _]. now apply Hlt.
Qed.

Lemma perform_freshIds env o w :
  freshIds w -> freshIds (snd (perform env o w)).
Proof.
  intros H.
  destruct o; cbn;
    first [ exact H
          | apply freshIds_addTimer; exact H
          | apply freshIds_dropTimer; exact H
          | idtac ].
Qed.

(** *** The invariant *)

Lemma holdsT_consistent m w : consistent m -> holdsT m w -> onePeriodic w.
Proof. destruct m; cbn; intros Hc H; try contradiction; [exact H | exact (proj1 H)]. Qed.

Lemma holdsT_other env o m w :
  isIntervalOp o = false -> consistent m -> holdsT m w ->
  holdsT (afterT o m) (snd (perform env o w)).
Proof.
  intros Ho Hc H. destruct (perform_other env o w Ho) as [Hf Hp].
  destruct m as [|i| |]; try contradiction; cbn [afterT holdsT] in *.
  - unfold onePeriodic in *. now rewrite Hf, Hp.
  - destruct H as [H1 H2].
    assert (Hone : onePeriodic (snd (perform env o w)))
      by (unfold onePeriodic in *; now rewrite Hf, Hp).
    destruct (suspends o); cbn [holdsT]; [exact Hone|].
    split; [exact Hone | now rewrite Hf].
Qed.

(** Running a method up to its next await keeps the bookkeeping of the
    periodic timer consistent, and what remains of the method starts in the
    idle mode. *)
Lemma advance_timed env (p : Prog unit) : forall m w,
  timed m consistent p -> holdsT m w ->
  onePeriodic (snd (advance env p w)) /\
  match fst (advance env p w) with
  | Some p' => timed TIdle consistent p'
  | None => True
  end.
Proof.
  induction p as [a|e|o k IH]; intros m w Hp Hw.
  - split; [|exact I]. exact (holdsT_consistent m w Hp Hw).
  - split; [|exact I]. exact (holdsT_consistent m w Hp Hw).
  - destruct (isIntervalOp o) eqn:Ho.
    + destruct o; try discriminate; cbn [timed] in Hp;
        cbn [advance perform suspends record observable fst snd].
      * (* GetInterval *)
        destruct m as [|i| |]; try contradiction; cbn [holdsT] in Hw.
        -- apply (IH _ (TKnown (stateCheckInterval (fields w))) w (Hp _)).
           split; [exact Hw | reflexivity].
        -- destruct Hw as [H1 H2]. rewrite H2.
           apply (IH _ (TKnown i) w Hp). split; [exact H1 | exact H2].
      * (* PutInterval *)
        destruct o as [id|].
        -- destruct Hp as [-> Hk]. cbn [holdsT] in Hw. destruct Hw as [H1 H2].
           apply (IH tt (TKnown (Some id)) _ Hk).
           split; [|reflexivity]. unfold onePeriodic. exact H2.
        -- destruct m as [| |id|]; try contradiction.
           cbn [holdsT] in Hw. destruct Hw as [H1 H2].
           apply (IH tt (TKnown None) _ Hp).
           split; [|reflexivity]. unfold onePeriodic. exact H2.
      * (* SetInterval *)
        destruct Hp as [-> Hk]. cbn [holdsT] in Hw. destruct Hw as [H1 H2].
        apply (IH (nextTimer w) (TArmed (nextTimer w)) _ (Hk _)).
        split; [exact H2|].
        change (periodicIds (addTimer true cb ms (addTrace [SetInterval cb ms] w))
                = [nextTimer w]).
        rewrite periodicIds_addTimer.
        change (periodicIds (addTrace [SetInterval cb ms] w)) with (periodicIds w).
        unfold onePeriodic in H1. rewrite H2 in H1. now rewrite H1.
      * (* ClearInterval *)
        destruct Hp as [-> Hk]. cbn [holdsT] in Hw. destruct Hw as [H1 H2].
        apply (IH tt (TCleared id) _ Hk).
        split; [exact H2|].
        change (periodicIds (dropTimer id (addTrace [ClearInterval id] w)) = []).
        rewrite periodicIds_dropTimer.
        change (periodicIds (addTrace [ClearInterval id] w)) with (periodicIds w).
        unfold onePeriodic in H1. rewrite H2 in H1. rewrite H1.
        cbn [filter]. now rewrite Nat.eqb_refl.
    + rewrite timed_other in Hp by exact Ho. destruct Hp as [Hc Hk].
      pose proof (holdsT_other env o m w Ho Hc Hw) as Hw'.
      cbn [advance].
      destruct (perform env o w) as [x w'] eqn:Hperf. cbn [snd] in Hw'.
      destruct (suspends o) eqn:Hs.
      * cbn [fst snd]. split.
        -- apply (holdsT_consistent (afterT o m)); [now apply consistent_afterT | exact Hw'].
        -- specialize (Hk x). destruct m as [|i| |]; try contradiction;
             cbn [afterT] in Hk; rewrite ?Hs in Hk; exact Hk.
      * apply (IH x (afterT o m) w' (Hk x) Hw').
Qed.

Lemma advance_freshIds env (p : Prog unit) : forall w,
  freshIds w -> freshIds (snd (advance env p w)).
Proof.
  induction p as [a|e|o k IH]; intros w Hw; [exact Hw | exact Hw |].
  cbn [advance].
  pose proof (perform_freshIds env o w Hw) as Hw'.
  destruct (perform env o w) as [x w']. cbn [snd] in Hw'.
  destruct (suspends o); [exact Hw' | now apply IH].
Qed.

Lemma Forall_replaceNth {A : Type} (P : A -> Prop) (l : list A) : forall i o,
  Forall P l ->
  match o with Some y => P y | None => True end ->
  Forall P (replaceNth i o l).
Proof.
  induction l as [|x r IH]; intros i o Hl Ho; [destruct i; constructor|].
  inversion Hl as [|? ? Hx Hr]; subst.
  destruct i as [|j]; cbn [replaceNth].
  - destruct o as [y|]; [constructor; assumption | exact Hr].
  - constructor; [exact Hx | now apply IH].
Qed.

Lemma TimerInv_start env p s :
  timed TIdle consistent p -> TimerInv s -> TimerInv (start env p s).
Proof.
  intros Hp [Hone [Hfresh Htasks]]. unfold start.
  pose proof (advance_timed env p TIdle (world s) Hp Hone) as [H1 H2].
  pose proof (advance_freshIds env p (world s) Hfresh) as H3.
  destruct (advance env p (world s)) as [[p'|] w']; cbn [fst snd] in *.
  - split; [exact H1|]. split; [exact H3|]. cbn [tasks].
    apply Forall_app. split; [exact Htasks | now constructor].
  - split; [exact H1|]. split; [exact H3 | exact Htasks].
Qed.

Lemma filter_all {A : Type} (f : A -> bool) (l : list A) :
  (forall x, In x l -> f x = true) -> filter f l = l.
Proof.
  induction l as [|x r IH]; intros H; [reflexivity|].
  cbn [filter]. rewrite (H x) by now left.
  f_equal. apply IH. intros y Hy. apply H. now right.
Qed.

Lemma timer_of_id (l : list Timer) (t t' : Timer) :
  NoDup (map timerId l) -> In t l -> In t' l -> timerId t' = timerId t -> t' = t.
Proof.
  induction l as [|x r IH]; cbn; intros Hnd Hin Hin' Heq; [contradiction|].
  inversion Hnd as [|? ? Hx Hr]; subst.
  destruct Hin as [->|Hin], Hin' as [->|Hin'].
  - reflexivity.
  - exfalso. apply Hx. rewrite <- Heq. now apply in_map.
  - exfalso. apply Hx. rewrite Heq. now apply in_map.
  - now apply IH.
Qed.

(** A timeout that fires is removed, and the periodic timer stays: ids are
    unique, so the id of a timeout is not the id of the periodic timer. *)
Lemma onePeriodic_fired t w :
  freshIds w -> In t (timers w) -> periodic t = false ->
  onePeriodic w -> onePeriodic (dropTimer (timerId t) w).
Proof.
  intros [Hnd _] Hin Hp Hone. unfold onePeriodic in *.
  rewrite periodicIds_dropTimer.
  change (fields (dropTimer (timerId t) w)) with (fields w).
  rewrite <- Hone.
  apply filter_all. intros i Hi.
  unfold periodicIds, periodicTimers in Hi.
  apply in_map_iff in Hi as [t' [Hid Hin']].
  apply filter_In in Hin' as [Hin' Hp'].
  apply negb_true_iff, Nat.eqb_neq. intros Heq. subst i.
  assert (t' = t) by now apply (timer_of_id (timers w)).
  subst t'. congruence.
Qed.

Lemma step_TimerInv env c ch s :
  timedController c -> TimerInv s -> TimerInv (step env c ch s).
Proof.
  intros [Ha [Hd [Hk Ht]]] Hinv.
  destruct ch as [i|id|st| |]; cbn [step].
  - destruct (nth_error (tasks s) i) as [p|] eqn:Hnth; [|exact Hinv].
    destruct Hinv as [Hone [Hfresh Htasks]].
    assert (Hp : timed TIdle consistent p).
    { rewrite Forall_forall in Htasks. apply Htasks.
      now apply nth_error_In with (n := i). }
    pose proof (advance_timed env p TIdle (world s) Hp Hone) as [H1 H2].
    pose proof (advance_freshIds env p (world s) Hfresh) as H3.
    destruct (advance env p (world s)) as [o w']; cbn [fst snd] in *.
    split; [exact H1|]. split; [exact H3|]. cbn [tasks].
    apply Forall_replaceNth; [exact Htasks|]. destruct o; [exact H2 | exact I].
  - destruct (find (fun t => timerId t =? id) (timers (world s))) as [t|] eqn:Hfind;
      [|exact Hinv].
    apply TimerInv_start; [apply Ht|].
    destruct Hinv as [Hone [Hfresh Htasks]].
    destruct (periodic t) eqn:Hp.
    + destruct s; exact (conj Hone (conj Hfresh Htasks)).
    + apply find_some in Hfind as [Hin Hid]. apply Nat.eqb_eq in Hid. subst id.
      split; [now apply onePeriodic_fired|].
      split; [now apply freshIds_dropTimer | exact Htasks].
  - now apply TimerInv_start.
  - now apply TimerInv_start.
  - now apply TimerInv_start.
Qed.

Lemma exec_TimerInv env c sched : forall s,
  timedController c -> TimerInv s -> TimerInv (exec env c sched s).
Proof.
  induction sched as [|ch r IH]; intros s Hc Hs; [exact Hs|].
  cbn [exec fold_left]. apply IH; [exact Hc | now apply step_TimerInv].
Qed.

Lemma TimerInv_initial : TimerInv initialSys.
Proof.
  split; [reflexivity|]. split; [|constructor].
  split; [constructor | intros t []].
Qed.

(** *** What [cleanup] leaves *)

Lemma advance_cleanup env w : advance env cleanup w = (None, cleaned w).
Proof.
  unfold cleanup, cleaned; cbn.
  destruct (stateCheckInterval (fields w)) as [id|]; reflexivity.
Qed.

Lemma stateCheckInterval_cleaned w : stateCheckInterval (fields (cleaned w)) = None.
Proof.
  unfold cleaned. destruct (stateCheckInterval (fields w)) eqn:E; [reflexivity | exact E].
Qed.

Lemma periodicTimers_cleaned w : onePeriodic w -> periodicTimers (cleaned w) = [].
Proof.
  intros Hone. apply (map_eq_nil timerId).
  change (periodicIds (cleaned w) = []).
  unfold onePeriodic in Hone. unfold cleaned.
  destruct (stateCheckInterval (fields w)) as [id|]; [|exact Hone].
  change (periodicIds (dropTimer id (addTrace [ClearInterval id] w)) = []).
  rewrite periodicIds_dropTimer.
  change (periodicIds (addTrace [ClearInterval id] w)) with (periodicIds w).
  rewrite Hone. cbn [filter]. now rewrite Nat.eqb_refl.
Qed.

Lemma pendingTimeouts_cleaned w :
  onePeriodic w -> freshIds w -> pendingTimeouts (cleaned w) = pendingTimeouts w.
Proof.
  intros Hone [Hnd _]. unfold onePeriodic in Hone. unfold cleaned.
  destruct (stateCheckInterval (fields w)) as [id|]; [|reflexivity].
  unfold pendingTimeouts. cbn [timers withFields dropTimer addTrace].
  assert (Hin : In id (periodicIds w)) by (rewrite Hone; now left).
  unfold periodicIds, periodicTimers in Hin.
  apply in_map_iff in Hin as [t0 [Hid Hin0]].
  apply filter_In in Hin0 as [Hin0 Hp0].
  clear Hone.
  assert (Hkeep : forall t, In t (timers w) -> periodic t = false ->
                            negb (timerId t =? id) = true).
  { intros t Hin Hp. apply negb_true_iff, Nat.eqb_neq. intros Heq.
    assert (t = t0) by (apply (timer_of_id (timers w)); congruence).
    subst t. congruence. }
  revert Hkeep. clear.
  induction (timers w) as [|t r IH]; intros Hkeep; [reflexivity|].
  cbn [filter]. destruct (periodic t) eqn:Hp; cbn [negb].
  - destruct (negb (timerId t =? id)); cbn [filter]; rewrite ?Hp; cbn [negb];
      apply IH; intros t' Hin'; apply Hkeep; now right.
  - rewrite (Hkeep t (or_introl eq_refl) Hp). cbn [filter]. rewrite Hp. cbn [negb].
    f_equal. apply IH. intros t' Hin'. apply Hkeep. now right.
Qed.

(** X16. The periodic timer never leaks.  In every interleaving of the
    handlers of ZoomToggleBase, of the continuations of their awaits and of
    the timers that fire, started from the initial state and for every
    behaviour of the processes: at most one periodic timer is live, it is the
    one whose id [stateCheckInterval] holds, and no two live timers share an
    id.  When the action then disappears no periodic timer is left and the
    field is reset; a verification timeout that is still pending is not
    cancelled. *)
Theorem periodic_timer_never_leaks config kind env sched :
  let c := controller config (subclass kind) in
  let s := exec env c sched initialSys in
  periodicIds (world s)
  = match stateCheckInterval (fields (world s)) with
    | Some id => [id]
    | None => []
    end /\
  List.length (periodicTimers (world s)) <= 1 /\
  NoDup (map timerId (timers (world s))) /\
  (let s' := step env c WillDisappear s in
   periodicTimers (world s') = [] /\
   stateCheckInterval (fields (world s')) = None /\
   pendingTimeouts (world s') = pendingTimeouts (world s) /\
   tasks s' = tasks s).
Proof.
  cbv zeta.
  pose proof (exec_TimerInv env (controller config (subclass kind)) sched initialSys
                (timed_controller config kind) TimerInv_initial)
    as [Hone [Hfresh _]].
  set (s := exec env (controller config (subclass kind)) sched initialSys) in *.
  split; [exact Hone|]. split.
  { unfold onePeriodic in Hone.
    replace (List.length (periodicTimers (world s)))
      with (List.length (periodicIds (world s)))
      by (unfold periodicIds; apply length_map).
    rewrite Hone. destruct (stateCheckInterval (fields (world s))); cbn; lia. }
  split; [exact (proj1 Hfresh)|].
  cbn [step onWillDisappear controller]. unfold start, ToggleBase.onWillDisappear.
  rewrite advance_cleanup. cbn [world tasks].
  split; [now apply periodicTimers_cleaned|].
  split; [apply stateCheckInterval_cleaned|].
  split; [now apply pendingTimeouts_cleaned | reflexivity].
Qed.

(** *** The earlier classes: a timer for every appearance *)

Lemma perform_timerFree env o w :
  isTimerOp o = false ->
  timers (snd (perform env o w)) = timers w /\
  nextTimer (snd (perform env o w)) = nextTimer w /\
  stateCheckInterval (fields (snd (perform env o w))) = stateCheckInterval (fields w).
Proof. destruct o; intros H; try discriminate; cbn; repeat split. Qed.

Lemma run_timerFree {A : Type} env (p : Prog A) : forall w,
  timerFree p ->
  timers (snd (run env p w)) = timers w /\
  nextTimer (snd (run env p w)) = nextTimer w /\
  stateCheckInterval (fields (snd (run env p w))) = stateCheckInterval (fields w).
Proof.
  unfold timerFree.
  induction p as [a|e|o k IH]; intros w Hf; [repeat split | repeat split |].
  destruct Hf as [Ho Hk]. cbn [run].
  destruct (perform_timerFree env o w Ho) as [H1 [H2 H3]].
  destruct (perform env o w) as [x w']. cbn [snd] in *.
  destruct (IH x w' (Hk x)) as [I1 [I2 I3]].
  rewrite I1, I2, I3. auto.
Qed.

Import EarlierObserve.

Section Appearances.

Variable env : Env.
Variable update : Prog unit.
Variable ms : nat.

Hypothesis update_timerFree : timerFree update.
Hypothesis update_total : forall w, fst (run env update w) = Returned tt.

Let appear : Prog unit :=
  update ;; (id <- op (SetInterval TickCallback ms) ;; op (PutInterval (Some id))).

Let disappear : Prog unit :=
  i <- op GetInterval ;;
  match i with
  | Some id => op (ClearInterval id)
  | None => Ret tt
  end.

Lemma appear_adds_timer w :
  let w1 := snd (run env appear w) in
  timers w1 = (timers w ++ [mkTimer (nextTimer w) true TickCallback ms])%list /\
  nextTimer w1 = S (nextTimer w) /\
  stateCheckInterval (fields w1) = Some (nextTimer w).
Proof.
  cbv zeta. subst appear. rewrite run_bind.
  pose proof (update_total w) as Hr.
  destruct (run_timerFree env update w update_timerFree) as [H1 [H2 _]].
  destruct (run env update w) as [[[]|e] w0]; [|discriminate].
  cbn [fst snd] in *. cbn. now rewrite H1, H2.
Qed.

(** After [S n] appearances the last timer is stored and the [n] before it
    are live and lost. *)
Lemma appearances_leak n : forall w,
  (forall t, In t (timers w) -> timerId t < nextTimer w) ->
  exists rest t,
    timers (appearances env appear (S n) w) = (rest ++ [t])%list /\
    periodic t = true /\
    stateCheckInterval (fields (appearances env appear (S n) w)) = Some (timerId t) /\
    (forall t', In t' rest -> timerId t' < timerId t) /\
    List.length (filter periodic rest) = n + List.length (periodicTimers w).
Proof.
  induction n as [|n IH]; intros w Hb.
  - cbn [appearances].
    destruct (appear_adds_timer w) as [H1 [H2 H3]]. cbv zeta in *.
    exists (timers w), (mkTimer (nextTimer w) true TickCallback ms).
    repeat split; [exact H1 | exact H3 | exact Hb].
  - change (appearances env appear (S (S n)) w)
      with (appearances env appear (S n) (snd (run env appear w))).
    destruct (appear_adds_timer w) as [H1 [H2 H3]]. cbv zeta in *.
    destruct (IH (snd (run env appear w))) as [rest [t [A [B [C [D E]]]]]].
    { intros t Hin. rewrite H1 in Hin. rewrite H2.
      apply in_app_or in Hin as [Hin|[<-|[]]]; [specialize (Hb t Hin); lia | cbn; lia]. }
    exists rest, t. repeat split; try assumption.
    rewrite E. unfold periodicTimers. rewrite H1, filter_app, length_app.
    cbn. lia.
Qed.

Lemma appearances_then_disappear n w :
  (forall t, In t (timers w) -> timerId t < nextTimer w) ->
  let wn := appearances env appear (S n) w in
  List.length (periodicTimers wn) = S n + List.length (periodicTimers w) /\
  List.length (periodicTimers (snd (run env disappear wn)))
  = n + List.length (periodicTimers w) /\
  stateCheckInterval (fields (snd (run env disappear wn)))
  = stateCheckInterval (fields wn).
Proof.
  intros Hb. cbv zeta.
  destruct (appearances_leak n w Hb) as [rest [t [A [B [C [D E]]]]]].
  split; [|split].
  - unfold periodicTimers at 1. rewrite A, filter_app, length_app.
    cbn [filter]. rewrite B. cbn [List.length]. lia.
  - subst disappear. rewrite run_bind, run_op.
    cbn [fst snd perform record observable]. rewrite C.
    rewrite (run_op env (ClearInterval (timerId t))).
    cbn [snd perform record observable].
    unfold periodicTimers at 1. cbn [timers dropTimer addTrace]. rewrite A.
    rewrite filter_app. cbn [filter]. rewrite Nat.eqb_refl. cbn [negb].
    rewrite app_nil_r.
    rewrite (filter_all (fun t0 => negb (timerId t0 =? timerId t)) rest); [exact E|].
    intros t' Hin. apply negb_true_iff, Nat.eqb_neq. specialize (D t' Hin). lia.
  - subst disappear. rewrite run_bind, run_op.
    cbn [fst snd perform record observable]. rewrite C.
    rewrite (run_op env (ClearInterval (timerId t))).
    cbn [snd perform record observable fields dropTimer addTrace]. exact C.
Qed.

End Appearances.

(** X17. The earlier classes leak periodic timers.  Their
    [startPeriodicStateCheck] arms a new interval without clearing the one
    stored, and their [onWillDisappear] clears the stored interval only and
    leaves the field set.  So after [n + 1] appearances of the action
    [n + 1] more periodic timers are live, and after the action disappeared
    [n] of them still are, while [stateCheckInterval] keeps the id of the
    cleared one.  (For ZoomToggleBase the count never exceeds one.) *)
Theorem earlier_classes_leak_timers env n w :
  (forall t, In t (timers w) -> timerId t < nextTimer w) ->
  (let wn := appearances env VideoToggleV1.onWillAppear (S n) w in
   List.length (periodicTimers wn) = S n + List.length (periodicTimers w) /\
   List.length (periodicTimers (snd (run env VideoToggleV1.onWillDisappear wn)))
   = n + List.length (periodicTimers w) /\
   stateCheckInterval (fields (snd (run env VideoToggleV1.onWillDisappear wn)))
   = stateCheckInterval (fields wn)) /\
  (let wn := appearances env MuteToggleV1.onWillAppear (S n) w in
   List.length (periodicTimers wn) = S n + List.length (periodicTimers w) /\
   List.length (periodicTimers (snd (run env MuteToggleV1.onWillDisappear wn)))
   = n + List.length (periodicTimers w) /\
   stateCheckInterval (fields (snd (run env MuteToggleV1.onWillDisappear wn)))
   = stateCheckInterval (fields wn)).
Proof.
  intros Hb. split.
  - exact (appearances_then_disappear env VideoToggleV1.updateState 5000
             (avoids_updateStateV1 isTimerOp timer_is_activation)
             (HandlerFacts.updateStateV1_total env) n w Hb).
  - exact (appearances_then_disappear env MuteToggleV1.updateState 500
             (avoids_updateStateMuteV1 isTimerOp timer_is_activation)
             (HandlerFacts.updateStateMuteV1_total env) n w Hb).
Qed.

Lemma earlier_classes_leak_timers_witness :
  let w2 := appearances Scenarios.envAbsent VideoToggleV1.onWillAppear 2 initialWorld in
  List.length (periodicTimers w2) = 2 /\
  List.length (periodicTimers
                 (snd (run Scenarios.envAbsent VideoToggleV1.onWillDisappear w2))) = 1.
Proof.
  destruct (earlier_classes_leak_timers Scenarios.envAbsent 1 initialWorld)
    as [[A [B _]] _].
  - intros t [].
  - exact (conj A B).
Defined.

(** X18. Disappearing does not stop a verification that is already armed.
    [onWillDisappear] clears the periodic timer, but the verification
    timeout of an earlier key press stays pending (X16); when it then runs,
    it ends, whatever its update cycle finds, by starting the periodic
    timer again: the controller polls once more although the action is
    gone. *)
Theorem verification_after_disappear_rearms config kind env w :
  onePeriodic w ->
  let c := controller config (subclass kind) in
  let w1 := snd (run env (Runtime.onWillDisappear c) w) in
  let w2 := snd (run env (timerCallback c VerifyCallback) w1) in
  periodicTimers w1 = [] /\
  stateCheckInterval (fields w1) = None /\
  periodicTimers w2
  = [mkTimer (nextTimer w) true TickCallback (checkIntervalMs config)] /\
  stateCheckInterval (fields w2) = Some (nextTimer w).
Proof.
  intros Hone. cbv zeta.
  cbn [Runtime.onWillDisappear timerCallback controller].
  unfold ToggleBase.onWillDisappear, verification.
  rewrite run_cleanup. cbn [snd].
  split; [now apply periodicTimers_cleaned|].
  split; [apply stateCheckInterval_cleaned|].
  rewrite run_bind.
  pose proof (HandlerFacts.updateState_total (subclass kind) env (cleaned w)) as Hr.
  destruct (run_timerFree env (updateState (subclass kind)) (cleaned w)
              (avoids_updateState isTimerOp timer_is_activation kind))
    as [H1 [H2 H3]].
  destruct (run env (updateState (subclass kind)) (cleaned w)) as [[[]|e] w0];
    [|discriminate].
  cbn [fst snd] in *.
  rewrite ControllerFacts.run_startPeriodicStateCheck. cbn [snd].
  assert (Hc : cleaned w0 = w0).
  { unfold cleaned. now rewrite H3, stateCheckInterval_cleaned. }
  unfold polling. rewrite Hc.
  unfold periodicTimers.
  cbn [timers fields withFields addTimer addTrace stateCheckInterval nextTimer].
  rewrite H1, H2, ControllerFacts.nextTimer_cleaned.
  split; [|reflexivity].
  rewrite filter_app.
  change (filter periodic (timers (cleaned w))) with (periodicTimers (cleaned w)).
  now rewrite (periodicTimers_cleaned w Hone).
Qed.

Lemma verification_after_disappear_rearms_witness :
  let c := controller defaultConfig ZoomMuteToggle in
  let w1 := snd (run Scenarios.envAbsent (Runtime.onWillDisappear c) initialWorld) in
  periodicTimers (snd (run Scenarios.envAbsent (timerCallback c VerifyCallback) w1))
  = [mkTimer 0 true TickCallback 1000].
Proof.
  exact (proj1 (proj2 (proj2
           (verification_after_disappear_rearms defaultConfig MuteAction
              Scenarios.envAbsent initialWorld eq_refl)))).
Defined.

End TimerFacts.

(** ** Who launches the toggle command *)

Module ActivationFacts.
Import JsString Keystroke Runtime Observe Schedule RuntimeFacts BaseFacts TimerFacts.

Lemma perform_trace_exact env o w :
  trace (snd (perform env o w))
  = (trace w ++ (if observable o then [o] else []))%list.
Proof. destruct o; cbn; rewrite ?app_nil_r; reflexivity. Qed.

Lemma advance_avoids bad env (p : Prog unit) : forall w,
  avoids bad p ->
  filter bad (trace (snd (advance env p w))) = filter bad (trace w) /\
  match fst (advance env p w) with
  | Some p' => avoids bad p'
  | None => True
  end.
Proof.
  induction p as [a|e|o k IH]; intros w Hp; [now split | now split |].
  destruct Hp as [Ho Hk]. cbn [advance].
  pose proof (perform_trace_exact env o w) as Ht.
  destruct (perform env o w) as [x w']. cbn [snd] in Ht.
  assert (Hf : filter bad (trace w') = filter bad (trace w)).
  { rewrite Ht, filter_app. destruct (observable o); cbn [filter];
      rewrite ?Ho; now rewrite app_nil_r. }
  destruct (suspends o).
  - cbn [fst snd]. split; [exact Hf | apply Hk].
  - destruct (IH x w' (Hk x)) as [H1 H2]. split; [now rewrite H1 | exact H2].
Qed.

Lemma QuietInv_start env p s :
  avoids isExecutorStep p -> QuietInv s -> QuietInv (start env p s).
Proof.
  intros Hp [Htrace Htasks]. unfold start.
  destruct (advance_avoids isExecutorStep env p (world s) Hp) as [H1 H2].
  destruct (advance env p (world s)) as [[p'|] w']; cbn [fst snd] in *.
  - split; [cbn [world]; now rewrite H1|]. cbn [tasks].
    apply Forall_app. split; [exact Htasks | now constructor].
  - split; [cbn [world]; now rewrite H1 | exact Htasks].
Qed.

Lemma step_QuietInv env c ch s :
  quietController c -> isKeyDown ch = false ->
  QuietInv s -> QuietInv (step env c ch s).
Proof.
  intros [Ha [Hd Ht]] Hch Hinv.
  destruct ch as [i|id|st| |]; try discriminate; cbn [step].
  - destruct (nth_error (tasks s) i) as [p|] eqn:Hnth; [|exact Hinv].
    destruct Hinv as [Htrace Htasks].
    assert (Hp : avoids isExecutorStep p).
    { rewrite Forall_forall in Htasks. apply Htasks.
      now apply nth_error_In with (n := i). }
    destruct (advance_avoids isExecutorStep env p (world s) Hp) as [H1 H2].
    destruct (advance env p (world s)) as [o w']; cbn [fst snd] in *.
    split; [cbn [world]; now rewrite H1|]. cbn [tasks].
    apply Forall_replaceNth; [exact Htasks|]. destruct o; [exact H2 | exact I].
  - destruct (find (fun t => timerId t =? id) (timers (world s))) as [t|];
      [|exact Hinv].
    apply QuietInv_start; [apply Ht|].
    destruct Hinv as [Htrace Htasks].
    destruct (periodic t); split; assumption.
  - now apply QuietInv_start.
  - now apply QuietInv_start.
Qed.

Lemma exec_QuietInv env c sched : forall s,
  quietController c ->
  forallb (fun ch => negb (isKeyDown ch)) sched = true ->
  QuietInv s -> QuietInv (exec env c sched s).
Proof.
  induction sched as [|ch r IH]; intros s Hc Hs Hinv; [exact Hinv|].
  cbn [forallb] in Hs. apply andb_prop in Hs as [Hch Hr].
  apply negb_true_iff in Hch.
  cbn [exec fold_left]. apply IH; [exact Hc | exact Hr | now apply step_QuietInv].
Qed.

Lemma avoids_cleanup : avoids isExecutorStep ToggleBase.cleanup.
Proof.
  split; [reflexivity|]. intros [id|]; [|exact I].
  split; [reflexivity|]. intros ?. split; [reflexivity | intros ?; exact I].
Qed.

Lemma avoids_startPeriodicStateCheck config :
  avoids isExecutorStep (ToggleBase.startPeriodicStateCheck config).
Proof.
  apply avoids_bind; [apply avoids_cleanup|]. intros ?.
  split; [reflexivity|]. intros id. split; [reflexivity | intros ?; exact I].
Qed.

Lemma quiet_base config kind :
  quietController (ToggleBase.controller config (ToggleBase.subclass kind)).
Proof.
  assert (Happear : avoids isExecutorStep
                      (ToggleBase.onWillAppear config (ToggleBase.subclass kind))).
  { apply avoids_bind; [|intros ?; apply avoids_startPeriodicStateCheck].
    apply avoids_updateState. exact step_is_activation. }
  split; [exact Happear|]. split; [apply avoids_cleanup|].
  intros [|]; cbn [timerCallback ToggleBase.controller].
  - exact Happear.
  - apply avoids_periodicTick. exact step_is_activation.
Qed.

Lemma avoids_arm ms :
  avoids isExecutorStep
    (id <- op (SetInterval TickCallback ms) ;; op (PutInterval (Some id))).
Proof.
  split; [reflexivity|]. intros id. split; [reflexivity | intros ?; exact I].
Qed.

Lemma avoids_disappearV1 : avoids isExecutorStep VideoToggleV1.onWillDisappear.
Proof.
  split; [reflexivity|]. intros [id|]; [|exact I].
  split; [reflexivity | intros ?; exact I].
Qed.

Lemma quiet_video_v1 : quietController VideoToggleV1.controller.
Proof.
  split; [|split].
  - apply avoids_bind; [|intros ?; apply avoids_arm].
    apply avoids_updateStateV1. exact step_is_activation.
  - apply avoids_disappearV1.
  - intros [|]; cbn [timerCallback VideoToggleV1.controller].
    + apply avoids_updateStateV1. exact step_is_activation.
    + apply avoids_periodicTickV1. exact step_is_activation.
Qed.

Lemma quiet_mute_v1 : quietController MuteToggleV1.controller.
Proof.
  split; [|split].
  - apply avoids_bind; [|intros ?; apply avoids_arm].
    apply avoids_updateStateMuteV1. exact step_is_activation.
  - apply avoids_disappearV1.
  - intros [|]; cbn [timerCallback MuteToggleV1.controller].
    + apply avoids_updateStateMuteV1. exact step_is_activation.
    + apply avoids_periodicTickMuteV1. exact step_is_activation.
Qed.

Lemma QuietInv_initial : QuietInv initialSys.
Proof. split; [reflexivity | constructor]. Qed.

(** X19. Only a key press toggles Zoom.  In every interleaving of
    appearances, disappearances, timers that fire and continuations of
    awaits in which no key is pressed, and for every behaviour of the
    processes, the toggle command is never launched and no retry delay is
    slept: update cycles, ticks and verifications only observe.  This holds
    for ZoomToggleBase under both subclasses and for the two earlier
    classes. *)
Theorem no_toggle_without_key_press config kind env sched :
  forallb (fun ch => negb (isKeyDown ch)) sched = true ->
  executorSteps
    (trace (world (exec env (ToggleBase.controller config (ToggleBase.subclass kind))
                        sched initialSys))) = [] /\
  executorSteps
    (trace (world (exec env VideoToggleV1.controller sched initialSys))) = [] /\
  executorSteps
    (trace (world (exec env MuteToggleV1.controller sched initialSys))) = [].
Proof.
  intros Hs. split; [|split].
  - exact (proj1 (exec_QuietInv env _ sched initialSys (quiet_base config kind)
                    Hs QuietInv_initial)).
  - exact (proj1 (exec_QuietInv env _ sched initialSys quiet_video_v1
                    Hs QuietInv_initial)).
  - exact (proj1 (exec_QuietInv env _ sched initialSys quiet_mute_v1
                    Hs QuietInv_initial)).
Qed.

Lemma no_toggle_without_key_press_witness :
  let s := exec Scenarios.envProbeUnknown
                (ToggleBase.controller ToggleBase.defaultConfig ToggleBase.ZoomMuteToggle)
                [WillAppear; Resume 0; Resume 0; Resume 0; Fire 0; WillDisappear]
                initialSys in
  executorSteps (trace (world s)) = [].
Proof.
  exact (proj1 (no_toggle_without_key_press ToggleBase.defaultConfig MuteAction
                  Scenarios.envProbeUnknown
                  [WillAppear; Resume 0; Resume 0; Resume 0; Fire 0; WillDisappear]
                  eq_refl)).
Defined.

End ActivationFacts.

(** ** How often the toggle command is launched *)

Module BudgetFacts.
Import JsString Keystroke Runtime Observe Schedule RuntimeFacts BaseFacts TimerFacts.
Import ActivationFacts.

Lemma atMost_weaken {A : Type} (p : Prog A) : forall n m,
  n <= m -> atMost n p -> atMost m p.
Proof.
  induction p as [a|e|o k IH]; intros n m Hle Hp; [exact I | exact I |].
  cbn [atMost] in *. destruct (isExecutorCall o).
  - destruct n as [|n']; [contradiction|].
    destruct m as [|m']; [lia|].
    intros x. apply (IH x n' m'); [lia | apply Hp].
  - intros x. apply (IH x n m Hle). apply Hp.
Qed.

Lemma atMost_bind {A B : Type} (p : Prog A) (f : A -> Prog B) m : forall n,
  atMost n p -> (forall a, atMost m (f a)) -> atMost (n + m) (bind p f).
Proof.
  induction p as [a|e|o k IH]; intros n Hp Hf.
  - cbn [bind]. apply (atMost_weaken _ m); [lia | apply Hf].
  - exact I.
  - cbn [bind atMost] in *. destruct (isExecutorCall o).
    + destruct n as [|n']; [contradiction|].
      intros x. apply (IH x n'); [apply Hp | exact Hf].
    + intros x. apply (IH x n); [apply Hp | exact Hf].
Qed.

Lemma atMost_tryCatch {A : Type} (p : Prog A) h m : forall n,
  atMost n p -> (forall e, atMost m (h e)) -> atMost (n + m) (tryCatch p h).
Proof.
  induction p as [a|e|o k IH]; intros n Hp Hh.
  - exact I.
  - cbn [tryCatch]. apply (atMost_weaken _ m); [lia | apply Hh].
  - cbn [tryCatch atMost] in *. destruct (isExecutorCall o).
    + destruct n as [|n']; [contradiction|].
      intros x. apply (IH x n'); [apply Hp | exact Hh].
    + intros x. apply (IH x n); [apply Hp | exact Hh].
Qed.

Lemma avoids_atMost {A : Type} (p : Prog A) :
  avoids isExecutorCall p -> atMost 0 p.
Proof.
  induction p as [a|e|o k IH]; intros Hp; [exact I | exact I |].
  destruct Hp as [Ho Hk]. cbn [atMost]. rewrite Ho.
  intros x. apply IH, Hk.
Qed.

Lemma call_is_activation o : isExecutorCall o = true -> isActivationOp o = true.
Proof.
  intros H. unfold isActivationOp, isExecutorStep. rewrite H.
  now rewrite orb_true_r.
Qed.

Lemma avoids_calls {A : Type} (p : Prog A) :
  avoids isExecutorStep p -> avoids isExecutorCall p.
Proof.
  induction p as [a|e|o k IH]; intros Hp; [exact I | exact I |].
  destruct Hp as [Ho Hk]. split.
  - unfold isExecutorStep in Ho. now apply orb_false_iff in Ho.
  - intros x. apply IH, Hk.
Qed.

Lemma atMost_executeAppleScript s : atMost 1 (Monitor.executeAppleScript s).
Proof.
  unfold Monitor.executeAppleScript. cbn [atMost].
  destruct (isExecutorCall (Spawn (Osascript s)));
    intros [[[|n]|] out err|msg]; exact I.
Qed.

Lemma atMost_retryLoop config sub method shortcut fuel : forall attempt,
  atMost (ToggleBase.maxRetryAttempts config - attempt)
         (ToggleBase.retryLoop config sub method shortcut fuel attempt).
Proof.
  induction fuel as [|fuel IH]; intros attempt; [exact I|].
  rewrite retryLoop_S.
  destruct (attempt <? ToggleBase.maxRetryAttempts config) eqn:E; [|exact I].
  apply Nat.ltb_lt in E.
  apply (atMost_weaken _ (1 + (ToggleBase.maxRetryAttempts config - S attempt)));
    [lia|].
  apply atMost_tryCatch.
  - apply (atMost_bind _ _ 0 1); [apply atMost_executeAppleScript | intros ?; exact I].
  - intros e.
    destruct (ToggleBase.maxRetryAttempts config <=? S attempt); [exact I|].
    apply (atMost_bind _ _ (ToggleBase.maxRetryAttempts config - S attempt) 0);
      [|intros ?; apply IH].
    intros x. exact I.
Qed.

Lemma atMost_onKeyDown config kind settings :
  atMost (ToggleBase.maxRetryAttempts config)
         (ToggleBase.onKeyDown config (ToggleBase.subclass kind) settings).
Proof.
  unfold ToggleBase.onKeyDown.
  apply (atMost_weaken _ (ToggleBase.maxRetryAttempts config + 0)); [lia|].
  apply atMost_tryCatch.
  - apply (atMost_bind _ _ (ToggleBase.maxRetryAttempts config) 0).
    { apply avoids_atMost, avoids_calls, avoids_cleanup. }
    intros ?.
    apply (atMost_bind _ _ (ToggleBase.maxRetryAttempts config) 0).
    { apply avoids_atMost, avoids_isZoomRunning. exact call_is_activation. }
    intros running. destruct (negb running); [intros x; exact I|]. cbv zeta.
    apply (atMost_bind _ _ (ToggleBase.maxRetryAttempts config) 0).
    { apply avoids_atMost, avoids_validateKeyboardShortcut. exact call_is_activation. }
    intros shortcut.
    apply (atMost_weaken _ (ToggleBase.maxRetryAttempts config - 0 + 0)); [lia|].
    apply atMost_bind; [apply atMost_retryLoop|].
    intros ? x. exact I.
  - intros e x y. exact I.
Qed.

Lemma budgeted_quiet limit c :
  quietController c ->
  (forall st, atMost limit (onKeyDown c st)) ->
  budgetedController limit c.
Proof.
  intros [Ha [Hd Ht]] Hk.
  split; [now apply avoids_atMost, avoids_calls|].
  split; [now apply avoids_atMost, avoids_calls|].
  split; [exact Hk|].
  intros cb. now apply avoids_atMost, avoids_calls.
Qed.

Lemma atMost_checkV1 (c : Cmd) (test : string -> bool) :
  isExecutorCall (ExecSync c) = false ->
  atMost 0 (tryCatch (out <- AudioMonitor.execSync c ;; Ret (test out))
                     (fun _ => Ret false)).
Proof.
  intros Hc. apply avoids_atMost.
  now apply (avoids_checkV1 isExecutorCall call_is_activation).
Qed.

Lemma atMost_execSync c : atMost 1 (AudioMonitor.execSync c).
Proof.
  unfold AudioMonitor.execSync. cbn [atMost].
  destruct (isExecutorCall (ExecSync c));
    intros [[[|n]|] out err|msg]; exact I.
Qed.

Lemma atMost_onKeyDownV1 settings : atMost 1 (VideoToggleV1.onKeyDown settings).
Proof.
  unfold VideoToggleV1.onKeyDown.
  apply (atMost_tryCatch _ _ 0 1); [|intros e x y; exact I].
  apply (atMost_bind _ _ 1 0); [now apply atMost_checkV1|].
  intros running. destruct (negb running); [intros x; exact I|]. cbv zeta.
  apply (atMost_bind _ _ 0 1); [apply atMost_execSync|].
  intros ? lastKnown. destruct lastKnown; cbn; repeat intros ?; exact I.
Qed.

Lemma atMost_onKeyDownMuteV1 settings : atMost 1 (MuteToggleV1.onKeyDown settings).
Proof.
  unfold MuteToggleV1.onKeyDown.
  apply (atMost_tryCatch _ _ 0 1); [|intros e x y; exact I].
  apply (atMost_bind _ _ 1 0); [now apply atMost_checkV1|].
  intros running. destruct (negb running); [intros x; exact I|]. cbv zeta.
  apply (atMost_bind _ _ 0 1); [apply atMost_execSync|].
  intros ? x. exact I.
Qed.

(** *** The invariant *)

Lemma launches_perform env o w :
  launches (snd (perform env o w))
  = launches w + (if isExecutorCall o then 1 else 0).
Proof.
  unfold launches. rewrite perform_trace_exact, filter_app, length_app.
  destruct o as [[|s]| | | |[|s]| | | | | | | | | |]; cbn; try lia;
    destruct (isToggleScript s); cbn; lia.
Qed.

Lemma advance_atMost env (p : Prog unit) : forall n w,
  atMost n p ->
  exists c, c <= n /\
    launches (snd (advance env p w)) = launches w + c /\
    match fst (advance env p w) with
    | Some p' => atMost (n - c) p'
    | None => True
    end.
Proof.
  induction p as [a|e|o k IH]; intros n w Hp.
  - exists 0. cbn. repeat split; lia.
  - exists 0. cbn. repeat split; lia.
  - cbn [advance atMost] in *.
    pose proof (launches_perform env o w) as Hl.
    destruct (perform env o w) as [x w']. cbn [snd] in Hl.
    destruct (isExecutorCall o).
    + destruct n as [|n']; [contradiction|].
      destruct (suspends o).
      * exists 1. cbn [fst snd]. repeat split; [lia | exact Hl |].
        replace (S n' - 1) with n' by lia. apply Hp.
      * destruct (IH x n' w' (Hp x)) as [c [Hc [Hlc Hk]]].
        exists (S c). repeat split; [lia | lia |].
        destruct (fst (advance env (k x) w')); [|exact I].
        replace (S n' - S c) with (n' - c) by lia. exact Hk.
    + destruct (suspends o).
      * exists 0. cbn [fst snd]. repeat split; [lia | lia |].
        replace (n - 0) with n by lia. apply Hp.
      * destruct (IH x n w' (Hp x)) as [c [Hc [Hlc Hk]]].
        exists c. repeat split; [lia | lia | exact Hk].
Qed.

Lemma list_sum_cons b l : list_sum (b :: l) = b + list_sum l.
Proof. reflexivity. Qed.

Lemma LaunchInv_start limit presses presses' used env p s :
  atMost used p ->
  LaunchInv limit presses s ->
  limit * presses + used <= limit * presses' ->
  LaunchInv limit presses' (start env p s).
Proof.
  intros Hp [bs [Hall Hsum]] Hroom. unfold start.
  destruct (advance_atMost env p used (world s) Hp) as [c [Hc [Hl Hk]]].
  destruct (advance env p (world s)) as [[p'|] w']; cbn [fst snd] in *.
  - exists (bs ++ [used - c])%list. split; cbn [tasks world].
    + apply Forall2_app; [exact Hall | now constructor].
    + rewrite list_sum_app, list_sum_cons. cbn [list_sum fold_right]. lia.
  - exists bs. split; cbn [tasks world]; [exact Hall | lia].
Qed.

Lemma LaunchInv_resume limit presses env c i s :
  LaunchInv limit presses s -> LaunchInv limit presses (step env c (Resume i) s).
Proof.
  intros [bs [Hall Hsum]]. cbn [step].
  destruct (nth_error (tasks s) i) as [p|] eqn:Hnth; [|now exists bs].
  destruct (nth_error_split _ _ Hnth) as [l1 [l2 [Hl Hlen]]].
  rewrite Hl in Hall.
  destruct (Forall2_app_inv_r _ _ Hall) as [b1 [br [H1 [Hr Hbs]]]].
  inversion Hr as [|b p0 b2 l2' Hbp H2]; subst.
  rewrite list_sum_app, list_sum_cons in Hsum.
  destruct (advance_atMost env p b (world s) Hbp) as [n [Hn [Hln Hk]]].
  destruct (advance env p (world s)) as [[p'|] w'];
    rewrite Hl, GuardFacts.replaceNth_app; cbn [fst snd] in *.
  - exists (b1 ++ (b - n) :: b2)%list. split; cbn [tasks world].
    + apply Forall2_app; [exact H1 | now constructor].
    + rewrite list_sum_app, list_sum_cons. lia.
  - exists (b1 ++ b2)%list. split; cbn [tasks world].
    + now apply Forall2_app.
    + rewrite list_sum_app. lia.
Qed.

Lemma step_LaunchInv limit presses env c ch s :
  budgetedController limit c ->
  LaunchInv limit presses s ->
  LaunchInv limit (presses + (if isKeyDown ch then 1 else 0)) (step env c ch s).
Proof.
  intros [Ha [Hd [Hk Ht]]] Hinv.
  assert (Hquiet : forall p, atMost 0 p ->
            forall s0, LaunchInv limit presses s0 ->
                       LaunchInv limit (presses + 0) (start env p s0)).
  { intros p Hp s0 Hs0.
    apply (LaunchInv_start limit presses (presses + 0) 0 env p s0 Hp Hs0).
    rewrite !Nat.add_0_r. lia. }
  destruct ch as [i|id|st| |]; cbn [isKeyDown].
  - rewrite Nat.add_0_r. now apply LaunchInv_resume.
  - cbn [step].
    destruct (find (fun t => timerId t =? id) (timers (world s))) as [t|];
      [|now rewrite Nat.add_0_r].
    apply Hquiet; [apply Ht|].
    destruct Hinv as [bs [Hall Hsum]]. exists bs. split; [exact Hall|].
    cbn [world]. destruct (periodic t); exact Hsum.
  - cbn [step].
    apply (LaunchInv_start limit presses (presses + 1) limit env _ s (Hk st) Hinv).
    lia.
  - cbn [step]. now apply Hquiet.
  - cbn [step]. now apply Hquiet.
Qed.

Lemma exec_LaunchInv limit env c sched : forall presses s,
  budgetedController limit c ->
  LaunchInv limit presses s ->
  LaunchInv limit (presses + List.length (filter isKeyDown sched)) (exec env c sched s).
Proof.
  induction sched as [|ch r IH]; intros presses s Hc Hinv.
  - cbn. now rewrite Nat.add_0_r.
  - cbn [exec fold_left filter].
    pose proof (step_LaunchInv limit presses env c ch s Hc Hinv) as Hstep.
    specialize (IH _ _ Hc Hstep).
    destruct (isKeyDown ch); cbn [List.length].
    + replace (presses + S (List.length (filter isKeyDown r)))
        with (presses + 1 + List.length (filter isKeyDown r)) by lia.
      exact IH.
    + now rewrite Nat.add_0_r in IH.
Qed.

Lemma LaunchInv_initial limit : LaunchInv limit 0 initialSys.
Proof. exists []. split; [constructor | cbn; lia]. Qed.

Lemma launches_bounded limit env c sched :
  budgetedController limit c ->
  launches (world (exec env c sched initialSys))
  <= limit * List.length (filter isKeyDown sched).
Proof.
  intros Hc.
  destruct (exec_LaunchInv limit env c sched 0 initialSys Hc (LaunchInv_initial limit))
    as [bs [_ Hsum]].
  cbn [Nat.add] in Hsum. lia.
Qed.

(** X20. The toggle command is launched only for key presses, and only so
    often.  In every interleaving of events, timers and continuations and
    for every behaviour of the processes, the number of toggle commands
    launched so far is at most [maxRetryAttempts] times the number of key
    presses for ZoomToggleBase, and at most the number of key presses for
    the two earlier classes. *)
Theorem toggle_launches_bounded config kind env sched :
  let presses := List.length (filter isKeyDown sched) in
  launches (world (exec env (ToggleBase.controller config (ToggleBase.subclass kind))
                        sched initialSys))
  <= ToggleBase.maxRetryAttempts config * presses /\
  launches (world (exec env VideoToggleV1.controller sched initialSys)) <= presses /\
  launches (world (exec env MuteToggleV1.controller sched initialSys)) <= presses.
Proof.
  cbv zeta. split; [|split].
  - apply launches_bounded.
    apply budgeted_quiet; [apply quiet_base | apply atMost_onKeyDown].
  - rewrite <- (Nat.mul_1_l (List.length (filter isKeyDown sched))).
    apply launches_bounded.
    apply budgeted_quiet; [apply quiet_video_v1 | apply atMost_onKeyDownV1].
  - rewrite <- (Nat.mul_1_l (List.length (filter isKeyDown sched))).
    apply launches_bounded.
    apply budgeted_quiet; [apply quiet_mute_v1 | apply atMost_onKeyDownMuteV1].
Qed.

End BudgetFacts.

(** ** The guard and what it protects *)

Module CycleFacts.
Import JsString Keystroke Runtime Observe Guard Cycle Schedule RuntimeFacts
       BaseFacts ToggleBase GuardFacts.

(** *** The shield and the combinators *)

Lemma shielded_free {A : Type} (p : Prog A) : shielded Idle p -> shielded Free p.
Proof.
  induction p as [a|e|o k IH]; cbn [shielded]; try (intros H; exact H).
  intros [Hc Hk]. split.
  - intros Ho. destruct (Hc Ho) as [E _]. discriminate.
  - destruct o; cbn [afterOp suspends] in *;
      try solve [intros x; first [apply Hk | apply IH, Hk]].
    + intros [|]; [apply IH|]; apply Hk.
    + destruct b; exact Hk.
Qed.

Lemma shielded_modeOf {A : Type} (p : Prog A) m :
  shielded (modeOf (held m)) p -> shielded m p.
Proof. destruct m; cbn [held modeOf]; auto. apply shielded_free. Qed.

Lemma shielded_other {A : Type} o (k : Resp o -> Prog A) m :
  isGuardOp o = false ->
  shielded m (Do o k) ->
  (isCycleOp o = true -> m = Held /\ suspends o = true) /\
  forall x, shielded (afterOp o m) (k x).
Proof. destruct o; cbn; intros Hg H; try discriminate; exact H. Qed.

Lemma shielded_bind {A B : Type} (p : Prog A) (f : A -> Prog B) m hr ht :
  guarded m hr ht p -> shielded m p ->
  (forall a, shielded (modeOf hr) (f a)) ->
  shielded m (bind p f).
Proof.
  intros Hg Hs Hf. revert m Hg Hs.
  induction p as [a|e|o k IH]; intros m Hg Hs; cbn [bind].
  - apply shielded_modeOf. cbn [guarded] in Hg. rewrite Hg. apply Hf.
  - exact I.
  - destruct Hs as [Hc Hk]. split; [exact Hc|].
    destruct o; cbn [guarded] in Hg;
      try (intros x; apply IH; [apply Hg | apply Hk]).
    + destruct m.
      * destruct Hg as [G1 G2], Hk as [K1 K2]. split; now apply IH.
      * intros b. apply IH; [apply Hg | apply Hk].
      * intros b. apply IH; [apply Hg | apply Hk].
    + destruct b; destruct Hg as [_ Hg]; now apply IH.
Qed.

Lemma shielded_tryCatch {A : Type} (p : Prog A) h m hr ht' :
  guarded m hr ht' p -> shielded m p ->
  (forall e, shielded (modeOf ht') (h e)) ->
  shielded m (tryCatch p h).
Proof.
  intros Hg Hs Hh. revert m Hg Hs.
  induction p as [a|e|o k IH]; intros m Hg Hs; cbn [tryCatch].
  - exact I.
  - apply shielded_modeOf. cbn [guarded] in Hg. rewrite Hg. apply Hh.
  - destruct Hs as [Hc Hk]. split; [exact Hc|].
    destruct o; cbn [guarded] in Hg;
      try (intros x; apply IH; [apply Hg | apply Hk]).
    + destruct m.
      * destruct Hg as [G1 G2], Hk as [K1 K2]. split; now apply IH.
      * intros b. apply IH; [apply Hg | apply Hk].
      * intros b. apply IH; [apply Hg | apply Hk].
    + destruct b; destruct Hg as [_ Hg]; now apply IH.
Qed.

Lemma shielded_release {A : Type} (p : Prog A) m :
  guarded m true true p -> shielded m p ->
  shielded m (tryFinally p (op (SetUpdating false))).
Proof.
  revert m. induction p as [a|e|o k IH]; intros m Hg Hs; cbn [tryFinally].
  - cbn. split; [discriminate | exact I].
  - cbn. split; [discriminate | exact I].
  - destruct Hs as [Hc Hk]. split; [exact Hc|].
    destruct o; cbn [guarded] in Hg;
      try (intros x; apply IH; [apply Hg | apply Hk]).
    + destruct m.
      * destruct Hg as [G1 G2], Hk as [K1 K2]. split; now apply IH.
      * intros b. apply IH; [apply Hg | apply Hk].
      * intros b. apply IH; [apply Hg | apply Hk].
    + destruct b; destruct Hg as [_ Hg]; now apply IH.
Qed.

(** *** Programs outside and inside the guarded region *)

Lemma avoids_weaken {A : Type} (bad bad' : Op -> bool) (p : Prog A) :
  (forall o, bad o = true -> bad' o = true) ->
  avoids bad' p -> avoids bad p.
Proof.
  intros Hsub. induction p as [a|e|o k IH]; cbn [avoids]; auto.
  intros [Ho Hk]. split; [|intros x; apply IH, Hk].
  destruct (bad o) eqn:E; [|reflexivity]. now rewrite (Hsub _ E) in Ho.
Qed.

Lemma unawaited_disturbs o : unawaited o = true -> disturbs o = true.
Proof.
  unfold unawaited, disturbs. destruct (isGuardOp o); [reflexivity|].
  cbn [orb]. intros H. now apply andb_prop in H as [H _].
Qed.

Lemma inside_of_outside {A : Type} (p : Prog A) :
  avoids disturbs p -> avoids unawaited p.
Proof. apply avoids_weaken, unawaited_disturbs. Qed.

Lemma outside_neutral {A : Type} (p : Prog A) : avoids disturbs p -> neutral p.
Proof.
  induction p as [a|e|o k IH]; cbn [avoids neutral]; auto.
  intros [Ho Hk]. split; [|intros x; apply IH, Hk].
  unfold disturbs in Ho. now apply orb_false_elim in Ho as [Ho _].
Qed.

Lemma inside_neutral {A : Type} (p : Prog A) : avoids unawaited p -> neutral p.
Proof.
  induction p as [a|e|o k IH]; cbn [avoids neutral]; auto.
  intros [Ho Hk]. split; [|intros x; apply IH, Hk].
  unfold unawaited in Ho. now apply orb_false_elim in Ho as [Ho _].
Qed.

(** Outside the guarded region nothing that the guard protects is done. *)
Lemma outside_shielded {A : Type} (p : Prog A) :
  avoids disturbs p -> forall m, shielded m p.
Proof.
  induction p as [a|e|o k IH]; cbn [avoids]; try (intros; exact I).
  intros [Ho Hk] m. unfold disturbs in Ho.
  apply orb_false_elim in Ho as [Hg Hc].
  cbn [shielded]. split; [rewrite Hc; discriminate|].
  destruct o; cbn in Hg; try discriminate; intros x; apply IH, Hk.
Qed.

(** Inside it, each probe and each update of the key is awaited. *)
Lemma inside_shielded {A : Type} (p : Prog A) :
  avoids unawaited p -> shielded Held p.
Proof.
  induction p as [a|e|o k IH]; cbn [avoids]; try (intros; exact I).
  intros [Ho Hk]. unfold unawaited in Ho.
  apply orb_false_elim in Ho as [Hg Hc].
  cbn [shielded]. split.
  - intros Hcy. rewrite Hcy in Hc. cbn [andb] in Hc.
    apply negb_false_iff in Hc. now split.
  - destruct o; cbn in Hg; try discriminate; intros x; apply IH, Hk.
Qed.

Lemma outside_executeAppleScript s :
  isDetectScript s = false -> avoids disturbs (executeAppleScript s).
Proof.
  intros Hs. split.
  - unfold disturbs, isCycleOp. cbn. now rewrite Hs.
  - intros [[[|n]|] out err|msg]; exact I.
Qed.

Lemma outside_isZoomRunning : avoids disturbs isZoomRunning.
Proof.
  apply TimerFacts.avoids_tryCatch; [|intros ?; exact I].
  apply TimerFacts.avoids_bind; [|intros ?; exact I].
  split; [reflexivity|]. intros [[[|n]|] out err|msg]; exact I.
Qed.

Lemma outside_isInMeeting : avoids disturbs isInMeeting.
Proof.
  apply TimerFacts.avoids_tryCatch; [|intros ?; exact I].
  apply TimerFacts.avoids_bind; [now apply outside_executeAppleScript|]. intros out.
  apply TimerFacts.avoids_bind; [now apply TimerFacts.avoids_op | intros ?; exact I].
Qed.

Lemma outside_cleanup : avoids disturbs cleanup.
Proof.
  split; [reflexivity|]. intros [id|]; [|exact I].
  split; [reflexivity|]. intros ?. split; [reflexivity | intros ?; exact I].
Qed.

Lemma outside_startPeriodicStateCheck config :
  avoids disturbs (startPeriodicStateCheck config).
Proof.
  apply TimerFacts.avoids_bind; [apply outside_cleanup|]. intros ?.
  split; [reflexivity|]. intros id. split; [reflexivity | intros ?; exact I].
Qed.

Lemma outside_validateKeyboardShortcut s :
  avoids disturbs (validateKeyboardShortcut s).
Proof.
  unfold validateKeyboardShortcut.
  destruct (negb (truthy s)); [exact I|]. cbv zeta.
  destruct (List.length (split "+" (toLowerCase s)) =? 0); [exact I|].
  apply TimerFacts.avoids_bind; [|intros ?; exact I].
  apply TimerFacts.avoids_forEach. intros m.
  now apply TimerFacts.avoids_when, TimerFacts.avoids_op.
Qed.

Lemma toggleScript_not_probe config kind method shortcut :
  isDetectScript (toggleScript config (subclass kind) method shortcut) = false.
Proof. destruct kind, method; reflexivity. Qed.

Lemma outside_retryLoop config kind method shortcut fuel : forall attempt,
  avoids disturbs (retryLoop config (subclass kind) method shortcut fuel attempt).
Proof.
  induction fuel as [|fuel IH]; intros attempt; cbn [retryLoop]; [exact I|].
  destruct (attempt <? maxRetryAttempts config); [|exact I].
  apply TimerFacts.avoids_tryCatch.
  - apply TimerFacts.avoids_bind; [|intros ?; exact I].
    apply outside_executeAppleScript, toggleScript_not_probe.
  - intros e. cbv zeta.
    destruct (maxRetryAttempts config <=? S attempt); [exact I|].
    apply TimerFacts.avoids_bind; [now apply TimerFacts.avoids_op|].
    intros ?. apply IH.
Qed.

(** A key press neither touches the guard nor probes nor changes the state
    of the key. *)
Lemma outside_onKeyDown config kind settings :
  avoids disturbs (onKeyDown config (subclass kind) settings).
Proof.
  apply TimerFacts.avoids_tryCatch.
  - apply TimerFacts.avoids_bind; [apply outside_cleanup|]. intros ?.
    apply TimerFacts.avoids_bind; [apply outside_isZoomRunning|]. intros running.
    destruct (negb running); [now apply TimerFacts.avoids_op|]. cbv zeta.
    apply TimerFacts.avoids_bind; [apply outside_validateKeyboardShortcut|].
    intros shortcut.
    apply TimerFacts.avoids_bind; [apply outside_retryLoop|].
    intros ?. now apply TimerFacts.avoids_op.
  - intros e.
    apply TimerFacts.avoids_bind; [now apply TimerFacts.avoids_op|].
    intros ?. now apply TimerFacts.avoids_op.
Qed.

Lemma inside_detectState kind : avoids unawaited (detectState (subclass kind)).
Proof.
  destruct kind; cbn [detectState subclass ZoomMuteToggle ZoomVideoToggle].
  - apply TimerFacts.avoids_tryCatch.
    + apply TimerFacts.avoids_bind.
      { split; [reflexivity|]. intros [[[|n]|] out err|msg]; exact I. }
      intros result.
      destruct (String.eqb result "muted"); [exact I|].
      destruct (String.eqb result "unmuted"); [exact I|].
      apply TimerFacts.avoids_bind; [|intros ?; exact I].
      now apply TimerFacts.avoids_when, TimerFacts.avoids_op.
    + intros ?. apply TimerFacts.avoids_bind;
        [now apply TimerFacts.avoids_op | intros ?; exact I].
  - apply TimerFacts.avoids_tryCatch.
    + apply TimerFacts.avoids_bind.
      { split; [reflexivity|]. intros [[[|n]|] out err|msg]; exact I. }
      intros result.
      destruct (String.eqb result "video_on"); [exact I|].
      destruct (String.eqb result "video_off"); [exact I|].
      apply TimerFacts.avoids_bind; [|intros ?; exact I].
      now apply TimerFacts.avoids_when, TimerFacts.avoids_op.
    + intros ?. apply TimerFacts.avoids_bind;
        [now apply TimerFacts.avoids_op | intros ?; exact I].
Qed.

Lemma inside_setButtonState kind z :
  avoids unawaited (setButtonState (subclass kind) z).
Proof.
  destruct kind, z; first [exact I | now apply TimerFacts.avoids_op].
Qed.

Lemma inside_cycleBody kind : avoids unawaited (cycleBody (subclass kind)).
Proof.
  apply TimerFacts.avoids_tryCatch.
  - apply TimerFacts.avoids_bind;
      [apply inside_of_outside, outside_isZoomRunning|]. intros running.
    destruct (negb running); [now apply TimerFacts.avoids_op|].
    apply TimerFacts.avoids_bind;
      [apply inside_of_outside, outside_isInMeeting|]. intros inMeeting.
    destruct (negb inMeeting); [now apply TimerFacts.avoids_op|].
    apply TimerFacts.avoids_bind; [apply inside_detectState|]. intros z.
    apply TimerFacts.avoids_when, TimerFacts.avoids_bind;
      [apply inside_setButtonState|].
    intros ?. now apply TimerFacts.avoids_op.
  - intros ?.
    apply TimerFacts.avoids_bind; [now apply TimerFacts.avoids_op|].
    intros ?. now apply TimerFacts.avoids_op.
Qed.

Lemma updateState_cycleBody sub :
  updateState sub
  = (updating <- op GetUpdating ;;
     if updating then Ret tt
     else op (SetUpdating true) ;;
          tryFinally (cycleBody sub) (op (SetUpdating false))).
Proof. reflexivity. Qed.

Lemma shielded_updateState kind : shielded Idle (updateState (subclass kind)).
Proof.
  rewrite updateState_cycleBody. cbn [bind op shielded].
  split; [discriminate|]. split; [exact I|].
  split; [discriminate|].
  apply shielded_release.
  - exact (neutral_guarded _ (inside_neutral _ (inside_cycleBody kind)) Held).
  - apply inside_shielded, inside_cycleBody.
Qed.

Lemma outside_protected (p : Prog unit) :
  avoids disturbs p -> disciplined Idle p /\ shielded Idle p.
Proof.
  intros H. split.
  - apply disciplined_neutral, outside_neutral, H.
  - now apply outside_shielded.
Qed.

Lemma shielded_controller config kind :
  shieldedController (controller config (subclass kind)).
Proof.
  pose proof (disciplined_controller config (subclass kind) (neutral_subclass kind))
    as [Da [Dd [Dk Dt]]].
  pose proof (disciplined_updateState _ (neutral_subclass kind)) as Du.
  pose proof (shielded_updateState kind) as Su.
  assert (Sa : shielded Idle (onWillAppear config (subclass kind))).
  { apply (shielded_bind _ _ Idle false false); [exact Du | exact Su|].
    intros ?. apply outside_shielded, outside_startPeriodicStateCheck. }
  split; [|split; [|split]].
  - split; [exact Da | exact Sa].
  - split; [exact Dd | apply outside_shielded, outside_cleanup].
  - intros st. split; [apply Dk | apply outside_shielded, outside_onKeyDown].
  - intros cb. split; [apply Dt|]. destruct cb; cbn [timerCallback controller].
    + exact Sa.
    + unfold periodicTick. apply (shielded_tryCatch _ _ Idle false false).
      * apply (guarded_bind _ _ _ false).
        -- apply (neutral_guarded _ neutral_isZoomRunning Idle).
        -- intros [|]; [|reflexivity].
           apply (guarded_bind _ _ _ false).
           ++ apply (neutral_guarded _ neutral_isInMeeting Idle).
           ++ intros [|]; [exact Du | reflexivity].
      * apply (shielded_bind _ _ Idle false false).
        -- apply (neutral_guarded _ neutral_isZoomRunning Idle).
        -- apply outside_shielded, outside_isZoomRunning.
        -- intros [|]; [|exact I].
           apply (shielded_bind _ _ Idle false false).
           ++ apply (neutral_guarded _ neutral_isInMeeting Idle).
           ++ apply outside_shielded, outside_isInMeeting.
           ++ intros [|]; [exact Su | exact I].
      * intros e. apply outside_shielded. now apply TimerFacts.avoids_op.
Qed.

(** *** One step of a method *)

Lemma in_recorded (o o' : Op) :
  In o' (if observable o then [o] else []) -> o' = o.
Proof.
  destruct (observable o); cbn [In]; [|contradiction].
  intros [E|[]]. now symmetry.
Qed.

Lemma advance_shielded env (p : Prog unit) : forall m w others,
  guarded m false false p -> shielded m p ->
  (m = Free -> isUpdating (fields w) = false) ->
  b2n (isUpdating (fields w)) = b2n (held m) + others ->
  match advance env p w with
  | (Some p', w') =>
      exists l h', trace w' = (trace w ++ l)%list /\
        disciplined (modeOf h') p' /\ shielded (modeOf h') p' /\
        b2n (isUpdating (fields w')) = b2n h' + others /\
        (forall o, In o l -> isCycleOp o = true -> h' = true)
  | (None, w') =>
      exists l, trace w' = (trace w ++ l)%list /\
        b2n (isUpdating (fields w')) = others /\
        (forall o, In o l -> isCycleOp o = false)
  end.
Proof.
  induction p as [a|e|o k IH]; intros m w others Hp Hs Hfree Hcount.
  - cbn in *. exists []. rewrite app_nil_r, Hp in *. now repeat split.
  - cbn in *. exists []. rewrite app_nil_r, Hp in *. now repeat split.
  - destruct (isGuardOp o) eqn:Hg.
    + destruct o; try discriminate.
      * (* the test of the guard *)
        cbn [advance perform record observable suspends]. cbn [guarded] in Hp.
        destruct Hs as [_ Hs].
        destruct m.
        -- destruct Hp as [Ht Hf], Hs as [St Sf].
           destruct (isUpdating (fields w)) eqn:Hup.
           ++ apply (IH true Idle); [exact Ht | exact St | discriminate
                                    | now rewrite Hup].
           ++ apply (IH false Free); [exact Hf | exact Sf | auto | now rewrite Hup].
        -- apply (IH _ Free); [apply Hp | apply Hs | exact Hfree | exact Hcount].
        -- apply (IH _ Held); [apply Hp | apply Hs | discriminate | exact Hcount].
      * destruct Hs as [_ Hs].
        destruct b; cbn [guarded] in Hp; destruct Hp as [Hm Hp]; subst m;
          cbn [advance perform record observable suspends].
        -- (* taking the guard: it was free, nobody else holds it *)
           apply (IH tt Held
                    (withFields (fun f => mkFields (stateCheckInterval f) true
                                                   (lastKnownState f)) w));
             [exact Hp | exact Hs | discriminate |].
           rewrite (Hfree eq_refl) in Hcount. cbn in *. lia.
        -- (* releasing it *)
           apply (IH tt Idle
                    (withFields (fun f => mkFields (stateCheckInterval f) false
                                                   (lastKnownState f)) w));
             [exact Hp | exact Hs | discriminate |].
           pose proof (b2n_le (isUpdating (fields w))). cbn in *. lia.
    + pose proof (guarded_other o k m false false Hg Hp) as Hk.
      destruct (shielded_other o k m Hg Hs) as [Hcy Sk].
      pose proof (perform_isUpdating env o w Hg) as Hsame.
      pose proof (ActivationFacts.perform_trace_exact env o w) as Htr.
      assert (Hadv : advance env (Do o k) w
                     = if suspends o
                       then (Some (k (fst (perform env o w))), snd (perform env o w))
                       else advance env (k (fst (perform env o w)))
                                    (snd (perform env o w))).
      { cbn [advance]. destruct (perform env o w). reflexivity. }
      rewrite Hadv. clear Hadv.
      destruct (suspends o) eqn:Hsus.
      * exists (if observable o then [o] else []), (held m).
        split; [exact Htr|]. split; [|split; [|split]].
        -- unfold disciplined. rewrite <- (afterOp_suspends o m Hsus). apply Hk.
        -- rewrite <- (afterOp_suspends o m Hsus). apply Sk.
        -- now rewrite Hsame.
        -- intros o' Hin Ho'. apply in_recorded in Hin. subst o'.
           destruct (Hcy Ho') as [Hm _]. now subst m.
      * assert (Hno : isCycleOp o = false).
        { destruct (isCycleOp o); [|reflexivity].
          destruct (Hcy eq_refl) as [_ E]. discriminate. }
        specialize (IH (fst (perform env o w)) m (snd (perform env o w)) others).
        rewrite (afterOp_continues o m Hsus) in Hk, Sk.
        specialize (IH (Hk _) (Sk _)).
        rewrite Hsame in IH. specialize (IH Hfree Hcount).
        destruct (advance env (k (fst (perform env o w))) (snd (perform env o w)))
          as [[p'|] w'].
        -- destruct IH as [l [h' [Ht [Hd [Hsh [Hc Hdyn]]]]]].
           exists ((if observable o then [o] else []) ++ l)%list, h'.
           split; [rewrite Ht, Htr; now rewrite app_assoc|].
           split; [exact Hd|]. split; [exact Hsh|]. split; [exact Hc|].
           intros o' Hin Ho'. apply in_app_or in Hin as [Hin|Hin].
           ++ apply in_recorded in Hin. subst o'. congruence.
           ++ now apply (Hdyn o').
        -- destruct IH as [l [Ht [Hc Hdyn]]].
           exists ((if observable o then [o] else []) ++ l)%list.
           split; [rewrite Ht, Htr; now rewrite app_assoc|].
           split; [exact Hc|].
           intros o' Hin. apply in_app_or in Hin as [Hin|Hin].
           ++ apply in_recorded in Hin. now subst o'.
           ++ now apply Hdyn.
Qed.

(** *** The invariant of the event loop *)

Lemma since_same w : since w w = [].
Proof. unfold since. apply skipn_all. Qed.

Lemma b2n_true b others : b2n b = b2n true + others -> b = true.
Proof. destruct b; cbn; [reflexivity | lia]. Qed.

Lemma ShieldInv_Inv s : ShieldInv s -> Inv s.
Proof.
  intros [hs [Hall Hcount]]. exists hs. split; [|exact Hcount].
  eapply Forall2_impl; [|exact Hall]. intros h p [H _]. exact H.
Qed.

Lemma ShieldInv_start env p s :
  disciplined Idle p -> shielded Idle p -> ShieldInv s ->
  ShieldInv (start env p s) /\
  (forall o, In o (since (world s) (world (start env p s))) ->
     isCycleOp o = true ->
     isUpdating (fields (world (start env p s))) = true /\
     exists q, nth_error (tasks (start env p s)) (List.length (tasks s)) = Some q /\
               inCycle q).
Proof.
  intros Hp Hsp [hs [Hall Hcount]]. unfold start.
  pose proof (advance_shielded env p Idle (world s) (holders hs) Hp Hsp) as H.
  destruct (advance env p (world s)) as [[p'|] w'].
  - destruct H as [l [h' [Ht [Hd [Hsh [Hc Hdyn]]]]]]; [discriminate | cbn; lia |].
    split.
    + exists (hs ++ [h'])%list. split; cbn [tasks world].
      * apply Forall2_app; [exact Hall | now repeat constructor].
      * rewrite holders_app, holders_cons. unfold holders at 2. cbn. lia.
    + cbn [world tasks]. intros o Hin Ho.
      rewrite (since_app _ _ _ Ht) in Hin.
      pose proof (Hdyn o Hin Ho) as Hh. subst h'.
      split; [exact (b2n_true _ _ Hc)|].
      exists p'. split; [|exact Hd].
      rewrite nth_error_app2, Nat.sub_diag by lia. reflexivity.
  - destruct H as [l [Ht [Hc Hdyn]]]; [discriminate | cbn; lia |].
    split.
    + exists hs. split; cbn [tasks world]; [exact Hall | now rewrite Hc].
    + cbn [world tasks]. intros o Hin Ho.
      rewrite (since_app _ _ _ Ht) in Hin.
      rewrite (Hdyn o Hin) in Ho. discriminate.
Qed.

Lemma ShieldInv_resume env c i s :
  ShieldInv s ->
  ShieldInv (step env c (Resume i) s) /\
  (forall o, In o (since (world s) (world (step env c (Resume i) s))) ->
     isCycleOp o = true ->
     isUpdating (fields (world (step env c (Resume i) s))) = true /\
     exists q, nth_error (tasks (step env c (Resume i) s)) i = Some q /\ inCycle q).
Proof.
  intros [hs [Hall Hcount]]. cbn [step].
  destruct (nth_error (tasks s) i) as [p|] eqn:Hnth.
  2:{ split; [now exists hs|]. intros o Hin. rewrite since_same in Hin.
      contradiction. }
  destruct (nth_error_split _ _ Hnth) as [l1 [l2 [Hl Hlen]]].
  rewrite Hl in Hall.
  destruct (Forall2_app_inv_r _ _ Hall) as [h1 [hr [H1 [Hr Hhs]]]].
  inversion Hr as [|h p0 h2 l2' [Hhp Shp] H2]; subst.
  rewrite holders_app, holders_cons in Hcount.
  pose proof (advance_shielded env p (modeOf h) (world s)
                (holders h1 + holders h2) Hhp Shp) as H.
  assert (Hheld : held (modeOf h) = h) by now destruct h.
  rewrite Hheld in H.
  destruct (advance env p (world s)) as [[p'|] w'];
    rewrite Hl, replaceNth_app; cbn [world tasks].
  - destruct H as [l [h' [Ht [Hd [Hsh [Hc Hdyn]]]]]];
      [destruct h; discriminate | lia |].
    split.
    + exists (h1 ++ h' :: h2)%list. split.
      * apply Forall2_app; [exact H1 | now repeat constructor].
      * rewrite holders_app, holders_cons. cbn [world]. lia.
    + intros o Hin Ho. rewrite (since_app _ _ _ Ht) in Hin.
      pose proof (Hdyn o Hin Ho) as Hh. subst h'.
      split; [exact (b2n_true _ _ Hc)|].
      exists p'. split; [|exact Hd].
      rewrite nth_error_app2, Nat.sub_diag by lia. reflexivity.
  - destruct H as [l [Ht [Hc Hdyn]]]; [destruct h; discriminate | lia |].
    split.
    + exists (h1 ++ h2)%list. split.
      * now apply Forall2_app.
      * rewrite holders_app. cbn [world]. now rewrite Hc.
    + intros o Hin Ho. rewrite (since_app _ _ _ Ht) in Hin.
      rewrite (Hdyn o Hin) in Ho. discriminate.
Qed.

(** Each step of the event loop keeps the invariant, and a step in which a
    probe is launched or the state of the key changed ends with the guard
    set and the method that did it inside the guarded region. *)
Lemma step_ShieldInv env c ch s :
  shieldedController c -> ShieldInv s ->
  ShieldInv (step env c ch s) /\
  (forall o, In o (since (world s) (world (step env c ch s))) ->
     isCycleOp o = true ->
     isUpdating (fields (world (step env c ch s))) = true /\
     exists q, nth_error (tasks (step env c ch s)) (stepTask ch s) = Some q /\
               inCycle q).
Proof.
  intros [[Da Sa] [[Dd Sd] [Hk Ht]]] HI. destruct ch as [i|id|st| |];
    cbn [stepTask].
  - exact (ShieldInv_resume env c i s HI).
  - cbn [step]. destruct (find _ (timers (world s))) as [t|].
    2:{ split; [exact HI|]. intros o Hin. rewrite since_same in Hin.
        contradiction. }
    destruct (Ht (callback t)) as [Dt St].
    assert (HI' : ShieldInv (mkSys (if periodic t then world s
                                    else dropTimer id (world s)) (tasks s))).
    { destruct HI as [hs [Hall Hcount]]. exists hs. split; [exact Hall|].
      cbn [world]. destruct (periodic t); exact Hcount. }
    destruct (ShieldInv_start env _ _ Dt St HI') as [H1 H2].
    split; [exact H1|]. intros o Hin Ho. apply (H2 o); [|exact Ho].
    destruct (periodic t); exact Hin.
  - destruct (Hk st) as [Dk Sk]. exact (ShieldInv_start env _ s Dk Sk HI).
  - exact (ShieldInv_start env _ s Da Sa HI).
  - exact (ShieldInv_start env _ s Dd Sd HI).
Qed.

Lemma exec_ShieldInv env c sched : forall s,
  shieldedController c -> ShieldInv s -> ShieldInv (exec env c sched s).
Proof.
  induction sched as [|ch r IH]; intros s Hc HI; cbn [exec fold_left]; [exact HI|].
  apply IH; [exact Hc | now apply step_ShieldInv].
Qed.

Lemma ShieldInv_initial : ShieldInv initialSys.
Proof. exists []. split; [constructor | reflexivity]. Qed.

(** *** Committed methods hold the guard *)

Lemma idle_not_committed (p : Prog unit) :
  committed p -> forall hr ht, guarded Idle hr ht p -> shielded Idle p -> False.
Proof.
  induction 1 as [o k Hc | o k x Hnt Hcomm IH]; intros hr ht Hg Hs.
  - destruct Hs as [Hcy _]. destruct (Hcy Hc) as [E _]. discriminate.
  - destruct (isGuardOp o) eqn:Hgo.
    + destruct o; try discriminate.
      destruct b; cbn [guarded] in Hg; destruct Hg as [E _]; discriminate.
    + apply (IH hr ht).
      * exact (guarded_other o k Idle hr ht Hgo Hg x).
      * exact (proj2 (shielded_other o k Idle Hgo Hs) x).
Qed.

Lemma Forall2_lookup {A B : Type} (R : A -> B -> Prop) hs ts i p :
  Forall2 R hs ts -> nth_error ts i = Some p ->
  exists h, nth_error hs i = Some h /\ R h p.
Proof.
  intros Hall. revert i. induction Hall as [|h q hs' ts' Hhq _ IH];
    intros [|i] Hnth; cbn [nth_error] in *; try discriminate.
  - inversion Hnth; subst. now exists h.
  - now apply IH.
Qed.

Lemma ShieldInv_committed s :
  ShieldInv s ->
  (forall i p, nth_error (tasks s) i = Some p -> committed p ->
     inCycle p /\ isUpdating (fields (world s)) = true) /\
  (forall i j p q,
     nth_error (tasks s) i = Some p -> nth_error (tasks s) j = Some q ->
     committed p -> committed q -> i = j).
Proof.
  intros [hs [Hall Hcount]].
  assert (Hflag : forall i p, nth_error (tasks s) i = Some p -> committed p ->
                    nth_error hs i = Some true /\ inCycle p).
  { intros i p Hi Hp.
    destruct (Forall2_lookup _ hs (tasks s) i p Hall Hi) as [h [Hh [Hd Hsh]]].
    destruct h; [now split|].
    exfalso. exact (idle_not_committed p Hp false false Hd Hsh). }
  split.
  - intros i p Hi Hp. destruct (Hflag i p Hi Hp) as [Hh Hin].
    split; [exact Hin|].
    pose proof (holders_ge hs i Hh) as Hge. rewrite Hcount in Hge.
    destruct (isUpdating (fields (world s))); [reflexivity | cbn in Hge; lia].
  - intros i j p q Hi Hj Hp Hq.
    apply (holders_unique hs).
    + rewrite Hcount. apply b2n_le.
    + exact (proj1 (Hflag i p Hi Hp)).
    + exact (proj1 (Hflag j q Hj Hq)).
Qed.

(** *** A key press and the guard *)

Lemma perform_withGuard env o b w :
  isGuardOp o = false ->
  perform env o (withGuard b w)
  = (fst (perform env o w), withGuard b (snd (perform env o w))).
Proof. destruct o; intros Hg; try discriminate; reflexivity. Qed.

Lemma run_withGuard {A : Type} env (p : Prog A) :
  neutral p -> forall b w,
  run env p (withGuard b w)
  = (fst (run env p w), withGuard b (snd (run env p w))).
Proof.
  induction p as [a|e|o k IH]; intros Hn b w; [reflexivity | reflexivity |].
  destruct Hn as [Hg Hk]. cbn [run].
  rewrite (perform_withGuard env o b w Hg).
  destruct (perform env o w) as [x w1]. cbn [fst snd]. apply IH, Hk.
Qed.

Lemma advance_neutral env (p : Prog unit) : forall w,
  neutral p ->
  isUpdating (fields (snd (advance env p w))) = isUpdating (fields w).
Proof.
  induction p as [a|e|o k IH]; intros w Hn; [reflexivity | reflexivity |].
  destruct Hn as [Hg Hk]. cbn [advance].
  pose proof (perform_isUpdating env o w Hg) as Hsame.
  destruct (perform env o w) as [x w1]. cbn [snd] in Hsame.
  destruct (suspends o); [exact Hsame|].
  rewrite IH; [exact Hsame | apply Hk].
Qed.

Lemma start_neutral env (p : Prog unit) s :
  neutral p ->
  isUpdating (fields (world (start env p s))) = isUpdating (fields (world s)).
Proof.
  intros Hn. unfold start.
  pose proof (advance_neutral env p (world s) Hn) as H.
  destruct (advance env p (world s)) as [[p'|] w']; exact H.
Qed.

(** An update cycle that found the guard free and Zoom running is committed:
    it is past its availability check of the process, on its way to the
    probe. *)
Lemma advance_updateState_committed kind env w p' :
  processPresent (env (launched w)) = true ->
  advance env (updateState (subclass kind)) w
  = (Some p', spawned Pgrep (acquired w)) ->
  committed p'.
Proof.
  intros Hpres Hadv.
  unfold updateState, isZoomRunning, executeCommand, Monitor.executeCommand in Hadv.
  cbn in Hadv.
  destruct (isUpdating (fields w)); [discriminate|].
  cbn in Hadv.
  unfold processPresent, scriptOutput in Hpres.
  destruct (env (launched w)) as [[[|n]|] out err|msg]; try discriminate.
  cbn in Hadv, Hpres.
  destruct (String.length (trim out)); [discriminate|].
  cbn in Hadv. injection Hadv as Hp. subst p'.
  apply (committed_later (Spawn (Osascript CheckMeetingScript)) _ Scenarios.yes);
    [reflexivity|].
  cbn.
  apply (committed_later (Console LogInfo "isInMeeting") _ tt); [reflexivity|].
  cbn.
  destruct kind; apply committed_now; reflexivity.
Qed.

(** C6 (as the code has it). The guard [isUpdating] serializes the update
    cycles, and only them.  In every interleaving of appearances, key
    presses, timer firings and resumptions of suspended methods, and for
    every behaviour of the processes:
    - at most one suspended method is inside the guarded region of
      [updateState], none while the guard is not set, one while it is set;
    - a suspended method that can still reach a probe or a change of the
      state of the key without testing the guard again (it is past the
      availability check of an update cycle, or in it) is inside the guarded
      region, the guard is set, and there is at most one such method;
    - whatever the event loop does next, if a probe is launched or the state
      of the key is changed in that step, the step ends with the guard set
      and with the method that did it inside the guarded region: probes and
      updates of the key happen only under the guard;
    - an update cycle that finds the guard free takes it before it awaits,
      and is committed when Zoom is running; one that finds it taken
      (started by a tick or by a verification) returns at once without
      launching anything, and a whole tick run while the guard is taken
      launches no probe and no toggle command and leaves the key alone;
    - a key press is not subject to the guard: it leaves the guard as it
      finds it, and what it does, what it returns and what it leaves behind
      are the same whether the guard is set or not. *)
Theorem update_cycles_exclusive config kind env sched :
  let sub := subclass kind in
  let c := controller config sub in
  let s := exec env c sched initialSys in
  (forall i j p q,
     nth_error (tasks s) i = Some p -> nth_error (tasks s) j = Some q ->
     inCycle p -> inCycle q -> i = j) /\
  (isUpdating (fields (world s)) = false ->
   forall i p, nth_error (tasks s) i = Some p -> ~ inCycle p) /\
  (isUpdating (fields (world s)) = true ->
   exists i p, nth_error (tasks s) i = Some p /\ inCycle p) /\
  (forall i p, nth_error (tasks s) i = Some p -> committed p ->
     inCycle p /\ isUpdating (fields (world s)) = true) /\
  (forall i j p q,
     nth_error (tasks s) i = Some p -> nth_error (tasks s) j = Some q ->
     committed p -> committed q -> i = j) /\
  (forall ch o,
     In o (since (world s) (world (step env c ch s))) ->
     isCycleOp o = true ->
     isUpdating (fields (world (step env c ch s))) = true /\
     exists q, nth_error (tasks (step env c ch s)) (stepTask ch s) = Some q /\
               inCycle q) /\
  (forall w, isUpdating (fields w) = false ->
     exists p', advance env (updateState sub) w
                = (Some p', spawned Pgrep (acquired w)) /\ inCycle p' /\
                (processPresent (env (launched w)) = true -> committed p')) /\
  (forall w, isUpdating (fields w) = true ->
     advance env (updateState sub) w = (None, w) /\
     run env (updateState sub) w = (Returned tt, w)) /\
  (forall w, isUpdating (fields w) = true ->
     let w' := snd (run env (periodicTick sub) w) in
     filter isDetectorCall (since w w') = [] /\
     filter isExecutorCall (since w w') = [] /\
     button w' = button w /\
     title w' = title w) /\
  (forall st,
     isUpdating (fields (world (step env c (KeyDown st) s)))
     = isUpdating (fields (world s))) /\
  (forall st b w,
     run env (onKeyDown config sub st) (withGuard b w)
     = (fst (run env (onKeyDown config sub st) w),
        withGuard b (snd (run env (onKeyDown config sub st) w)))).
Proof.
  cbv zeta.
  pose proof (shielded_controller config kind) as Hc.
  pose proof (exec_ShieldInv env (controller config (subclass kind)) sched
                initialSys Hc ShieldInv_initial) as HS.
  pose proof (ShieldInv_Inv _ HS) as HI.
  destruct (Inv_exclusive _ HI) as [Hex Hnone].
  destruct (Inv_classified _ HI) as [_ Hsome].
  destruct (ShieldInv_committed _ HS) as [Hcom Huniq].
  split; [exact Hex|]. split; [exact Hnone|]. split; [exact Hsome|].
  split; [exact Hcom|]. split; [exact Huniq|].
  split; [|split; [|split; [|split; [|split]]]].
  - intros ch. exact (proj2 (step_ShieldInv env _ ch _ Hc HS)).
  - intros w Hfree.
    destruct (advance_updateState_free (subclass kind) env w
                (neutral_subclass kind) Hfree) as [p' [Hadv Hin]].
    exists p'. split; [exact Hadv|]. split; [exact Hin|].
    intros Hpres. exact (advance_updateState_committed kind env w p' Hpres Hadv).
  - intros w Hbusy. split;
      [now apply advance_updateState_busy | now apply run_updateState_busy].
  - intros w Hbusy.
    destruct (periodicTick_busy (subclass kind) env w Hbusy) as [A [B [C [D _]]]].
    repeat split; assumption.
  - intros st. cbn [step]. apply start_neutral.
    cbn [Runtime.onKeyDown controller]. apply neutral_onKeyDown.
  - intros st b w. apply run_withGuard, neutral_onKeyDown.
Qed.

Lemma update_cycles_exclusive_witness :
  let c := controller defaultConfig ZoomVideoToggle in
  let env := MoreScenarios.envVideoOff in
  let s := exec env c [WillAppear; WillAppear; Resume 0] initialSys in
  let s' := step env c (Resume 0) s in
  (exists p, nth_error (tasks s) 0 = Some p /\ inCycle p /\
             isUpdating (fields (world s)) = true) /\
  (isUpdating (fields (world s')) = true /\
   exists q, nth_error (tasks s') 0 = Some q /\ inCycle q) /\
  advance env (updateState ZoomVideoToggle) (world s) = (None, world s) /\
  (let w' := snd (run env (periodicTick ZoomVideoToggle) (world s)) in
   filter isDetectorCall (since (world s) w') = [] /\ button w' = 0) /\
  isUpdating (fields (world (step env c (KeyDown Scenarios.noSettings) s))) = true.
Proof.
  cbv zeta.
  destruct (update_cycles_exclusive defaultConfig VideoAction
              MoreScenarios.envVideoOff [WillAppear; WillAppear; Resume 0])
    as [_ [_ [_ [Hcom [_ [Hdyn [_ [Hbusy [Htick [Hkey _]]]]]]]]]].
  split; [|split; [|split; [|split]]];
    [| | | |exact (eq_trans (Hkey Scenarios.noSettings) eq_refl)].
  - eexists. split; [vm_compute; reflexivity|].
    refine (Hcom 0 _ eq_refl _).
    apply (committed_later (Console LogInfo "isInMeeting") _ tt); [reflexivity|].
    apply committed_now. reflexivity.
  - apply (Hdyn (Resume 0) (Spawn (Osascript DetectVideoScript)));
      [right; left; reflexivity | reflexivity].
  - match goal with
    | |- advance _ _ ?w = _ => exact (proj1 (Hbusy w eq_refl))
    end.
  - match goal with
    | |- filter _ (since ?w _) = _ /\ _ =>
        destruct (Htick w eq_refl) as [A [_ [C _]]]
    end.
    exact (conj A C).
Defined.

End CycleFacts.

(** ** What a key press shows on the key *)

Module DisplayFacts.
Import JsString Keystroke Runtime Observe Schedule Cycle RuntimeFacts BaseFacts
       ToggleBase ControllerFacts.

Lemma perform_button env o w :
  isSetState o = false -> button (snd (perform env o w)) = button w.
Proof. destruct o; intros H; try discriminate; reflexivity. Qed.

(** A program without [setState] leaves the state of the key alone. *)
Lemma run_keeps_key {A : Type} env (p : Prog A) : forall w,
  avoids isSetState p ->
  exists l, trace (snd (run env p w)) = (trace w ++ l)%list /\
            filter isSetState l = [] /\
            button (snd (run env p w)) = button w.
Proof.
  induction p as [a|e|o k IH]; intros w Hp.
  - exists []. cbn. now rewrite app_nil_r.
  - exists []. cbn. now rewrite app_nil_r.
  - destruct Hp as [Ho Hk]. cbn [run].
    pose proof (ActivationFacts.perform_trace_exact env o w) as Ht.
    pose proof (perform_button env o w Ho) as Hb.
    destruct (perform env o w) as [x w1]. cbn [snd] in Ht, Hb.
    destruct (IH x w1 (Hk x)) as [l [Hl [Hf Hbl]]].
    exists ((if observable o then [o] else []) ++ l)%list.
    split; [rewrite Hl, Ht; now rewrite app_assoc|].
    split; [|now rewrite Hbl].
    rewrite filter_app, Hf. destruct (observable o); cbn [filter];
      rewrite ?Ho; reflexivity.
Qed.

Lemma setState_disturbs o : isSetState o = true -> disturbs o = true.
Proof.
  intros H. unfold disturbs, isCycleOp. rewrite H. now rewrite !orb_true_r.
Qed.

(** In no run of a key press of ZoomToggleBase is the state of the key set. *)
Lemma onKeyDown_keeps_key config kind env w settings :
  let w' := snd (run env (onKeyDown config (subclass kind) settings) w) in
  filter isSetState (since w w') = [] /\ button w' = button w.
Proof.
  cbv zeta.
  destruct (run_keeps_key env (onKeyDown config (subclass kind) settings) w)
    as [l [Hl [Hf Hb]]].
  { apply (CycleFacts.avoids_weaken isSetState disturbs); [apply setState_disturbs|].
    apply CycleFacts.outside_onKeyDown. }
  split; [|exact Hb]. now rewrite (since_app _ _ _ Hl).
Qed.

(** C3 (as the code has it). On a key press with Zoom running:
    - when its one blocking toggle command succeeds, the earlier
      ZoomVideoToggle sets the key to the opposite of its last known state
      (video_on gives video_off, anything else video_on) after the command
      has returned, records it as last known state and arms the
      verification;
    - when the toggle command of ZoomToggleBase succeeds, at the first
      attempt or at any retry (after [n] failed attempts, [n] below
      [maxRetryAttempts]), the handler returns normally after [n] delayed
      retries, sets no state at all, so that the key keeps the state it
      had, and arms the verification;
    - a configuration of ZoomToggleBase that allows no attempt launches no
      toggle command and arms the verification all the same;
    - more generally no key press of ZoomToggleBase, whatever the processes
      do, sets the state of the key.
    In both classes, a verification whose update cycle reaches the probe and
    gets a known state leaves the key in that state. *)
Theorem optimistic_update_as_coded config kind env w settings :
  processPresent (env (launched w)) = true ->
  let sub := subclass kind in
  let script :=
    Osascript (toggleScript config sub (methodOf settings) (shortcutOf sub settings)) in
  (succeeded (env (1 + launched w)) = true ->
   let w' := snd (run env (VideoToggleV1.onKeyDown settings) w) in
   let target := VideoToggleV1.flipped (lastKnownState (fields w)) in
   since w w'
   = [ExecSync Pgrep;
      ExecSync (Osascript (VideoToggleV1.toggleScript (methodOf settings)
                                                      (shortcutOfV1 settings)));
      SetState (buttonOf target);
      SetTimeout VerifyCallback 800] /\
   button w' = buttonOf target /\
   lastKnownState (fields w') = target) /\
  (forall n,
     n < maxRetryAttempts config ->
     (forall k, k < n -> succeeded (env (S k + launched w)) = false) ->
     succeeded (env (S n + launched w)) = true ->
     let r := run env (onKeyDown config sub settings) w in
     fst r = Returned tt /\
     executorSteps (since w (snd r))
     = (backoffSteps script (retryDelay config) n 0 ++ [Spawn script])%list /\
     filter isSetState (since w (snd r)) = [] /\
     button (snd r) = button w /\
     filter isSetTimeout (since w (snd r))
     = [SetTimeout VerifyCallback (stateUpdateDelay config)]) /\
  (maxRetryAttempts config = 0 ->
   filter isSetTimeout
     (since w (snd (run env (onKeyDown config sub settings) w)))
   = [SetTimeout VerifyCallback (stateUpdateDelay config)]) /\
  (forall env' w0 st,
     let w' := snd (run env' (onKeyDown config sub st) w0) in
     filter isSetState (since w0 w') = [] /\ button w' = button w0) /\
  (forall w1 z,
     detectedInV1 env w1 = Some z -> isUnknown z = false ->
     button (snd (run env VideoToggleV1.verification w1)) = buttonOf z) /\
  (forall w1 z,
     detectedIn kind env w1 = Some z -> isUnknown z = false ->
     button (snd (run env (verification config (subclass kind)) w1)) = buttonOf z).
Proof.
  intros Hpres. cbv zeta. split; [|split; [|split; [|split; [|split]]]].
  - intros Hok. rewrite (run_onKeyDownV1 env w settings Hpres Hok). cbv zeta.
    split; [|split; reflexivity].
    apply since_app. simpl. now rewrite <- !app_assoc.
  - intros n Hn Hfail Hok.
    destruct (onKeyDown_backoff config kind env w settings Hpres n Hn Hfail Hok)
      as [A [B [_ [C [_ [D E]]]]]].
    repeat split; assumption.
  - intros Hmax.
    rewrite (ScheduleFacts.since_key_press_no_attempt config kind env w settings
               Hmax Hpres).
    rewrite !filter_app, filter_cleanupSteps, filter_validateLogs by reflexivity.
    reflexivity.
  - intros env' w0 st. apply onKeyDown_keeps_key.
  - intros w1 z Hd Hu. now apply verificationV1_display.
  - intros w1 z Hd Hu. now apply verification_display.
Qed.

Lemma optimistic_update_as_coded_witness :
  (let w' := snd (run Scenarios.envToggleThenVideoOff
                      (VideoToggleV1.onKeyDown Scenarios.noSettings)
                      Scenarios.worldOn) in
   filter isSetState (trace w') = [SetState 0] /\
   button w' = 0 /\
   button (snd (run Scenarios.envToggleThenVideoOff VideoToggleV1.verification w')) = 0) /\
  (let w' := snd (run Scenarios.envToggleThenVideoOff
                      (onKeyDown defaultConfig ZoomVideoToggle Scenarios.noSettings)
                      Scenarios.worldOn) in
   filter isSetState (trace w') = [] /\
   button w' = 1 /\
   button (snd (run Scenarios.envToggleThenVideoOff
                    (verification defaultConfig ZoomVideoToggle) w')) = 0) /\
  (let attempt :=
     Spawn (Osascript (KeyboardScript 100 (generateKeystrokeScript "cmd+shift+v"))) in
   let r := run Scenarios.envFailTwice
                (onKeyDown defaultConfig ZoomVideoToggle Scenarios.noSettings)
                Scenarios.worldOn in
   fst r = Returned tt /\
   executorSteps (trace (snd r))
   = [attempt; Sleep 200; attempt; Sleep 400; attempt] /\
   filter isSetState (trace (snd r)) = [] /\
   button (snd r) = 1 /\
   filter isSetTimeout (trace (snd r)) = [SetTimeout VerifyCallback 1000]).
Proof.
  destruct (optimistic_update_as_coded defaultConfig VideoAction
              Scenarios.envToggleThenVideoOff Scenarios.worldOn
              Scenarios.noSettings eq_refl)
    as [A [B [_ [_ [C D]]]]].
  destruct (A eq_refl) as [A1 [A2 _]].
  destruct (B 0 (Nat.lt_0_succ 2) (fun k Hk => match Nat.nlt_0_r k Hk with end)
              eq_refl) as [_ [_ [B1 [B2 _]]]].
  destruct (optimistic_update_as_coded defaultConfig VideoAction
              Scenarios.envFailTwice Scenarios.worldOn
              Scenarios.noSettings eq_refl)
    as [_ [R _]].
  assert (Hfail : forall k, k < 2 ->
            succeeded (Scenarios.envFailTwice (S k + launched Scenarios.worldOn))
            = false).
  { intros [|[|k]] Hk; [reflexivity | reflexivity | lia]. }
  destruct (R 2 (Nat.lt_succ_diag_r 2) Hfail eq_refl) as [R1 [R2 [R3 [R4 R5]]]].
  split; [|split].
  - split; [reflexivity|]. split; [exact A2|].
    exact (C (snd (run Scenarios.envToggleThenVideoOff
                       (VideoToggleV1.onKeyDown Scenarios.noSettings)
                       Scenarios.worldOn))
             VideoOff eq_refl eq_refl).
  - split; [exact B1|]. split; [exact B2|].
    exact (D (snd (run Scenarios.envToggleThenVideoOff
                       (onKeyDown defaultConfig ZoomVideoToggle Scenarios.noSettings)
                       Scenarios.worldOn))
             VideoOff eq_refl eq_refl).
  - repeat split; assumption.
Defined.

End DisplayFacts.
